(** * webrtc-ros-bridge client: signaling session, session negotiator and
      VP8 frame assembler.

    Shallow embedding of
      - receiver/signaling_channel/signaling_channel.go  (module [Signaling])
      - peer_connection_channel/peer_connection_channel.go (modules
        [Negotiator] and [Setup])
      - peer_connection_channel/webm_saver.go            (module [Assembler])
    Collaborators that live outside the repository (JSON codec, websocket,
    the pion negotiation engine, the pion sample builder, libvpx, gocv) are
    parameters of the model: every theorem holds for all of their behaviours. *)

From Stdlib Require Import ZArith List String Ascii Bool Lia Permutation Sorted.
From Stdlib Require Import Strings.Byte.
From Stdlib Require DecimalString DecimalZ.
Import ListNotations.

Local Open Scope string_scope.
Local Open Scope Z_scope.
Local Open Scope list_scope.

(* ================================================================== *)
(** ** Go's [strings] package, as far as [Spin] uses it *)
(* ================================================================== *)
Module Strings.

(** [strings.HasPrefix(s, prefix)]. *)
Fixpoint HasPrefix (s prefix : string) : bool :=
  match prefix, s with
  | EmptyString, _ => true
  | String _ _, EmptyString => false
  | String p prefix', String c s' => Ascii.eqb c p && HasPrefix s' prefix'
  end.

(** [strings.Index(s, substr)]: byte offset of the first occurrence,
    [-1] when there is none. *)
Fixpoint Index (s substr : string) : Z :=
  if HasPrefix s substr then 0
  else match s with
       | EmptyString => -1
       | String _ s' =>
           let j := Index s' substr in
           if j <? 0 then -1 else j + 1
       end.

(** The slices [s[:j]] and [s[j:]]. *)
Fixpoint take (j : nat) (s : string) : string :=
  match j, s with
  | S j', String c s' => String c (take j' s')
  | _, _ => EmptyString
  end.

Fixpoint drop (j : nat) (s : string) : string :=
  match j, s with
  | S j', String _ s' => drop j' s'
  | _, _ => s
  end.

(** [strings.Replace(s, old, new, n)] for a count [n >= 0].  The library
    first counts the occurrences and then rewrites [min n count] of them
    from the left; stopping at the first failed [Index] is the same loop.
    (With an empty [old] and [n > 1] the library steps rune by rune; the
    only call site passes a nine-byte pattern and [n = 1].) *)
Fixpoint Replace (s old new : string) (n : nat) : string :=
  match n with
  | O => s
  | S n' =>
      if String.eqb old new then s
      else
        let j := Index s old in
        if j <? 0 then s
        else (take (Z.to_nat j) s ++ new
             ++ Replace (drop (Z.to_nat j + String.length old) s) old new n')%string
  end.

(** [s] has an occurrence of [sub] starting at byte offset [i]. *)
Definition OccursAt (sub s : string) (i : nat) : Prop :=
  exists pre post, s = (pre ++ sub ++ post)%string /\ String.length pre = i.

End Strings.

(** A Go [error]: [None] is [nil]. *)
Definition error := option string.

(** A computation that may panic; both outcomes keep the state reached. *)
Inductive Outcome (A : Type) :=
| Ok (a : A)
| Panic (a : A).
Arguments Ok {A} a.
Arguments Panic {A} a.

Definition isPanic {A} (o : Outcome A) : bool :=
  match o with Ok _ => false | Panic _ => true end.

Definition reached {A} (o : Outcome A) : A :=
  match o with Ok a => a | Panic a => a end.

(* ================================================================== *)
(** ** receiver/signaling_channel/signaling_channel.go *)
(* ================================================================== *)
Module Signaling.
Import Strings.

(** [webrtc.SessionDescription]. *)
Record SessionDescription := mkSD { sdType : string; SDP : string }.

Record ICECandidateJSON := mkICEJSON {
  jCandidate : string;
  jSDPMid : string;
  jSDPMLineIndex : Z;
  jType : string
}.

(** [webrtc.ICECandidateInit]; the two pointer fields are options. *)
Record ICECandidateInit := mkICEInit {
  Candidate : string;
  SDPMid : option string;
  SDPMLineIndex : option Z
}.

(** The configure directive built by [composeActions]. *)
Record Actions := mkActions {
  streamId : string;
  trackId : string;
  src : string
}.

Definition composeActions (sid nameIn : string) : Actions :=
  {| streamId := sid;
     trackId := (sid ++ "/subscribed_video")%string;
     src := ("ros_image:/" ++ nameIn)%string |}.

(** [encoding/json] on the record shapes of this package. *)
Record Json := mkJson {
  marshalActions : Actions -> option string;
  unmarshalSD : string -> option SessionDescription;
  marshalSD : SessionDescription -> option string;
  unmarshalCandidate : string -> option ICECandidateJSON
}.

(** What [Spin] does to the outside world, in program order
    (informational log lines are left out). *)
Inductive Effect :=
| WriteMessage (payload : string)          (* c.WriteMessage(TextMessage, _) *)
| SendSDP (sd : SessionDescription)        (* s.sdpChan <- sdp *)
| SendCandidate (c : ICECandidateInit)     (* s.candidateChan <- iceCandidate *)
| LogError (msg : string).

(** How a run of [Spin] ends: it returned (the deferred [c.Close] ran), it
    is suspended on a channel receive, or the dial panicked. *)
Inductive Status := Returned | Waiting | Panicked.

(** The answer patch of [Spin]. *)
Definition patchAnswer (answer : SessionDescription) : SessionDescription :=
  {| sdType := sdType answer;
     SDP := Replace (SDP answer) "m=video 0" "m=video 9" 1 |}.

Definition toInit (cj : ICECandidateJSON) : ICECandidateInit :=
  {| Candidate := jCandidate cj;
     SDPMid := Some (jSDPMid cj);
     SDPMLineIndex := Some (jSDPMLineIndex cj) |}.

Section Session.
Variable J : Json.
(** The negotiator between [sdpChan] and [sdpReplyChan]: [None] when no
    answer is ever published. *)
Variable negotiate : SessionDescription -> option SessionDescription.

(** The candidate relay loop.  [recv] holds the messages the reader
    goroutine delivers; once they are used up the receive suspends. *)
Fixpoint relay (recv : list string) : list Effect :=
  match recv with
  | [] => []
  | candidateRaw :: rest =>
      match unmarshalCandidate J candidateRaw with
      | None => LogError "unmarshal error" :: relay rest
      | Some candidateJSON => SendCandidate (toInit candidateJSON) :: relay rest
      end
  end.

(** [Spin]; [dialed = false] is a dial error. *)
Definition Spin (dialed : bool) (sid nameIn : string) (recv : list string)
  : list Effect * Status :=
  if negb dialed then ([], Panicked)
  else
    match marshalActions J (composeActions sid nameIn) with
    | None => ([LogError "compose message error"], Returned)
    | Some cfgMessage =>
        match recv with
        | [] => ([WriteMessage cfgMessage], Waiting)
        | recvRaw :: recv' =>
            match unmarshalSD J recvRaw with
            | None =>
                ([WriteMessage cfgMessage; LogError "unmarshal error"],
                 Returned)
            | Some sdp =>
                match negotiate sdp with
                | None => ([WriteMessage cfgMessage; SendSDP sdp], Waiting)
                | Some answer =>
                    let answer' := patchAnswer answer in
                    let send :=
                      match marshalSD J answer' with
                      | Some payload => [WriteMessage payload]
                      | None => [LogError "marshal error"; WriteMessage ""]
                      end in
                    ([WriteMessage cfgMessage; SendSDP sdp]
                       ++ send ++ relay recv',
                     Waiting)
                end
            end
        end
    end.

(** The bytes [Spin] writes for the answer: the encoding of the patched
    description, or nothing when the encoder fails. *)
Definition answerPayload (answer : SessionDescription) : string :=
  match marshalSD J (patchAnswer answer) with
  | Some payload => payload
  | None => ""
  end.

End Session.

(** What reaches the negotiator. *)
Inductive ToNegotiator :=
| Offer (sd : SessionDescription)
| Remote (c : ICECandidateInit).

Fixpoint forwarded (t : list Effect) : list ToNegotiator :=
  match t with
  | [] => []
  | SendSDP sd :: t' => Offer sd :: forwarded t'
  | SendCandidate c :: t' => Remote c :: forwarded t'
  | _ :: t' => forwarded t'
  end.

(** What is written on the signaling transport. *)
Fixpoint written (t : list Effect) : list string :=
  match t with
  | [] => []
  | WriteMessage p :: t' => p :: written t'
  | _ :: t' => written t'
  end.

(** The candidate records of [recv] that decode, in arrival order. *)
Fixpoint decodable (J : Json) (recv : list string) : list ICECandidateJSON :=
  match recv with
  | [] => []
  | raw :: rest =>
      match unmarshalCandidate J raw with
      | Some cj => cj :: decodable J rest
      | None => decodable J rest
      end
  end.

(** The error lines of a trace. *)
Fixpoint logged (t : list Effect) : list string :=
  match t with
  | [] => []
  | LogError m :: t' => m :: logged t'
  | _ :: t' => logged t'
  end.

(** [strconv.Itoa]. *)
Definition Itoa (n : Z) : string :=
  DecimalString.NilEmpty.string_of_int (Z.to_int n).

(** [newStreamId]; [n] is the number [rand.Intn(1000000000)] returned. *)
Definition newStreamId (n : Z) : string :=
  ("webrtc_ros-stream-" ++ Itoa n)%string.

(** The message map of [SignalCandidate]. *)
Record CandidateMsg := mkCandidateMsg {
  mType : string;
  mCandidate : string;
  mSDPMid : option string;
  mSDPMLineIndex : option Z
}.

(** [SignalCandidate].  [marshalMsg] is [toTextMessage] on the message map;
    when it fails the payload is [nil] and is written all the same.
    [dialed = false] is a channel whose [Spin] has not dialed yet: [s.c] is
    [nil] and the write panics. *)
Definition SignalCandidate (marshalMsg : CandidateMsg -> option string)
  (dialed : bool) (candidate : ICECandidateInit)
  : Outcome (list Effect * error) :=
  let candidateMsg :=
    {| mType := "ice_candidate";
       mCandidate := Candidate candidate;
       mSDPMid := SDPMid candidate;
       mSDPMLineIndex := SDPMLineIndex candidate |} in
  let log := match marshalMsg candidateMsg with
             | Some _ => []
             | None => [LogError "marshal error"]
             end in
  let payload := match marshalMsg candidateMsg with
                 | Some p => p
                 | None => ""
                 end in
  if dialed then Ok (log ++ [WriteMessage payload], None)
  else Panic (log, None).

(** [SignalCandidate] of a dialed channel as the [signalCandidate] field of
    the peer connection channel: the error it returns. *)
Definition signalError (marshalMsg : CandidateMsg -> option string)
  (candidate : ICECandidateInit) : error :=
  snd (reached (SignalCandidate marshalMsg true candidate)).

(** A JSON codec for examples: a session description travels as its body,
    a candidate as its candidate line; "bad" does not decode. *)
Definition exampleJson : Json :=
  {| marshalActions := fun a => Some (src a);
     unmarshalSD := fun s => if String.eqb s "bad" then None
                             else Some (mkSD "offer" s);
     marshalSD := fun sd => Some (SDP sd);
     unmarshalCandidate := fun s => if String.eqb s "bad" then None
                                    else Some (mkICEJSON s "0" 0 "") |}.

Definition exampleNegotiate (sd : SessionDescription)
  : option SessionDescription :=
  Some (mkSD "answer" "v=0 m=video 0 UDP am=video 0").

End Signaling.

(* ================================================================== *)
(** ** peer_connection_channel/peer_connection_channel.go *)
(* ================================================================== *)
Module Negotiator.
Import Signaling.

(** The negotiation engine ([webrtc.PeerConnection]) and its local
    candidates ([*webrtc.ICECandidate], with [ToJSON]). *)
Record Engine := mkEngine {
  engine : Type;
  SetRemoteDescription : engine -> SessionDescription -> engine * error;
  CreateAnswer : engine -> engine * SessionDescription * error;
  SetLocalDescription : engine -> SessionDescription -> engine * error;
  AddICECandidate : engine -> ICECandidateInit -> engine * error;
  ICECandidate : Type;
  ToJSON : ICECandidate -> ICECandidateInit
}.

(** The two goroutines that touch a [PeerConnectionChannel]. *)
Inductive Thread := Dispatcher | Callback.

(** Calls on collaborators, channel sends and lock operations. *)
Inductive Event :=
| ESetRemoteDescription (sdp : SessionDescription)
| ECreateAnswer
| EPublish (answer : SessionDescription)        (* pc.sdpReplyChan <- answer *)
| ESetLocalDescription (answer : SessionDescription)
| EAddICECandidate (c : ICECandidateInit)
| ELock
| EUnlock
| ESignal (c : ICECandidateInit).               (* pc.signalCandidate(c) *)

(** What the dispatcher's [select] receives. *)
Inductive Msg :=
| FromSdpChan (sdp : SessionDescription)
| FromCandidateChan (candidate : ICECandidateInit).

(** Where the goroutine of [handleSignalingMessage] stands; one point per
    statement that another goroutine can observe. *)
Inductive Point :=
| AtSelect
| AtSetRemoteDescription (sdp : SessionDescription)
| AtCreateAnswer
| AtPublish (answer : SessionDescription)
| AtSetLocalDescription (answer : SessionDescription)
| AtFlush
| AtAddICECandidate (candidate : ICECandidateInit).

Section Channel.
Variable E : Engine.
(** The [signalCandidate] field. *)
Variable signalCandidate : ICECandidateInit -> error.

(** [PeerConnectionChannel].  [remoteDescription] is what
    [peerConnection.RemoteDescription()] returns: the description last
    applied with success, [None] before. *)
Record PeerConnectionChannel := mkPC {
  peerConnection : engine E;
  remoteDescription : option SessionDescription;
  pendingCandidates : list (ICECandidate E);
  trace : list (Thread * Event)
}.

Definition emit (who : Thread) (e : Event) (pc : PeerConnectionChannel) :=
  {| peerConnection := peerConnection pc;
     remoteDescription := remoteDescription pc;
     pendingCandidates := pendingCandidates pc;
     trace := trace pc ++ [(who, e)] |}.

Definition withEngine (e : engine E) (pc : PeerConnectionChannel) :=
  {| peerConnection := e;
     remoteDescription := remoteDescription pc;
     pendingCandidates := pendingCandidates pc;
     trace := trace pc |}.

Definition InitPeerConnectionChannel (e : engine E)
  (pendingCandidates : list (ICECandidate E)) : PeerConnectionChannel :=
  {| peerConnection := e;
     remoteDescription := None;
     pendingCandidates := pendingCandidates;
     trace := [] |}.

(** The [OnICECandidate] callback of [Spin].  The whole body runs with
    [candidatesMux] held, the deferred unlock also when it panics. *)
Definition OnICECandidate (c : option (ICECandidate E))
  (pc : PeerConnectionChannel) : Outcome PeerConnectionChannel :=
  match c with
  | None => Ok pc
  | Some c =>
      let pc := emit Callback ELock pc in
      match remoteDescription pc with
      | None =>
          Ok (emit Callback EUnlock
                {| peerConnection := peerConnection pc;
                   remoteDescription := remoteDescription pc;
                   pendingCandidates := pendingCandidates pc ++ [c];
                   trace := trace pc |})
      | Some _ =>
          let pc := emit Callback (ESignal (ToJSON E c)) pc in
          match signalCandidate (ToJSON E c) with
          | Some _ => Panic (emit Callback EUnlock pc)
          | None => Ok (emit Callback EUnlock pc)
          end
      end
  end.

(** The [range pc.pendingCandidates] loop of the SDP case. *)
Fixpoint signalAll (cs : list (ICECandidate E)) (pc : PeerConnectionChannel)
  : Outcome PeerConnectionChannel :=
  match cs with
  | [] => Ok pc
  | c :: rest =>
      let pc := emit Dispatcher (ESignal (ToJSON E c)) pc in
      match signalCandidate (ToJSON E c) with
      | Some _ => Panic pc
      | None => signalAll rest pc
      end
  end.

(** The dispatcher goroutine: the channel state, the program point and the
    messages its [select] will receive, in the order it receives them. *)
Record Config := mkConfig {
  chan : PeerConnectionChannel;
  point : Point;
  inbox : list Msg
}.

Definition goto (p : Point) (pc : PeerConnectionChannel) (cfg : Config) :=
  {| chan := pc; point := p; inbox := inbox cfg |}.

(** One statement of [handleSignalingMessage]. *)
Definition handleSignalingMessage (cfg : Config) : Outcome Config :=
  let pc := chan cfg in
  match point cfg with
  | AtSelect =>
      match inbox cfg with
      | [] => Ok cfg
      | FromSdpChan sdp :: rest =>
          Ok {| chan := pc; point := AtSetRemoteDescription sdp; inbox := rest |}
      | FromCandidateChan c :: rest =>
          Ok {| chan := pc; point := AtAddICECandidate c; inbox := rest |}
      end
  | AtSetRemoteDescription sdp =>
      let pc := emit Dispatcher (ESetRemoteDescription sdp) pc in
      match SetRemoteDescription E (peerConnection pc) sdp with
      | (e, Some _) => Panic (goto AtSelect (withEngine e pc) cfg)
      | (e, None) =>
          Ok (goto AtCreateAnswer
                {| peerConnection := e;
                   remoteDescription := Some sdp;
                   pendingCandidates := pendingCandidates pc;
                   trace := trace pc |} cfg)
      end
  | AtCreateAnswer =>
      let pc := emit Dispatcher ECreateAnswer pc in
      match CreateAnswer E (peerConnection pc) with
      | (e, _, Some _) => Panic (goto AtSelect (withEngine e pc) cfg)
      | (e, answer, None) => Ok (goto (AtPublish answer) (withEngine e pc) cfg)
      end
  | AtPublish answer =>
      Ok (goto (AtSetLocalDescription answer)
            (emit Dispatcher (EPublish answer) pc) cfg)
  | AtSetLocalDescription answer =>
      let pc := emit Dispatcher (ESetLocalDescription answer) pc in
      match SetLocalDescription E (peerConnection pc) answer with
      | (e, Some _) => Panic (goto AtSelect (withEngine e pc) cfg)
      | (e, None) => Ok (goto AtFlush (withEngine e pc) cfg)
      end
  | AtFlush =>
      let pc := emit Dispatcher ELock pc in
      match signalAll (pendingCandidates pc) pc with
      | Panic pc => Panic (goto AtSelect pc cfg)
      | Ok pc => Ok (goto AtSelect (emit Dispatcher EUnlock pc) cfg)
      end
  | AtAddICECandidate c =>
      let pc := emit Dispatcher (EAddICECandidate c) pc in
      match AddICECandidate E (peerConnection pc) c with
      | (e, Some _) => Panic (goto AtSelect (withEngine e pc) cfg)
      | (e, None) => Ok (goto AtSelect (withEngine e pc) cfg)
      end
  end.

(** A schedule: which goroutine moves next. *)
Inductive Tick :=
| Dispatch
| Discovered (c : option (ICECandidate E)).

Definition tick (t : Tick) (cfg : Config) : Outcome Config :=
  match t with
  | Dispatch => handleSignalingMessage cfg
  | Discovered c =>
      match OnICECandidate c (chan cfg) with
      | Ok pc => Ok (goto (point cfg) pc cfg)
      | Panic pc => Panic (goto (point cfg) pc cfg)
      end
  end.

Fixpoint run (sched : list Tick) (cfg : Config) : Outcome Config :=
  match sched with
  | [] => Ok cfg
  | t :: rest =>
      match tick t cfg with
      | Ok cfg' => run rest cfg'
      | Panic cfg' => Panic cfg'
      end
  end.

(** The candidates a schedule discovers, in discovery order. *)
Fixpoint discovered (sched : list Tick) : list (ICECandidate E) :=
  match sched with
  | [] => []
  | Discovered (Some c) :: rest => c :: discovered rest
  | _ :: rest => discovered rest
  end.

(** The candidates passed to [signalCandidate], in call order. *)
Fixpoint signalled (t : list (Thread * Event)) : list ICECandidateInit :=
  match t with
  | [] => []
  | (_, ESignal c) :: rest => c :: signalled rest
  | _ :: rest => signalled rest
  end.

(** The events of one goroutine. *)
Fixpoint eventsOf (who : Thread) (t : list (Thread * Event)) : list Event :=
  match t with
  | [] => []
  | (Dispatcher, e) :: rest =>
      match who with
      | Dispatcher => e :: eventsOf who rest
      | Callback => eventsOf who rest
      end
  | (Callback, e) :: rest =>
      match who with
      | Dispatcher => eventsOf who rest
      | Callback => e :: eventsOf who rest
      end
  end.

(** The SDP messages still to be received. *)
Fixpoint offers (inbox : list Msg) : nat :=
  match inbox with
  | [] => O
  | FromSdpChan _ :: rest => S (offers rest)
  | FromCandidateChan _ :: rest => offers rest
  end.

Definition start (e : engine E) (pending : list (ICECandidate E))
  (inbox : list Msg) : Config :=
  {| chan := InitPeerConnectionChannel e pending;
     point := AtSelect;
     inbox := inbox |}.

(** The three stages of a session with one offer, as seen from a
    configuration: the remote description is not applied yet; it is applied
    and the dispatcher is on its way to the flush; the flush is done. *)
Definition beforePoint (p : Point) : bool :=
  match p with
  | AtSelect | AtSetRemoteDescription _ | AtAddICECandidate _ => true
  | _ => false
  end.

Definition betweenPoint (p : Point) : bool :=
  match p with
  | AtCreateAnswer | AtPublish _ | AtSetLocalDescription _ | AtFlush => true
  | _ => false
  end.

Definition afterPoint (p : Point) : bool :=
  match p with
  | AtSelect | AtAddICECandidate _ => true
  | _ => false
  end.

(** The offers not yet applied: those in the inbox and the one in hand. *)
Definition offersLeft (cfg : Config) : nat :=
  (offers (inbox cfg)
   + match point cfg with AtSetRemoteDescription _ => 1 | _ => 0 end)%nat.

(** The [signalCandidate] calls of one flush, as they enter the trace. *)
Definition flushTrace (cs : list (ICECandidate E)) : list (Thread * Event) :=
  map (fun c => (Dispatcher, ESignal (ToJSON E c))) cs.

(** The events of one flush of the candidates [cs]. *)
Definition flushOf (cs : list (ICECandidate E)) : list Event :=
  ELock :: map (fun c => ESignal (ToJSON E c)) cs ++ [EUnlock].

(** [Stage p0 ds cfg]: [cfg] is reached from a channel created with the
    pending candidates [p0] after the candidates [ds] were discovered. *)
Inductive Stage (p0 ds : list (ICECandidate E)) (cfg : Config) : Prop :=
| Stage_before :
    remoteDescription (chan cfg) = None ->
    beforePoint (point cfg) = true ->
    offersLeft cfg = 1%nat ->
    pendingCandidates (chan cfg) = p0 ++ ds ->
    signalled (trace (chan cfg)) = [] ->
    Stage p0 ds cfg
| Stage_between d1 d2 :
    remoteDescription (chan cfg) <> None ->
    betweenPoint (point cfg) = true ->
    offers (inbox cfg) = 0%nat ->
    ds = d1 ++ d2 ->
    pendingCandidates (chan cfg) = p0 ++ d1 ->
    signalled (trace (chan cfg)) = map (ToJSON E) d2 ->
    Stage p0 ds cfg
| Stage_after d1 d2 d3 pre post :
    remoteDescription (chan cfg) <> None ->
    afterPoint (point cfg) = true ->
    offers (inbox cfg) = 0%nat ->
    ds = d1 ++ d2 ++ d3 ->
    pendingCandidates (chan cfg) = p0 ++ d1 ->
    signalled (trace (chan cfg)) = map (ToJSON E) (d2 ++ (p0 ++ d1) ++ d3) ->
    eventsOf Dispatcher (trace (chan cfg)) = pre ++ flushOf (p0 ++ d1) ++ post ->
    Stage p0 ds cfg.

(** The candidate callbacks [cs], one after the other. *)
Definition callbacks (cs : list (option (ICECandidate E))) : list Tick :=
  map Discovered cs.

(** Every schedule in which the dispatcher takes the six steps of one SDP
    event, with any callbacks in between. *)
Definition sdpEvent (l1 l2 l3 l4 l5 : list (option (ICECandidate E)))
  : list Tick :=
  Dispatch :: callbacks l1 ++ Dispatch :: callbacks l2
    ++ Dispatch :: callbacks l3 ++ Dispatch :: callbacks l4
    ++ Dispatch :: callbacks l5 ++ [Dispatch].

(** The order of the dispatcher's steps as the specification words it:
    the answer becomes the local description before it is published. *)
Definition specifiedOrder (sdp answer : SessionDescription)
  (pending : list (ICECandidate E)) : list Event :=
  [ESetRemoteDescription sdp; ECreateAnswer; ESetLocalDescription answer;
   EPublish answer] ++ flushOf pending.

(** The order of the dispatcher's steps in [handleSignalingMessage]. *)
Definition codeOrder (sdp answer : SessionDescription)
  (pending : list (ICECandidate E)) : list Event :=
  [ESetRemoteDescription sdp; ECreateAnswer; EPublish answer;
   ESetLocalDescription answer] ++ flushOf pending.

End Channel.

Arguments peerConnection {E} _.
Arguments remoteDescription {E} _.
Arguments pendingCandidates {E} _.
Arguments trace {E} _.
Arguments mkPC {E} _ _ _ _.
Arguments chan {E} _.
Arguments point {E} _.
Arguments inbox {E} _.
Arguments mkConfig {E} _ _ _.
Arguments emit {E} _ _ _.
Arguments withEngine {E} _ _.
Arguments goto {E} _ _ _.
Arguments Dispatch {E}.
Arguments Discovered {E} _.
Arguments OnICECandidate {E} _ _ _.
Arguments signalAll {E} _ _ _.
Arguments handleSignalingMessage {E} _ _.
Arguments tick {E} _ _ _.
Arguments run {E} _ _ _.
Arguments discovered {E} _.
Arguments offersLeft {E} _.
Arguments flushOf {E} _.
Arguments flushTrace {E} _.
Arguments Stage {E} _ _ _.
Arguments callbacks {E} _.
Arguments sdpEvent {E} _ _ _ _ _.
Arguments start {E} _ _ _.

(** The messages the dispatcher has handed to the engine, in call order. *)
Fixpoint applied (t : list (Thread * Event)) : list Msg :=
  match t with
  | [] => []
  | (_, ESetRemoteDescription sdp) :: rest => FromSdpChan sdp :: applied rest
  | (_, EAddICECandidate c) :: rest => FromCandidateChan c :: applied rest
  | _ :: rest => applied rest
  end.

(** The message the dispatcher has received and not yet handed on. *)
Definition inHand (p : Point) : list Msg :=
  match p with
  | AtSetRemoteDescription sdp => [FromSdpChan sdp]
  | AtAddICECandidate c => [FromCandidateChan c]
  | _ => []
  end.

(** The flushes the dispatcher has completed. *)
Fixpoint flushes (t : list (Thread * Event)) : nat :=
  match t with
  | [] => O
  | (Dispatcher, EUnlock) :: rest => S (flushes rest)
  | _ :: rest => flushes rest
  end.

(** The candidates one goroutine has passed to [signalCandidate]. *)
Fixpoint signalledBy (who : Thread) (t : list (Thread * Event))
  : list ICECandidateInit :=
  match t with
  | [] => []
  | (Dispatcher, ESignal c) :: rest =>
      match who with
      | Dispatcher => c :: signalledBy who rest
      | Callback => signalledBy who rest
      end
  | (Callback, ESignal c) :: rest =>
      match who with
      | Dispatcher => signalledBy who rest
      | Callback => c :: signalledBy who rest
      end
  | _ :: rest => signalledBy who rest
  end.

(** The offers received and not yet flushed for: those in the inbox and
    the one the dispatcher is working on. *)
Definition offersOpen {E : Engine} (cfg : Config E) : nat :=
  (offers (inbox cfg)
   + match point cfg with
     | AtSetRemoteDescription _ | AtCreateAnswer | AtPublish _
     | AtSetLocalDescription _ | AtFlush => 1
     | _ => 0
     end)%nat.

(** What [Spin] of the signaling channel sends on [sdpChan] and
    [candidateChan], as messages of the dispatcher's inbox. *)
Definition inboxOf (sends : list ToNegotiator) : list Msg :=
  map (fun x => match x with
                | Offer sd => FromSdpChan sd
                | Remote c => FromCandidateChan c
                end) sends.

(** An engine whose four operations never return an error. *)
Definition accepting (E : Engine) : Prop :=
  (forall e sdp, snd (SetRemoteDescription E e sdp) = None)
  /\ (forall e, snd (CreateAnswer E e) = None)
  /\ (forall e answer, snd (SetLocalDescription E e answer) = None)
  /\ (forall e c, snd (AddICECandidate E e c) = None).

(** An engine for examples: it accepts everything and answers "a". *)
Definition exampleEngine : Engine :=
  {| engine := unit;
     SetRemoteDescription := fun e _ => (e, None);
     CreateAnswer := fun e => (e, mkSD "answer" "a", None);
     SetLocalDescription := fun e _ => (e, None);
     AddICECandidate := fun e _ => (e, None);
     ICECandidate := string;
     ToJSON := fun c => mkICEInit c None None |}.

Definition exampleSignal (c : ICECandidateInit) : error := None.

(** Ticks over the example engine. *)
Definition found (c : string) : Tick exampleEngine :=
  Discovered (E := exampleEngine) (Some c).
Definition gathered : Tick exampleEngine :=
  Discovered (E := exampleEngine) None.
Definition step : Tick exampleEngine := Dispatch.
Definition exampleStart (pending : list string) (msgs : list Msg)
  : Config exampleEngine :=
  start (E := exampleEngine) tt pending msgs.

End Negotiator.

(* ================================================================== *)
(** ** peer_connection_channel/webm_saver.go and the [OnTrack] callback *)
(* ================================================================== *)
Module Assembler.

(** A byte as an unsigned number. *)
Definition u8 (b : byte) : Z := Z.of_N (Byte.to_N b).

(** Go's [uint] on the 64-bit targets cgo builds for. *)
Definition uint (z : Z) : Z := z mod 2 ^ 64.

(** [rtp.Packet], the fields this package reads. *)
Record Packet := mkPacket {
  SequenceNumber : Z;
  Timestamp : Z;
  Marker : bool;
  Payload : list byte
}.

(** [codecs.VP8Packet] after [Unmarshal]: the start-of-partition bit and the
    payload behind the payload descriptor. *)
Record VP8Packet := mkVP8 {
  S : Z;
  vp8Payload : list byte
}.

(** [samplebuilder.SampleBuilder]: [Pop] gives the [Data] of the next
    completed sample, or [None] for [nil]. *)
Record SampleBuilder := mkBuilder {
  builder : Type;
  New : Z -> Z -> builder;                (* maxLate, sampleRate *)
  Push : builder -> Packet -> builder;
  Pop : builder -> option (list byte) * builder
}.

(** The decoder and imaging collaborators: vp8_decoder.h ([init_decoder],
    [decode_frame], [copy_frame_to_mat]), libvpx ([vpx_codec_get_frame],
    which walks the list [frames] of images ready after the last decode) and
    gocv. *)
Record Decoder := mkDecoder {
  ctx : Type;
  zeroCtx : ctx;
  image : Type;
  d_w : image -> Z;
  d_h : image -> Z;
  init_decoder : ctx -> Z -> Z -> ctx * Z;
  decode_frame : ctx -> list byte -> ctx * Z;
  frames : ctx -> list image;
  Mat : Type;
  NewMatWithSize : Z -> Z -> Mat;         (* rows, cols *)
  Empty : Mat -> bool;
  DataPtrUint8 : Mat -> error;
  copy_frame_to_mat : image -> Mat -> Z -> Z -> Mat;
  IMWrite : Z -> Mat -> bool              (* frame number of the file name *)
}.

(** The header test shared by both ingestion paths. *)
Definition lowBit (b : byte) : Z := Z.land (u8 b) 1.

(** The number that four bytes spell in little-endian order. *)
Definition le32 (b0 b1 b2 b3 : byte) : Z :=
  u8 b0 + u8 b1 * 2 ^ 8 + u8 b2 * 2 ^ 16 + u8 b3 * 2 ^ 24.

(** The precondition of the header read: the sample is not empty, and a
    keyframe sample has at least ten bytes. *)
Definition headerReadable (data : list byte) : bool :=
  match data with
  | [] => false
  | b0 :: _ => if Z.testbit (u8 b0) 0 then true
               else (10 <=? List.length data)%nat
  end.


Definition mapOutcome {A : Type} (f : A -> A) (o : Outcome A) : Outcome A :=
  match o with
  | Ok a => Ok (f a)
  | Panic a => Panic (f a)
  end.

Section Paths.
Variable B : SampleBuilder.
Variable D : Decoder.
Variable Unmarshal : list byte -> option VP8Packet.

Inductive Event :=
| InitDecoder (width height : Z)
| DecodeFrame (data : list byte)
| Send (m : Mat D)                        (* s.imgChan <- goImg *)
| WriteJPEG (n : Z) (m : Mat D)           (* gocv.IMWrite("frame_n.jpg", m) *)
| LogError (msg : string).

(** *** The buffered path: [WebmSaver] *)

Record WebmSaver := mkSaver {
  vp8Builder : builder B;
  codecCtx : ctx D;
  codecCreated : bool;
  events : list Event
}.

Definition newWebmSaver : WebmSaver :=
  {| vp8Builder := New B 200 90000;
     codecCtx := zeroCtx D;
     codecCreated := false;
     events := [] |}.

Definition record (e : Event) (s : WebmSaver) : WebmSaver :=
  {| vp8Builder := vp8Builder s;
     codecCtx := codecCtx s;
     codecCreated := codecCreated s;
     events := events s ++ [e] |}.

Definition InitWriter (s : WebmSaver) (width height : Z) : WebmSaver :=
  let (c, errCode) := init_decoder D (codecCtx s) width height in
  let ev := events s ++ [InitDecoder width height] in
  {| vp8Builder := vp8Builder s;
     codecCtx := c;
     codecCreated := true;
     events := if errCode =? 0 then ev
               else ev ++ [LogError "failed to initialize decoder"] |}.

(** [sample.Data[i]]; [None] is the index-out-of-range panic. *)
Definition at_ (data : list byte) (i : nat) : option Z :=
  option_map u8 (nth_error data i).

Definition videoKeyframe (b0 : Z) : bool := Z.land b0 1 =? 0.

Definition rawGeometry (d6 d7 d8 d9 : Z) : Z :=
  Z.lor (Z.lor (Z.lor (uint d6) (uint (Z.shiftl (uint d7) 8)))
           (uint (Z.shiftl (uint d8) 16)))
    (uint (Z.shiftl (uint d9) 24)).

Definition widthOf (raw : Z) : Z := Z.land raw 16383.
Definition heightOf (raw : Z) : Z := Z.land (Z.shiftr raw 16) 16383.

(** The header part of the loop body, up to the decoder call. *)
Definition readHeader (s : WebmSaver) (data : list byte) : Outcome WebmSaver :=
  match at_ data 0 with
  | None => Panic s
  | Some b0 =>
      if videoKeyframe b0 then
        match at_ data 6, at_ data 7, at_ data 8, at_ data 9 with
        | Some d6, Some d7, Some d8, Some d9 =>
            let raw := rawGeometry d6 d7 d8 d9 in
            let width := widthOf raw in
            let height := heightOf raw in
            if codecCreated s then Ok s else Ok (InitWriter s width height)
        | _, _, _, _ => Panic s
        end
      else Ok s
  end.

(** The rest of the loop body: decode, fetch one image, convert, send. *)
Definition decodeSample (s : WebmSaver) (data : list byte) : WebmSaver :=
  let (c, codecError) := decode_frame D (codecCtx s) data in
  let s := {| vp8Builder := vp8Builder s;
              codecCtx := c;
              codecCreated := codecCreated s;
              events := events s ++ [DecodeFrame data] |} in
  if negb (codecError =? 0) then record (LogError "Decode error") s
  else
    match frames D c with
    | [] => record (LogError "Failed to get decoded frame") s
    | img :: _ =>
        let actualWidth := d_w D img in
        let actualHeight := d_h D img in
        let goImg := NewMatWithSize D actualHeight actualWidth in
        if Empty D goImg then record (LogError "Failed to create Mat") s
        else
          match DataPtrUint8 D goImg with
          | Some _ => record (LogError "Failed to get Mat data pointer") s
          | None =>
              record
                (Send (copy_frame_to_mat D img goImg actualWidth actualHeight))
                s
          end
    end.

(** One turn of the [for] loop of [PushVP8] on a popped sample. *)
Definition handleSample (s : WebmSaver) (data : list byte)
  : Outcome WebmSaver :=
  match readHeader s data with
  | Panic s' => Panic s'
  | Ok s' => Ok (decodeSample s' data)
  end.

Definition withBuilder (b : builder B) (s : WebmSaver) : WebmSaver :=
  {| vp8Builder := b;
     codecCtx := codecCtx s;
     codecCreated := codecCreated s;
     events := events s |}.

(** The [for] loop of [PushVP8]; [None] when [fuel] turns do not reach the
    [nil] sample. *)
Fixpoint popLoop (fuel : nat) (s : WebmSaver) : option (Outcome WebmSaver) :=
  match fuel with
  | O => None
  | Datatypes.S fuel' =>
      let (sample, b) := Pop B (vp8Builder s) in
      let s := withBuilder b s in
      match sample with
      | None => Some (Ok s)
      | Some data =>
          match handleSample s data with
          | Panic s' => Some (Panic s')
          | Ok s' => popLoop fuel' s'
          end
      end
  end.

Definition PushVP8 (fuel : nat) (s : WebmSaver) (rtpPacket : Packet)
  : option (Outcome WebmSaver) :=
  popLoop fuel (withBuilder (Push B (vp8Builder s) rtpPacket) s).

(** [PushVP8] on every packet of a stream, as the track reader calls it. *)
Fixpoint pushAll (fuel : nat) (s : WebmSaver) (packets : list Packet)
  : option (Outcome WebmSaver) :=
  match packets with
  | [] => Some (Ok s)
  | p :: rest =>
      match PushVP8 fuel s p with
      | None => None
      | Some (Panic s') => Some (Panic s')
      | Some (Ok s') => pushAll fuel s' rest
      end
  end.

(** The loop body over a list of samples, in order. *)
Fixpoint handleSamples (s : WebmSaver) (samples : list (list byte))
  : Outcome WebmSaver :=
  match samples with
  | [] => Ok s
  | data :: rest =>
      match handleSample s data with
      | Panic s' => Panic s'
      | Ok s' => handleSamples s' rest
      end
  end.

(** What the sample builder hands out: [Drains b l b'] when repeated [Pop]
    from [b] gives the samples [l] and then [nil]; [Feeds b ps l b'] when
    pushing [ps] one at a time, draining after each, gives [l] in all. *)
Inductive Drains : builder B -> list (list byte) -> builder B -> Prop :=
| Drains_nil b b' :
    Pop B b = (None, b') -> Drains b [] b'
| Drains_cons b data b1 l b' :
    Pop B b = (Some data, b1) -> Drains b1 l b' -> Drains b (data :: l) b'.

Inductive Feeds : builder B -> list Packet -> list (list byte) -> builder B -> Prop :=
| Feeds_nil b : Feeds b [] [] b
| Feeds_cons b p ps l1 b1 l2 b2 :
    Drains (Push B b p) l1 b1 -> Feeds b1 ps l2 b2 ->
    Feeds b (p :: ps) (l1 ++ l2) b2.

(** [Drains] and [Feeds] as computations, with [fuel] pops at most per
    push. *)
Fixpoint drain (fuel : nat) (b : builder B)
  : option (list (list byte) * builder B) :=
  match fuel with
  | O => None
  | Datatypes.S fuel' =>
      match Pop B b with
      | (None, b') => Some ([], b')
      | (Some data, b1) =>
          match drain fuel' b1 with
          | Some (l, b') => Some (data :: l, b')
          | None => None
          end
      end
  end.

Fixpoint feed (fuel : nat) (b : builder B) (packets : list Packet)
  : option (list (list byte) * builder B) :=
  match packets with
  | [] => Some ([], b)
  | p :: rest =>
      match drain fuel (Push B b p) with
      | None => None
      | Some (l1, b1) =>
          match feed fuel b1 rest with
          | Some (l2, b2) => Some (l1 ++ l2, b2)
          | None => None
          end
      end
  end.

(** *** The direct path: the [OnTrack] callback of [Spin] *)

(** The locals of the callback; [currentFrame = None] is the [nil] slice. *)
Record Track := mkTrack {
  codec : ctx D;
  currentFrame : option (list byte);
  seenKeyFrame : bool;
  frameCount : Z;
  tevents : list Event
}.

(** [append(currentFrame, payload...)]. *)
Definition appendFrame (cur : option (list byte)) (payload : list byte)
  : option (list byte) :=
  match cur, payload with
  | None, [] => None
  | None, _ => Some payload
  | Some l, _ => Some (l ++ payload)
  end.

Definition len (cur : option (list byte)) : Z :=
  match cur with
  | None => 0
  | Some l => Z.of_nat (List.length l)
  end.

(** The [vpx_codec_get_frame] loop: convert and save every ready image. *)
Fixpoint saveFrames (imgs : list (image D)) (frameCount : Z)
  (ev : list Event) : Z * list Event :=
  match imgs with
  | [] => (frameCount, ev)
  | img :: rest =>
      let goImg := NewMatWithSize D (d_h D img) (d_w D img) in
      if Empty D goImg then
        saveFrames rest frameCount (ev ++ [LogError "Failed to create Mat"])
      else
        match DataPtrUint8 D goImg with
        | Some _ =>
            saveFrames rest frameCount
              (ev ++ [LogError "Failed to get Mat data pointer"])
        | None =>
            let m := copy_frame_to_mat D img goImg (d_w D img) (d_h D img) in
            let ev := ev ++ [WriteJPEG frameCount m] in
            let ev := if IMWrite D frameCount m then ev
                      else ev ++ [LogError "Failed to write image"] in
            saveFrames rest (frameCount + 1) ev
        end
  end.

(** The read loop; [packets] are those [ReadRTP] returns before its error. *)
Fixpoint readLoop (packets : list Packet) (t : Track) : Outcome Track :=
  match packets with
  | [] =>
      Ok {| codec := codec t; currentFrame := currentFrame t;
            seenKeyFrame := seenKeyFrame t; frameCount := frameCount t;
            tevents := tevents t ++ [LogError "Error reading RTP"] |}
  | packet :: rest =>
      match Unmarshal (Payload packet) with
      | None => Panic t
      | Some vp8Packet =>
          match nth_error (vp8Payload vp8Packet) 0 with
          | None => Panic t
          | Some b0 =>
              let isKeyFrame := lowBit b0 in
              if negb (seenKeyFrame t) && (isKeyFrame =? 1) then readLoop rest t
              else if match currentFrame t with None => true | Some _ => false end
                      && negb (S vp8Packet =? 1) then readLoop rest t
              else
                let cur := appendFrame (currentFrame t) (vp8Payload vp8Packet) in
                let t := {| codec := codec t; currentFrame := cur;
                            seenKeyFrame := true; frameCount := frameCount t;
                            tevents := tevents t |} in
                if negb (Marker packet) then readLoop rest t
                else if len cur =? 0 then readLoop rest t
                else
                  let data := match cur with Some l => l | None => [] end in
                  let (c, codecError) := decode_frame D (codec t) data in
                  let ev := tevents t ++ [DecodeFrame data] in
                  if negb (codecError =? 0) then
                    readLoop rest
                      {| codec := c; currentFrame := cur;
                         seenKeyFrame := true; frameCount := frameCount t;
                         tevents := ev ++ [LogError "Failed to decode frame"] |}
                  else
                    let (n, ev) := saveFrames (frames D c) (frameCount t) ev in
                    readLoop rest
                      {| codec := c; currentFrame := None;
                         seenKeyFrame := true; frameCount := n;
                         tevents := ev |}
          end
      end
  end.

Definition OnTrack (packets : list Packet) : Outcome Track :=
  let (c, rc) := init_decoder D (zeroCtx D) 640 480 in
  let t := {| codec := c; currentFrame := Some []; seenKeyFrame := false;
              frameCount := 0; tevents := [InitDecoder 640 480] |} in
  if negb (rc =? 0) then
    Ok {| codec := c; currentFrame := Some []; seenKeyFrame := false;
          frameCount := 0;
          tevents := [InitDecoder 640 480;
                      LogError "Failed to initialize decoder"] |}
  else readLoop packets t.

(** Projections of a trace. *)
Fixpoint decodes (ev : list Event) : list (list byte) :=
  match ev with
  | [] => []
  | DecodeFrame d :: r => d :: decodes r
  | _ :: r => decodes r
  end.

Fixpoint inits (ev : list Event) : list (Z * Z) :=
  match ev with
  | [] => []
  | InitDecoder w h :: r => (w, h) :: inits r
  | _ :: r => inits r
  end.

Fixpoint sent (ev : list Event) : list (Mat D) :=
  match ev with
  | [] => []
  | Send m :: r => m :: sent r
  | _ :: r => sent r
  end.

(** The matrices passed to [gocv.IMWrite], in call order. *)
Fixpoint saved (ev : list Event) : list (Mat D) :=
  match ev with
  | [] => []
  | WriteJPEG _ m :: r => m :: saved r
  | _ :: r => saved r
  end.

Fixpoint errors (ev : list Event) : list string :=
  match ev with
  | [] => []
  | LogError m :: r => m :: errors r
  | _ :: r => errors r
  end.

(** The colorspace conversion of one image into a fresh matrix. *)
Definition convert (img : image D) : Mat D :=
  copy_frame_to_mat D img (NewMatWithSize D (d_h D img) (d_w D img))
    (d_w D img) (d_h D img).

(** A matrix for [img] can be had and addressed. *)
Definition matOk (img : image D) : bool :=
  negb (Empty D (NewMatWithSize D (d_h D img) (d_w D img)))
  && match DataPtrUint8 D (NewMatWithSize D (d_h D img) (d_w D img)) with
     | None => true
     | Some _ => false
     end.

(** *** Streams of whole frames *)



(** A packet that depacketizes to a payload that is not empty. *)
Definition packetOk (p : Packet) : bool :=
  match Unmarshal (Payload p) with
  | Some v => match vp8Payload v with [] => false | _ :: _ => true end
  | None => false
  end.





(** The frame numbers passed to [gocv.IMWrite], in call order. *)
Fixpoint jpegNumbers (ev : list Event) : list Z :=
  match ev with
  | [] => []
  | WriteJPEG n _ :: r => n :: jpegNumbers r
  | _ :: r => jpegNumbers r
  end.

(** The frame numbers of the files that were written: the calls of
    [gocv.IMWrite] that returned [true]. *)
Fixpoint jpegFiles (ev : list Event) : list Z :=
  match ev with
  | [] => []
  | WriteJPEG n m :: r =>
      if IMWrite D n m then n :: jpegFiles r else jpegFiles r
  | _ :: r => jpegFiles r
  end.

(** A packet that depacketizes and whose first payload byte has the low
    bit set: not the start of a keyframe. *)
Definition notKey (p : Packet) : bool :=
  match Unmarshal (Payload p) with
  | Some v =>
      match vp8Payload v with
      | [] => false
      | b0 :: _ => lowBit b0 =? 1
      end
  | None => false
  end.

End Paths.

(** A sample that is not empty and whose first byte has the low bit set. *)
Definition isInterframe (data : list byte) : bool :=
  match data with
  | [] => false
  | b0 :: _ => Z.testbit (u8 b0) 0
  end.

(** [n], [n + 1], ..., [k] numbers in all. *)
Fixpoint countFrom (n : Z) (k : nat) : list Z :=
  match k with
  | O => []
  | Datatypes.S k' => n :: countFrom (n + 1) k'
  end.

(** The packets that carry the marker bit. *)
Definition marked (packets : list Packet) : list Packet :=
  filter Marker packets.

Arguments jpegNumbers {D} _.
Arguments jpegFiles {D} _.
Arguments vp8Builder {B D} _.
Arguments codecCtx {B D} _.
Arguments codecCreated {B D} _.
Arguments events {B D} _.
Arguments mkSaver {B D} _ _ _ _.
Arguments record {B D} _ _.
Arguments InitWriter {B D} _ _ _.
Arguments readHeader {B D} _ _.
Arguments decodeSample {B D} _ _.
Arguments handleSample {B D} _ _.
Arguments handleSamples {B D} _ _.
Arguments withBuilder {B D} _ _.
Arguments popLoop {B D} _ _.
Arguments PushVP8 {B D} _ _ _.
Arguments pushAll {B D} _ _ _.
Arguments Drains {B} _ _ _.
Arguments Feeds {B} _ _ _ _.
Arguments drain {B} _ _.
Arguments feed {B} _ _ _.
Arguments codec {D} _.
Arguments currentFrame {D} _.
Arguments seenKeyFrame {D} _.
Arguments frameCount {D} _.
Arguments tevents {D} _.
Arguments mkTrack {D} _ _ _ _ _.
Arguments saveFrames {D} _ _ _.
Arguments readLoop {D} _ _ _.
Arguments InitDecoder {D} _ _.
Arguments DecodeFrame {D} _.
Arguments Send {D} _.
Arguments WriteJPEG {D} _ _.
Arguments LogError {D} _.
Arguments decodes {D} _.
Arguments inits {D} _.
Arguments sent {D} _.
Arguments saved {D} _.
Arguments errors {D} _.
Arguments convert {D} _.
Arguments matOk {D} _.

(** A sample builder for examples: packets arrive in order, the marker
    closes a sample. *)
Definition exampleBuilder : SampleBuilder :=
  {| builder := list byte * list (list byte);
     New := fun _ _ => ([], []);
     Push := fun b p =>
       let cur := fst b ++ Payload p in
       if Marker p then ([], snd b ++ [cur]) else (cur, snd b);
     Pop := fun b =>
       match snd b with
       | [] => (None, b)
       | data :: rest => (Some data, (fst b, rest))
       end |}.

(** A decoder for examples.  Its context counts the submissions; [failing]
    tells which of them fail and [ready] which images wait after each. *)
Definition exampleDecoder (failing : nat -> bool) (ready : nat -> list nat)
  : Decoder :=
  {| ctx := nat;
     zeroCtx := O;
     image := nat;
     d_w := fun _ => 640;
     d_h := fun _ => 480;
     init_decoder := fun c _ _ => (c, 0);
     decode_frame := fun c _ =>
       (Datatypes.S c, if failing c then 1 else 0);
     frames := fun c => ready c;
     Mat := Z * Z * option nat;
     NewMatWithSize := fun rows cols => (rows, cols, None);
     Empty := fun m => (fst (fst m) =? 0) || (snd (fst m) =? 0);
     DataPtrUint8 := fun _ => None;
     copy_frame_to_mat := fun img m _ _ => (fst m, Some img);
     IMWrite := fun _ _ => true |}.


(** The example decoder with a disk that loses the files numbered [lost]. *)
Definition lossyDecoder (ready : nat -> list nat) (lost : Z -> bool)
  : Decoder :=
  {| ctx := nat;
     zeroCtx := O;
     image := nat;
     d_w := fun _ => 640;
     d_h := fun _ => 480;
     init_decoder := fun c _ _ => (c, 0);
     decode_frame := fun c _ => (Datatypes.S c, 0);
     frames := fun c => ready c;
     Mat := Z * Z * option nat;
     NewMatWithSize := fun rows cols => (rows, cols, None);
     Empty := fun m => (fst (fst m) =? 0) || (snd (fst m) =? 0);
     DataPtrUint8 := fun _ => None;
     copy_frame_to_mat := fun img m _ _ => (fst m, Some img);
     IMWrite := fun n _ => negb (lost n) |}.

(** Payloads for examples travel without a payload descriptor. *)
Definition exampleUnmarshal (payload : list byte) : option VP8Packet :=
  Some {| S := 1; vp8Payload := payload |}.

Definition key640x480 : list byte :=
  [x10; x02; x00; x9d; x01; x2a; x80; x02; xe0; x01; x00].
Definition interframe : list byte := [x11; x02; x00; x07].

Definition whole (seq : Z) (payload : list byte) : Packet :=
  {| SequenceNumber := seq; Timestamp := 0; Marker := true;
     Payload := payload |}.

Definition part (seq : Z) (payload : list byte) : Packet :=
  {| SequenceNumber := seq; Timestamp := 0; Marker := false;
     Payload := payload |}.

(** The same with the RTP timestamp of the frame: 3000 ticks of the 90 kHz
    clock is one frame at 30 frames a second. *)
Definition wholeAt (seq ts : Z) (payload : list byte) : Packet :=
  {| SequenceNumber := seq; Timestamp := ts; Marker := true;
     Payload := payload |}.


End Assembler.

(* ================================================================== *)
(** ** peer_connection_channel.go: setting up the media engine *)
(* ================================================================== *)
Module Setup.

(** [webrtc.RTPCodecParameters], the fields that are set. *)
Record CodecParameters := mkCodec {
  MimeType : string;
  ClockRate : Z;
  Channels : Z;
  PayloadType : Z
}.

(** [webrtc.MediaEngine] with [webrtc.NewAPI] and [NewPeerConnection]; the
    peer connection is made with the STUN URLs given. *)
Record Media := mkMedia {
  media : Type;
  conn : Type;
  RegisterCodec : media -> CodecParameters -> media * error;
  RegisterDefaultCodecs : media -> media * error;
  RegisterHeaderExtension : media -> string -> media * error;
  NewPeerConnection : media -> list string -> conn * error
}.

Inductive Call :=
| CRegisterCodec (c : CodecParameters)
| CRegisterDefaultCodecs
| CRegisterHeaderExtension (uri : string)
| CNewPeerConnection (urls : list string).

Section Engine.
Variable M : Media.

(** [registerHeaderExtensionURI]: the state reached and the calls made. *)
Fixpoint registerHeaderExtensionURI (m : media M) (uris : list string)
  (calls : list Call) : Outcome (media M * list Call) :=
  match uris with
  | [] => Ok (m, calls)
  | uri :: rest =>
      let calls := calls ++ [CRegisterHeaderExtension uri] in
      match RegisterHeaderExtension M m uri with
      | (m', Some _) => Panic (m', calls)
      | (m', None) => registerHeaderExtensionURI m' rest calls
      end
  end.

Definition registerCodec (c : CodecParameters)
  (st : media M * list Call) : Outcome (media M * list Call) :=
  let calls := snd st ++ [CRegisterCodec c] in
  match RegisterCodec M (fst st) c with
  | (m', Some _) => Panic (m', calls)
  | (m', None) => Ok (m', calls)
  end.

Definition VP8 : CodecParameters :=
  {| MimeType := "video/VP8"; ClockRate := 90000; Channels := 0;
     PayloadType := 96 |}.
Definition VP9 : CodecParameters :=
  {| MimeType := "video/VP9"; ClockRate := 90000; Channels := 0;
     PayloadType := 98 |}.
Definition H264 : CodecParameters :=
  {| MimeType := "video/H264"; ClockRate := 90000; Channels := 0;
     PayloadType := 102 |}.

Definition headerExtensions : list string :=
  ["urn:ietf:params:rtp-hdrext:toffset";
   "http://www.webrtc.org/experiments/rtp-hdrext/abs-send-time";
   "urn:3gpp:video-orientation";
   "http://www.ietf.org/id/draft-holmer-rmcat-transport-wide-cc-extensions-01";
   "http://www.webrtc.org/experiments/rtp-hdrext/playout-delay";
   "http://www.webrtc.org/experiments/rtp-hdrext/video-content-type";
   "http://www.webrtc.org/experiments/rtp-hdrext/video-timing";
   "http://www.webrtc.org/experiments/rtp-hdrext/color-space"].

Definition iceServers : list string := ["stun:stun.l.google.com:19302"].

(** [InitPeerConnectionChannel] up to the peer connection: the calls made,
    and the connection when none of them failed. *)
Definition InitPeerConnectionChannel (m : media M)
  : Outcome (option (conn M) * list Call) :=
  match registerCodec VP8 (m, []) with
  | Panic st => Panic (None, snd st)
  | Ok st =>
  match registerCodec VP9 st with
  | Panic st => Panic (None, snd st)
  | Ok st =>
  match registerCodec H264 st with
  | Panic st => Panic (None, snd st)
  | Ok st =>
  let calls := snd st ++ [CRegisterDefaultCodecs] in
  match RegisterDefaultCodecs M (fst st) with
  | (_, Some _) => Panic (None, calls)
  | (m', None) =>
  match registerHeaderExtensionURI m' headerExtensions calls with
  | Panic st => Panic (None, snd st)
  | Ok st =>
  let calls := snd st ++ [CNewPeerConnection iceServers] in
  match NewPeerConnection M (fst st) iceServers with
  | (_, Some _) => Panic (None, calls)
  | (peerConnection, None) => Ok (Some peerConnection, calls)
  end end end end end end.

(** The calls of a setup in which nothing fails. *)
Definition setupCalls : list Call :=
  [CRegisterCodec VP8; CRegisterCodec VP9; CRegisterCodec H264;
   CRegisterDefaultCodecs]
    ++ map CRegisterHeaderExtension headerExtensions
    ++ [CNewPeerConnection iceServers].

(** What the engine answers to one call: the engine after it and the error
    returned. *)
Definition perform (m : media M) (c : Call) : media M * error :=
  match c with
  | CRegisterCodec p => RegisterCodec M m p
  | CRegisterDefaultCodecs => RegisterDefaultCodecs M m
  | CRegisterHeaderExtension uri => RegisterHeaderExtension M m uri
  | CNewPeerConnection urls => (m, snd (NewPeerConnection M m urls))
  end.

(** The engine after the calls [cs], made one after the other. *)
Definition stateAfter (m : media M) (cs : list Call) : media M :=
  fold_left (fun m c => fst (perform m c)) cs m.

(** The [i]-th call of [cs], made after the calls ahead of it, returns an
    error. *)
Definition failsAt (m : media M) (cs : list Call) (i : nat) : bool :=
  match nth_error cs i with
  | Some c =>
      match snd (perform (stateAfter m (firstn i cs)) c) with
      | Some _ => true
      | None => false
      end
  | None => false
  end.

(** The index of the first call of [cs] that returns an error. *)
Fixpoint firstFailure (m : media M) (cs : list Call) : option nat :=
  match cs with
  | [] => None
  | c :: rest =>
      match perform m c with
      | (_, Some _) => Some O
      | (m', None) => option_map Datatypes.S (firstFailure m' rest)
      end
  end.

End Engine.

Arguments registerHeaderExtensionURI {M} _ _ _.
Arguments perform {M} _ _.
Arguments stateAfter {M} _ _.
Arguments failsAt {M} _ _ _.
Arguments firstFailure {M} _ _.

(** A media engine for examples: it counts the registrations and rejects
    the header extension [rejected]. *)
Definition exampleMedia (rejected : string) : Media :=
  {| media := nat;
     conn := nat;
     RegisterCodec := fun m _ => (Datatypes.S m, None);
     RegisterDefaultCodecs := fun m => (Datatypes.S m, None);
     RegisterHeaderExtension := fun m uri =>
       if String.eqb uri rejected then (m, Some "rejected")
       else (Datatypes.S m, None);
     NewPeerConnection := fun m _ => (m, None) |}.

End Setup.

(* ================================================================== *)
(** * Properties *)
(* ================================================================== *)

(** ** [strings.Index] and [strings.Replace] *)
Module StringsFacts.
Import Strings.

Lemma HasPrefix_app (p r : string) : HasPrefix (p ++ r)%string p = true.
Proof.
  induction p as [|c p IH]; simpl.
  - destruct r; reflexivity.
  - rewrite Ascii.eqb_refl. exact IH.
Qed.

Lemma HasPrefix_inv (p s : string) :
  HasPrefix s p = true -> exists r, s = (p ++ r)%string.
Proof.
  revert s. induction p as [|c p IH]; intros s H.
  - exists s. reflexivity.
  - destruct s as [|d s]; simpl in H; [discriminate|].
    apply andb_true_iff in H as [Hc Hp].
    apply Ascii.eqb_eq in Hc. subst d.
    destruct (IH _ Hp) as [r ->]. exists r. reflexivity.
Qed.

Lemma Index_eq (s sub : string) :
  Index s sub =
    if HasPrefix s sub then 0
    else match s with
         | EmptyString => -1
         | String _ s' => if Index s' sub <? 0 then -1 else Index s' sub + 1
         end.
Proof. destruct s; reflexivity. Qed.

Lemma Index_lower (s sub : string) : -1 <= Index s sub.
Proof.
  induction s as [|c s IH]; rewrite Index_eq.
  - destruct (HasPrefix "" sub); lia.
  - destruct (HasPrefix (String c s) sub); [lia|].
    destruct (Index s sub <? 0) eqn:E; [lia|].
    apply Z.ltb_ge in E. lia.
Qed.

Lemma OccursAt_0 (sub s : string) :
  OccursAt sub s 0 -> HasPrefix s sub = true.
Proof.
  intros (pre & post & -> & Hl).
  destruct pre; [|discriminate]. simpl. apply HasPrefix_app.
Qed.

Lemma OccursAt_S (sub : string) c s i :
  OccursAt sub (String c s) (Datatypes.S i) -> OccursAt sub s i.
Proof.
  intros (pre & post & Heq & Hl).
  destruct pre as [|d pre]; [discriminate|].
  simpl in Heq, Hl. injection Heq as _ Heq. injection Hl as Hl.
  exists pre, post. split; assumption.
Qed.

Lemma HasPrefix_occurs (sub s : string) :
  HasPrefix s sub = true -> OccursAt sub s 0.
Proof.
  intros H. apply HasPrefix_inv in H as [r H].
  exists ""%string, r. split; [exact H|reflexivity].
Qed.

(** A failed search: the pattern occurs nowhere. *)
Lemma Index_absent (s sub : string) :
  Index s sub < 0 -> forall i, ~ OccursAt sub s i.
Proof.
  induction s as [|c s IH]; rewrite Index_eq; intros H i Hocc.
  - destruct (HasPrefix "" sub) eqn:E; [lia|].
    destruct Hocc as (pre & post & Heq & _).
    destruct pre; [|discriminate].
    destruct sub; [discriminate E|discriminate Heq].
  - destruct (HasPrefix (String c s) sub) eqn:E; [lia|].
    destruct i as [|i].
    + apply OccursAt_0 in Hocc. congruence.
    + apply OccursAt_S in Hocc.
      destruct (Index s sub <? 0) eqn:E'.
      * apply Z.ltb_lt in E'. exact (IH E' i Hocc).
      * apply Z.ltb_ge in E'. pose proof (Index_lower s sub). lia.
Qed.

(** A successful search: the offset of the leftmost occurrence. *)
Lemma Index_found (s sub : string) :
  0 <= Index s sub ->
  OccursAt sub s (Z.to_nat (Index s sub))
  /\ forall i, OccursAt sub s i -> (Z.to_nat (Index s sub) <= i)%nat.
Proof.
  induction s as [|c s IH]; rewrite Index_eq; intros H.
  - destruct (HasPrefix "" sub) eqn:E; [|lia].
    split; [|intros; simpl; lia].
    now apply HasPrefix_occurs.
  - destruct (HasPrefix (String c s) sub) eqn:E.
    + split; [|intros; simpl; lia].
      now apply HasPrefix_occurs.
    + destruct (Index s sub <? 0) eqn:E'; [lia|].
      apply Z.ltb_ge in E'. destruct (IH E') as [(pre & post & Heq & Hl) Hmin].
      replace (Z.to_nat (Index s sub + 1))
        with (Datatypes.S (Z.to_nat (Index s sub))) by lia.
      split.
      * exists (String c pre), post. simpl.
        split; [now rewrite <- Heq|now rewrite Hl].
      * intros [|i] Hocc.
        -- apply OccursAt_0 in Hocc. congruence.
        -- apply OccursAt_S in Hocc. apply Hmin in Hocc. lia.
Qed.

Lemma append_length (a b : string) :
  String.length (a ++ b) = (String.length a + String.length b)%nat.
Proof. induction a; simpl; congruence. Qed.

Lemma take_app (pre r : string) : take (String.length pre) (pre ++ r) = pre.
Proof. induction pre; simpl; [destruct r; reflexivity|congruence]. Qed.

Lemma drop_app (pre r : string) : drop (String.length pre) (pre ++ r) = r.
Proof. induction pre; simpl; [destruct r; reflexivity|assumption]. Qed.

Lemma append_assoc (a b c : string) : ((a ++ b) ++ c = a ++ b ++ c)%string.
Proof. induction a; simpl; congruence. Qed.

(** [Replace] with count one rewrites the leftmost occurrence only. *)
Lemma Replace_first (old new pre post : string) :
  old <> new ->
  (forall i, OccursAt old (pre ++ old ++ post) i -> (String.length pre <= i)%nat) ->
  Replace (pre ++ old ++ post) old new 1 = (pre ++ new ++ post)%string.
Proof.
  intros Hne Hmin. simpl.
  destruct (String.eqb_spec old new) as [->|_]; [congruence|].
  set (s := (pre ++ old ++ post)%string) in *.
  assert (Hocc : OccursAt old s (String.length pre))
    by (exists pre, post; split; reflexivity).
  destruct (Index s old <? 0) eqn:E.
  - apply Z.ltb_lt in E. exfalso. exact (Index_absent _ _ E _ Hocc).
  - apply Z.ltb_ge in E. destruct (Index_found _ _ E) as [Hat Hleft].
    assert (Hj : Z.to_nat (Index s old) = String.length pre).
    { apply Nat.le_antisymm; [apply Hleft, Hocc|apply Hmin, Hat]. }
    rewrite Hj. unfold s.
    rewrite take_app.
    replace (pre ++ old ++ post)%string with ((pre ++ old) ++ post)%string
      by apply append_assoc.
    rewrite <- append_length, drop_app. reflexivity.
Qed.

Lemma Replace_absent (s old new : string) (n : nat) :
  (forall i, ~ OccursAt old s i) -> Replace s old new n = s.
Proof.
  intros Habs. destruct n as [|n]; simpl; [reflexivity|].
  destruct (String.eqb old new); [reflexivity|].
  destruct (Index s old <? 0) eqn:E; [reflexivity|].
  apply Z.ltb_ge in E. destruct (Index_found _ _ E) as [Hat _].
  exfalso. exact (Habs _ Hat).
Qed.

End StringsFacts.

(** ** The signaling session *)
Module SignalingFacts.
Import Strings StringsFacts Signaling.

Section Session.
Variable J : Json.
Variable negotiate : SessionDescription -> option SessionDescription.

Lemma written_app (a b : list Effect) : written (a ++ b) = written a ++ written b.
Proof.
  induction a as [|e a IH]; simpl; [reflexivity|].
  destruct e; simpl; congruence.
Qed.

Lemma forwarded_app (a b : list Effect) :
  forwarded (a ++ b) = forwarded a ++ forwarded b.
Proof.
  induction a as [|e a IH]; simpl; [reflexivity|].
  destruct e; simpl; congruence.
Qed.

Lemma written_relay (recv : list string) : written (relay J recv) = [].
Proof.
  induction recv as [|m recv IH]; simpl; [reflexivity|].
  destruct (unmarshalCandidate J m); simpl; exact IH.
Qed.

Lemma relay_app (a b : list string) : relay J (a ++ b) = relay J a ++ relay J b.
Proof.
  induction a as [|m a IH]; simpl; [reflexivity|].
  destruct (unmarshalCandidate J m); simpl; congruence.
Qed.

(** C2. Every answer that [Spin] transmits is the answer received on the
    reply channel with the first occurrence of "m=video 0" in its SDP body
    replaced by "m=video 9": the type is kept, a body without the pattern is
    kept, and a body [pre ++ "m=video 0" ++ post] whose leftmost occurrence
    starts after [pre] becomes [pre ++ "m=video 9" ++ post], so [pre], [post]
    and any later occurrence inside [post] stay as they were. *)
Theorem C2_answer_first_video_port_rewritten
  (sid nameIn cfgMessage recvRaw : string) (recv : list string)
  (sdp answer : SessionDescription) :
  marshalActions J (composeActions sid nameIn) = Some cfgMessage ->
  unmarshalSD J recvRaw = Some sdp ->
  negotiate sdp = Some answer ->
  written (fst (Spin J negotiate true sid nameIn (recvRaw :: recv)))
    = [cfgMessage; answerPayload J answer]
  /\ sdType (patchAnswer answer) = sdType answer
  /\ ((forall i, ~ OccursAt "m=video 0" (SDP answer) i) ->
      SDP (patchAnswer answer) = SDP answer)
  /\ (forall pre post : string,
        SDP answer = (pre ++ "m=video 0" ++ post)%string ->
        (forall i, OccursAt "m=video 0" (SDP answer) i ->
                   (String.length pre <= i)%nat) ->
        SDP (patchAnswer answer) = (pre ++ "m=video 9" ++ post)%string).
Proof.
  intros Hcfg Hsdp Hneg. repeat split.
  - unfold Spin, answerPayload. cbn [negb]. rewrite Hcfg, Hsdp, Hneg.
    cbn [fst]. change (written ([WriteMessage cfgMessage; SendSDP sdp] ++ ?x))
      with (cfgMessage :: written x).
    rewrite written_app, written_relay, app_nil_r.
    destruct (marshalSD J (patchAnswer answer)); reflexivity.
  - intros Habs. unfold patchAnswer. cbn [SDP].
    now apply Replace_absent.
  - intros pre post Heq Hleft. unfold patchAnswer. cbn [SDP].
    rewrite Heq in *. apply Replace_first; [discriminate|exact Hleft].
Qed.

(** C6. While the offer is awaited a message that does not decode ends the
    session: [Spin] returns and nothing has been forwarded to the
    negotiator.  In the relay phase a candidate record that does not decode
    is skipped: the loop goes on, the next well-formed candidate is decoded
    and forwarded, and so are the ones after it. *)
Theorem C6_decode_failure_fatal_then_skipped
  (sid nameIn cfgMessage : string) :
  marshalActions J (composeActions sid nameIn) = Some cfgMessage ->
  (forall recvRaw recv,
      unmarshalSD J recvRaw = None ->
      snd (Spin J negotiate true sid nameIn (recvRaw :: recv)) = Returned
      /\ forwarded (fst (Spin J negotiate true sid nameIn (recvRaw :: recv))) = [])
  /\ (forall offer sdp answer before bad good cj rest,
        unmarshalSD J offer = Some sdp ->
        negotiate sdp = Some answer ->
        unmarshalCandidate J bad = None ->
        unmarshalCandidate J good = Some cj ->
        snd (Spin J negotiate true sid nameIn
               (offer :: before ++ bad :: good :: rest)) = Waiting
        /\ forwarded (fst (Spin J negotiate true sid nameIn
                             (offer :: before ++ bad :: good :: rest)))
           = Offer sdp :: forwarded (relay J before)
               ++ Remote (toInit cj) :: forwarded (relay J rest)).
Proof.
  intros Hcfg. split.
  - intros recvRaw recv Hbad. unfold Spin. cbn [negb]. rewrite Hcfg, Hbad.
    split; reflexivity.
  - intros offer sdp answer before bad good cj rest Hsdp Hneg Hbad Hgood.
    unfold Spin. cbn [negb]. rewrite Hcfg, Hsdp, Hneg. split; [reflexivity|].
    cbn [fst]. rewrite !forwarded_app, relay_app, forwarded_app.
    cbn [relay]. rewrite Hbad, Hgood.
    destruct (marshalSD J (patchAnswer answer)); reflexivity.
Qed.

End Session.

Example Replace_example :
  Replace "v=0 m=video 0 UDP am=video 0" "m=video 0" "m=video 9" 1
  = "v=0 m=video 9 UDP am=video 0".
Proof. reflexivity. Qed.

(** An answer with two occurrences of the pattern; the second one, inside
    "am=video 0", is kept. *)
Lemma C2_witness :
  marshalActions exampleJson (composeActions "s" "cam") = Some "ros_image:/cam"
  /\ unmarshalSD exampleJson "o" = Some (mkSD "offer" "o")
  /\ exampleNegotiate (mkSD "offer" "o")
     = Some (mkSD "answer" "v=0 m=video 0 UDP am=video 0")
  /\ written (fst (Spin exampleJson exampleNegotiate true "s" "cam" ["o"]))
     = ["ros_image:/cam"; "v=0 m=video 9 UDP am=video 0"].
Proof.
  split; [reflexivity|]. split; [reflexivity|]. split; [reflexivity|].
  exact (proj1 (C2_answer_first_video_port_rewritten exampleJson
                  exampleNegotiate "s" "cam" "ros_image:/cam" "o" []
                  (mkSD "offer" "o")
                  (mkSD "answer" "v=0 m=video 0 UDP am=video 0")
                  eq_refl eq_refl eq_refl)).
Defined.

(** A record that does not decode ends the session when it stands for the
    offer and is skipped when it stands for a candidate. *)
Lemma C6_witness :
  marshalActions exampleJson (composeActions "s" "cam") = Some "ros_image:/cam"
  /\ snd (Spin exampleJson exampleNegotiate true "s" "cam" ["bad"; "c1"])
     = Returned
  /\ forwarded (fst (Spin exampleJson exampleNegotiate true "s" "cam"
                       ["o"; "c0"; "bad"; "c1"; "c2"]))
     = [Offer (mkSD "offer" "o");
        Remote (toInit (mkICEJSON "c0" "0" 0 ""));
        Remote (toInit (mkICEJSON "c1" "0" 0 ""));
        Remote (toInit (mkICEJSON "c2" "0" 0 ""))].
Proof.
  pose proof (C6_decode_failure_fatal_then_skipped exampleJson
                exampleNegotiate "s" "cam" "ros_image:/cam" eq_refl)
    as [Hfatal Hskip].
  split; [reflexivity|]. split.
  - exact (proj1 (Hfatal "bad" ["c1"] eq_refl)).
  - exact (proj2 (Hskip "o" (mkSD "offer" "o")
                    (mkSD "answer" "v=0 m=video 0 UDP am=video 0")
                    ["c0"] "bad" "c1" (mkICEJSON "c1" "0" 0 "") ["c2"]
                    eq_refl eq_refl eq_refl eq_refl)).
Defined.

End SignalingFacts.

(** ** The session negotiator *)
Module NegotiatorFacts.
Import Signaling Negotiator.

Section Channel.
Variable E : Engine.
Variable signalCandidate : ICECandidateInit -> error.

Lemma signalled_app (a b : list (Thread * Event)) :
  signalled (a ++ b) = signalled a ++ signalled b.
Proof.
  induction a as [|[w e] a IH]; simpl; [reflexivity|].
  destruct e; simpl; congruence.
Qed.

Lemma eventsOf_app (who : Thread) (a b : list (Thread * Event)) :
  eventsOf who (a ++ b) = eventsOf who a ++ eventsOf who b.
Proof.
  induction a as [|[w e] a IH]; simpl; [reflexivity|].
  destruct w, who; simpl; congruence.
Qed.

Lemma signalled_flushTrace (cs : list (ICECandidate E)) : signalled (flushTrace cs) = map (ToJSON E) cs.
Proof. induction cs; simpl; congruence. Qed.

Lemma eventsOf_flushTrace (cs : list (ICECandidate E)) :
  eventsOf Dispatcher (flushTrace cs) = map (fun c => ESignal (ToJSON E c)) cs.
Proof. induction cs; simpl; congruence. Qed.

(** A flush that does not panic signals every candidate it is given, in
    order, and changes nothing else. *)
Lemma signalAll_Ok cs (pc pc' : PeerConnectionChannel E) :
  signalAll signalCandidate cs pc = Ok pc' ->
  pc' = mkPC (peerConnection pc) (remoteDescription pc)
          (pendingCandidates pc) (trace pc ++ flushTrace cs).
Proof.
  revert pc. induction cs as [|c cs IH]; simpl; intros pc H.
  - injection H as <-. rewrite app_nil_r. destruct pc; reflexivity.
  - destruct (signalCandidate (ToJSON E c)); [discriminate|].
    apply IH in H. rewrite H. simpl. rewrite <- app_assoc. reflexivity.
Qed.

Lemma signalAll_accepts cs (pc : PeerConnectionChannel E) :
  (forall c, In c cs -> signalCandidate (ToJSON E c) = None) ->
  exists pc', signalAll signalCandidate cs pc = Ok pc'.
Proof.
  revert pc. induction cs as [|c cs IH]; simpl; intros pc H.
  - eexists; reflexivity.
  - rewrite (H c) by (left; reflexivity). apply IH. intros; apply H; now right.
Qed.

Lemma run_app (a b : list (Tick E)) (cfg : Config E) :
  run signalCandidate (a ++ b) cfg =
    match run signalCandidate a cfg with
    | Ok cfg' => run signalCandidate b cfg'
    | Panic cfg' => Panic cfg'
    end.
Proof.
  revert cfg. induction a as [|t a IH]; simpl; intros cfg; [reflexivity|].
  destruct (tick signalCandidate t cfg); [apply IH|reflexivity].
Qed.

Lemma discovered_app (a b : list (Tick E)) :
  discovered (a ++ b) = discovered a ++ discovered b.
Proof.
  induction a as [|t a IH]; simpl; [reflexivity|].
  destruct t as [|[c|]]; simpl; congruence.
Qed.

(** The callback before the remote description is applied: the candidate
    joins the buffer and nothing is signalled. *)
Lemma OnICECandidate_queues (pc : PeerConnectionChannel E) c :
  remoteDescription pc = None ->
  exists pc', OnICECandidate signalCandidate (Some c) pc = Ok pc'
    /\ pendingCandidates pc' = pendingCandidates pc ++ [c]
    /\ remoteDescription pc' = None
    /\ peerConnection pc' = peerConnection pc
    /\ trace pc' = trace pc ++ [(Callback, ELock); (Callback, EUnlock)].
Proof.
  intros H. unfold OnICECandidate. simpl. rewrite H.
  eexists. split; [reflexivity|]. simpl. rewrite <- app_assoc.
  repeat split; assumption.
Qed.

(** The callback once a remote description is applied: the candidate is
    signalled at once, under the lock, and the buffer is left alone. *)
Lemma OnICECandidate_signals (pc pc' : PeerConnectionChannel E) c :
  remoteDescription pc <> None ->
  OnICECandidate signalCandidate (Some c) pc = Ok pc' ->
  pendingCandidates pc' = pendingCandidates pc
  /\ remoteDescription pc' = remoteDescription pc
  /\ peerConnection pc' = peerConnection pc
  /\ trace pc' = trace pc ++ [(Callback, ELock);
                              (Callback, ESignal (ToJSON E c));
                              (Callback, EUnlock)].
Proof.
  intros H. unfold OnICECandidate. simpl.
  destruct (remoteDescription pc) eqn:R; [|congruence].
  destruct (signalCandidate (ToJSON E c)); [discriminate|].
  intros [= <-]. simpl. rewrite <- !app_assoc. repeat split; auto.
Qed.


Ltac stage_side :=
  simpl; try assumption; try discriminate; try congruence;
  try (unfold offersLeft in *; simpl in *; lia);
  try (rewrite ?signalled_app, ?eventsOf_app; simpl;
       rewrite ?app_nil_r; congruence).

(** One step of either goroutine keeps the stage description. *)
Lemma Stage_tick p0 ds (cfg cfg' : Config E) (t : Tick E) :
  Stage p0 ds cfg ->
  tick signalCandidate t cfg = Ok cfg' ->
  Stage p0 (ds ++ discovered [t]) cfg'.
Proof.
  intros HS Ht. destruct t as [|[c|]]; cbn [tick discovered] in *.
  - (* the dispatcher *)
    rewrite app_nil_r. unfold handleSignalingMessage in Ht.
    destruct HS as [R P O Pn Sg | d1 d2 R P O Hd Pn Sg
                   | d1 d2 d3 pre post R P O Hd Pn Sg Ev].
    + unfold offersLeft in O.
      destruct (point cfg) eqn:Pt; try discriminate P.
      * destruct (inbox cfg) as [|[sdp|cand] rest] eqn:I.
        -- simpl in O. discriminate O.
        -- injection Ht as <-. apply Stage_before; stage_side.
        -- injection Ht as <-. apply Stage_before; stage_side.
      * destruct (SetRemoteDescription E _ sdp) as [e [err|]]; [discriminate|].
        injection Ht as <-.
        apply Stage_between with (d1 := ds) (d2 := []); stage_side.
        all: try now rewrite app_nil_r.
      * destruct (AddICECandidate E _ candidate) as [e [err|]]; [discriminate|].
        injection Ht as <-. apply Stage_before; stage_side.
    + destruct (point cfg) eqn:Pt; try discriminate P.
      * destruct (CreateAnswer E _) as [[e answer] [err|]]; [discriminate|].
        injection Ht as <-.
        apply Stage_between with (d1 := d1) (d2 := d2); stage_side.
      * injection Ht as <-.
        apply Stage_between with (d1 := d1) (d2 := d2); stage_side.
      * destruct (SetLocalDescription E _ answer) as [e [err|]]; [discriminate|].
        injection Ht as <-.
        apply Stage_between with (d1 := d1) (d2 := d2); stage_side.
      * destruct (signalAll signalCandidate _ _) as [pc|pc] eqn:F; [|discriminate].
        injection Ht as <-. apply signalAll_Ok in F. subst pc. simpl in *.
        apply Stage_after with (d1 := d1) (d2 := d2) (d3 := [])
                               (pre := eventsOf Dispatcher (trace (chan cfg)))
                               (post := []); stage_side.
        all: try now rewrite app_nil_r.
        all: try (rewrite !signalled_app, signalled_flushTrace, Sg, Pn; simpl;
                  now rewrite !app_nil_r, !map_app).
        all: try (rewrite !eventsOf_app, eventsOf_flushTrace, Pn; simpl;
                  unfold flushOf; now rewrite app_nil_r, <- !app_assoc).
    + destruct (point cfg) eqn:Pt; try discriminate P.
      * destruct (inbox cfg) as [|[sdp|cand] rest] eqn:I.
        -- injection Ht as <-.
           apply Stage_after with d1 d2 d3 pre post; stage_side.
           all: try now rewrite Pt.
        -- discriminate O.
        -- injection Ht as <-.
           apply Stage_after with d1 d2 d3 pre post; stage_side.
      * destruct (AddICECandidate E _ candidate) as [e [err|]]; [discriminate|].
        injection Ht as <-.
        apply Stage_after with d1 d2 d3 pre (post ++ [EAddICECandidate candidate]);
          stage_side.
        all: try (rewrite eventsOf_app, Ev; unfold flushOf; simpl;
                  repeat (rewrite <- app_assoc; simpl); reflexivity).
  - (* a candidate is discovered *)
    destruct (OnICECandidate signalCandidate (Some c) (chan cfg)) as [pc|pc] eqn:Cb;
      [|discriminate].
    injection Ht as <-.
    destruct HS as [R P O Pn Sg | d1 d2 R P O Hd Pn Sg
                   | d1 d2 d3 pre post R P O Hd Pn Sg Ev].
    + destruct (OnICECandidate_queues (chan cfg) c R)
        as (pc' & Hq & Hp & Hr & _ & Htr).
      rewrite Hq in Cb. injection Cb as <-.
      apply Stage_before; stage_side.
      all: try now rewrite Hp, Pn, <- app_assoc.
      all: try now rewrite Htr, signalled_app, Sg.
    + destruct (OnICECandidate_signals _ _ c R Cb) as (Hp & Hr & _ & Htr).
      apply Stage_between with (d1 := d1) (d2 := d2 ++ [c]); stage_side.
      all: try now rewrite Hd, <- app_assoc.
      all: try now rewrite Htr, signalled_app, Sg, map_app.
    + destruct (OnICECandidate_signals _ _ c R Cb) as (Hp & Hr & _ & Htr).
      apply Stage_after with d1 d2 (d3 ++ [c]) pre post; stage_side.
      all: try now rewrite Hd, <- !app_assoc.
      all: try (rewrite Htr, signalled_app, Sg; simpl;
                now rewrite !map_app, <- !app_assoc).
      all: try now rewrite Htr, eventsOf_app, Ev, app_nil_r.
  - (* the end-of-gathering callback *)
    injection Ht as <-. rewrite app_nil_r.
    destruct HS as [R P O Pn Sg | d1 d2 R P O Hd Pn Sg
                   | d1 d2 d3 pre post R P O Hd Pn Sg Ev].
    + apply Stage_before; auto.
    + apply Stage_between with d1 d2; auto.
    + apply Stage_after with d1 d2 d3 pre post; auto.
Qed.

Lemma Stage_run p0 (sched : list (Tick E)) : forall ds (cfg cfg' : Config E),
  Stage p0 ds cfg ->
  run signalCandidate sched cfg = Ok cfg' ->
  Stage p0 (ds ++ discovered sched) cfg'.
Proof.
  induction sched as [|t sched IH]; intros ds cfg cfg' HS Hr.
  - simpl in *. injection Hr as <-. now rewrite app_nil_r.
  - cbn [run] in Hr.
    destruct (tick signalCandidate t cfg) as [c1|c1] eqn:Ht; [|discriminate].
    pose proof (Stage_tick _ _ _ _ _ HS Ht) as HS1.
    pose proof (IH _ _ _ HS1 Hr) as HS2.
    rewrite <- app_assoc in HS2.
    change (t :: sched) with ([t] ++ sched). now rewrite discovered_app.
Qed.


Lemma start_Stage (e : engine E) p0 msgs :
  offers msgs = 1%nat -> Stage p0 [] (start e p0 msgs).
Proof.
  intros H. apply Stage_before; simpl; auto.
  - unfold offersLeft. simpl. lia.
  - now rewrite app_nil_r.
Qed.

(** C1. In a session, which has one offer ([Spin] of the signaling channel
    sends on [sdpChan] once): as long as no remote description is applied
    every discovered candidate sits in the buffer, in discovery order, and
    none is signalled; a candidate discovered while a remote description is
    applied is signalled at once, under the lock, and is not queued; and
    once the dispatcher is through with the offer the buffer [p0 ++ d1] has
    been flushed under the lock, in order, in one run of [signalCandidate]
    calls, so that every discovered candidate has been signalled exactly
    once. *)
Theorem C1_pending_candidates_flushed_once_per_offer
  (e : engine E) (p0 : list (ICECandidate E)) (msgs : list Msg)
  (sched : list (Tick E)) (cfg : Config E) :
  offers msgs = 1%nat ->
  run signalCandidate sched (start e p0 msgs) = Ok cfg ->
  (remoteDescription (chan cfg) = None ->
     pendingCandidates (chan cfg) = p0 ++ discovered sched
     /\ signalled (trace (chan cfg)) = [])
  /\ (remoteDescription (chan cfg) <> None ->
      afterPoint (point cfg) = true ->
      exists d1 d2 d3 pre post,
        discovered sched = d1 ++ d2 ++ d3
        /\ pendingCandidates (chan cfg) = p0 ++ d1
        /\ eventsOf Dispatcher (trace (chan cfg))
           = pre ++ flushOf (p0 ++ d1) ++ post
        /\ signalled (trace (chan cfg))
           = map (ToJSON E) (d2 ++ (p0 ++ d1) ++ d3)
        /\ Permutation (signalled (trace (chan cfg)))
             (map (ToJSON E) (p0 ++ discovered sched)))
  /\ (forall (pc : PeerConnectionChannel E) c,
        remoteDescription pc = None ->
        exists pc',
          OnICECandidate signalCandidate (Some c) pc = Ok pc'
          /\ pendingCandidates pc' = pendingCandidates pc ++ [c]
          /\ signalled (trace pc') = signalled (trace pc))
  /\ (forall (pc pc' : PeerConnectionChannel E) c,
        remoteDescription pc <> None ->
        OnICECandidate signalCandidate (Some c) pc = Ok pc' ->
        pendingCandidates pc' = pendingCandidates pc
        /\ trace pc' = trace pc ++ [(Callback, ELock);
                                    (Callback, ESignal (ToJSON E c));
                                    (Callback, EUnlock)]).
Proof.
  intros Hone Hrun.
  pose proof (Stage_run _ _ _ _ _ (start_Stage e p0 msgs Hone) Hrun) as HS.
  simpl in HS. split; [|split; [|split]].
  - intros R.
    destruct HS as [_ _ _ Pn Sg | d1 d2 R' _ _ _ _ _
                   | d1 d2 d3 pre post R' _ _ _ _ _ _]; [auto|congruence..].
  - intros R A.
    destruct HS as [R' _ _ _ _ | d1 d2 _ P _ _ _ _
                   | d1 d2 d3 pre post _ _ _ Hd Pn Sg Ev]; [congruence| |].
    + destruct (point cfg); discriminate.
    + exists d1, d2, d3, pre, post. repeat split; auto.
      rewrite Sg, Hd. apply Permutation_map.
      rewrite (app_assoc p0 d1). apply Permutation_app_swap_app.
  - intros pc c R.
    destruct (OnICECandidate_queues pc c R) as (pc' & Hq & Hp & _ & _ & Htr).
    exists pc'. repeat split; auto.
    now rewrite Htr, signalled_app, app_nil_r.
  - intros pc pc' c R H.
    destruct (OnICECandidate_signals pc pc' c R H) as (Hp & _ & _ & Htr).
    split; assumption.
Qed.

(** What one dispatcher step does, point by point. *)
Lemma dispatcher_step (cfg cfg' : Config E) :
  handleSignalingMessage signalCandidate cfg = Ok cfg' ->
  inbox cfg' = match point cfg with AtSelect => tl (inbox cfg) | _ => inbox cfg end
  /\ match point cfg with
     | AtSelect =>
         chan cfg' = chan cfg
         /\ point cfg' = match inbox cfg with
                         | [] => AtSelect
                         | FromSdpChan sdp :: _ => AtSetRemoteDescription sdp
                         | FromCandidateChan c :: _ => AtAddICECandidate c
                         end
     | AtSetRemoteDescription sdp =>
         point cfg' = AtCreateAnswer
         /\ eventsOf Dispatcher (trace (chan cfg'))
            = eventsOf Dispatcher (trace (chan cfg)) ++ [ESetRemoteDescription sdp]
     | AtCreateAnswer =>
         exists answer,
           point cfg' = AtPublish answer
           /\ eventsOf Dispatcher (trace (chan cfg'))
              = eventsOf Dispatcher (trace (chan cfg)) ++ [ECreateAnswer]
     | AtPublish answer =>
         point cfg' = AtSetLocalDescription answer
         /\ eventsOf Dispatcher (trace (chan cfg'))
            = eventsOf Dispatcher (trace (chan cfg)) ++ [EPublish answer]
     | AtSetLocalDescription answer =>
         point cfg' = AtFlush
         /\ eventsOf Dispatcher (trace (chan cfg'))
            = eventsOf Dispatcher (trace (chan cfg)) ++ [ESetLocalDescription answer]
     | AtFlush =>
         point cfg' = AtSelect
         /\ pendingCandidates (chan cfg') = pendingCandidates (chan cfg)
         /\ eventsOf Dispatcher (trace (chan cfg'))
            = eventsOf Dispatcher (trace (chan cfg))
                ++ flushOf (pendingCandidates (chan cfg))
     | AtAddICECandidate c =>
         point cfg' = AtSelect
         /\ eventsOf Dispatcher (trace (chan cfg'))
            = eventsOf Dispatcher (trace (chan cfg)) ++ [EAddICECandidate c]
     end.
Proof.
  unfold handleSignalingMessage. destruct (point cfg) eqn:Pt.
  - destruct (inbox cfg) as [|[sdp|c] rest] eqn:I; intros [= <-]; simpl;
      rewrite ?I; auto.
  - destruct (SetRemoteDescription E _ sdp) as [e [err|]]; [discriminate|].
    intros [= <-]. simpl. now rewrite eventsOf_app.
  - destruct (CreateAnswer E _) as [[e answer] [err|]]; [discriminate|].
    intros [= <-]. simpl. split; [reflexivity|].
    exists answer. now rewrite eventsOf_app.
  - intros [= <-]. simpl. now rewrite eventsOf_app.
  - destruct (SetLocalDescription E _ answer) as [e [err|]]; [discriminate|].
    intros [= <-]. simpl. now rewrite eventsOf_app.
  - destruct (signalAll signalCandidate _ _) as [pc|pc] eqn:F; [|discriminate].
    intros [= <-]. apply signalAll_Ok in F. subst pc. simpl.
    rewrite !eventsOf_app, eventsOf_flushTrace. simpl.
    unfold flushOf. now rewrite <- !app_assoc.
  - destruct (AddICECandidate E _ candidate) as [e [err|]]; [discriminate|].
    intros [= <-]. simpl. now rewrite eventsOf_app.
Qed.

(** Callbacks leave the dispatcher where it is and add none of its events. *)
Lemma run_callbacks l : forall (cfg cfg' : Config E),
  run signalCandidate (callbacks l) cfg = Ok cfg' ->
  point cfg' = point cfg /\ inbox cfg' = inbox cfg
  /\ eventsOf Dispatcher (trace (chan cfg'))
     = eventsOf Dispatcher (trace (chan cfg)).
Proof.
  induction l as [|c l IH]; intros cfg cfg' H.
  - injection H as <-. auto.
  - cbn [callbacks map run tick] in H.
    destruct (OnICECandidate signalCandidate c (chan cfg)) as [pc|pc] eqn:Cb;
      [|discriminate].
    apply IH in H. simpl in H. destruct H as (-> & -> & ->).
    repeat split. destruct c as [c|].
    + destruct (remoteDescription (chan cfg)) eqn:R.
      * assert (R' : remoteDescription (chan cfg) <> None) by congruence.
        destruct (OnICECandidate_signals _ _ c R' Cb) as (_ & _ & _ & ->).
        now rewrite eventsOf_app, app_nil_r.
      * destruct (OnICECandidate_queues (chan cfg) c R) as (pc' & Hq & _ & _ & _ & Htr).
        rewrite Hq in Cb. injection Cb as <-.
        now rewrite Htr, eventsOf_app, app_nil_r.
    + injection Cb as <-. reflexivity.
Qed.

Lemma run_callbacks_then_dispatch l rest (cfg cfg' : Config E) :
  run signalCandidate (callbacks l ++ Dispatch :: rest) cfg = Ok cfg' ->
  exists c1 c2,
    point c1 = point cfg /\ inbox c1 = inbox cfg
    /\ eventsOf Dispatcher (trace (chan c1))
       = eventsOf Dispatcher (trace (chan cfg))
    /\ handleSignalingMessage signalCandidate c1 = Ok c2
    /\ run signalCandidate rest c2 = Ok cfg'.
Proof.
  rewrite run_app.
  destruct (run signalCandidate (callbacks l) cfg) as [c1|c1] eqn:H1;
    [|discriminate].
  cbn [run tick].
  destruct (handleSignalingMessage signalCandidate c1) as [c2|c2] eqn:H2;
    [|discriminate].
  intros H. exists c1, c2. apply run_callbacks in H1.
  destruct H1 as (? & ? & ?). auto.
Qed.

(** C5 (amended). For every remote-description event, whatever callbacks
    run in between, the dispatcher applies the remote description, creates
    the answer, publishes it on the reply channel, applies it as the local
    description and only then flushes the buffer under the lock. *)
Theorem C5_dispatcher_publishes_before_local_description
  (cfg0 cfg : Config E) (sdp : SessionDescription) (rest : list Msg)
  (l1 l2 l3 l4 l5 : list (option (ICECandidate E))) :
  point cfg0 = AtSelect ->
  inbox cfg0 = FromSdpChan sdp :: rest ->
  run signalCandidate (sdpEvent l1 l2 l3 l4 l5) cfg0 = Ok cfg ->
  exists answer,
    eventsOf Dispatcher (trace (chan cfg))
    = eventsOf Dispatcher (trace (chan cfg0))
        ++ codeOrder E sdp answer (pendingCandidates (chan cfg))
    /\ point cfg = AtSelect
    /\ inbox cfg = rest.
Proof.
  intros P0 I0 H. unfold sdpEvent in H. cbn [run tick] in H.
  destruct (handleSignalingMessage signalCandidate cfg0) as [a|a] eqn:S0;
    [|discriminate].
  apply dispatcher_step in S0. rewrite P0, I0 in S0.
  destruct S0 as (Ia & Ca & Pa). simpl in Ia.
  apply run_callbacks_then_dispatch in H
    as (a' & b & Pa' & Ia' & Ea' & S1 & H).
  apply dispatcher_step in S1. rewrite Pa', Pa in S1.
  destruct S1 as (Ib & Pb & Eb).
  apply run_callbacks_then_dispatch in H
    as (b' & c & Pb' & Ib' & Eb' & S2 & H).
  apply dispatcher_step in S2. rewrite Pb', Pb in S2.
  destruct S2 as (Ic & answer & Pc & Ec).
  apply run_callbacks_then_dispatch in H
    as (c' & d & Pc' & Ic' & Ec' & S3 & H).
  apply dispatcher_step in S3. rewrite Pc', Pc in S3.
  destruct S3 as (Id & Pd & Ed).
  apply run_callbacks_then_dispatch in H
    as (d' & f & Pd' & Id' & Ed' & S4 & H).
  apply dispatcher_step in S4. rewrite Pd', Pd in S4.
  destruct S4 as (If & Pf & Ef).
  change (callbacks l5 ++ [Dispatch]) with (callbacks l5 ++ Dispatch :: [])
    in H.
  apply run_callbacks_then_dispatch in H
    as (f' & g & Pf' & If' & Ef' & S5 & H).
  apply dispatcher_step in S5. rewrite Pf', Pf in S5.
  destruct S5 as (Ig & Pg & Ng & Eg).
  injection H as <-.
  exists answer. split; [|split].
  - rewrite Eg, Ng, Ef', Ef, Ed', Ed, Ec', Ec, Eb', Eb, Ea', Ca.
    unfold codeOrder. now rewrite <- !app_assoc.
  - exact Pg.
  - congruence.
Qed.

End Channel.

Example C1_queue_then_flush :
  signalled (trace (chan (reached
    (run exampleSignal
       [found "c1"; gathered; found "c2";
        step; step; found "c3"; step; step;
        step; step; found "c4"]
       (exampleStart [] [FromSdpChan (mkSD "offer" "o")])))))
  = [mkICEInit "c3" None None; mkICEInit "c1" None None;
     mkICEInit "c2" None None; mkICEInit "c4" None None].
Proof. reflexivity. Qed.

(** One offer, one candidate before it, one between the remote description
    and the flush, one after the flush. *)
Lemma C1_witness :
  let sched := [found "c1"; step; step; found "c2"; step; step; step; step;
                found "c3"] in
  let msgs := [FromSdpChan (mkSD "offer" "o")] in
  offers msgs = 1%nat
  /\ isPanic (run exampleSignal sched (exampleStart [] msgs)) = false
  /\ signalled (trace (chan (reached
       (run exampleSignal sched (exampleStart [] msgs)))))
     = [mkICEInit "c2" None None; mkICEInit "c1" None None;
        mkICEInit "c3" None None]
  /\ Permutation
       (signalled (trace (chan (reached
          (run exampleSignal sched (exampleStart [] msgs))))))
       (map (ToJSON exampleEngine) ([] ++ discovered sched)).
Proof.
  cbv zeta.
  split; [reflexivity|]. split; [reflexivity|]. split; [reflexivity|].
  destruct (C1_pending_candidates_flushed_once_per_offer exampleEngine
              exampleSignal tt [] [FromSdpChan (mkSD "offer" "o")]
              [found "c1"; step; step; found "c2"; step; step; step; step;
               found "c3"]
              (reached
                 (run exampleSignal
                    [found "c1"; step; step; found "c2"; step; step; step;
                     step; found "c3"]
                    (exampleStart [] [FromSdpChan (mkSD "offer" "o")])))
              eq_refl eq_refl) as (_ & Hdone & _).
  destruct Hdone as (d1 & d2 & d3 & pre & post & _ & _ & _ & _ & HP);
    [discriminate|reflexivity|].
  exact HP.
Defined.

(** One offer with callbacks between the dispatcher's steps. *)
Lemma C5_witness :
  point (exampleStart ["c0"] [FromSdpChan (mkSD "offer" "o")])
  = AtSelect
  /\ inbox (exampleStart ["c0"] [FromSdpChan (mkSD "offer" "o")])
     = [FromSdpChan (mkSD "offer" "o")]
  /\ isPanic (run exampleSignal
                (sdpEvent (E := exampleEngine) [Some "c1"] [] [Some "c2"] [] [None])
                (exampleStart ["c0"] [FromSdpChan (mkSD "offer" "o")])) = false
  /\ exists answer,
       eventsOf Dispatcher
         (trace (chan (reached
            (run exampleSignal
               (sdpEvent (E := exampleEngine) [Some "c1"] [] [Some "c2"] [] [None])
               (exampleStart ["c0"] [FromSdpChan (mkSD "offer" "o")])))))
       = codeOrder exampleEngine (mkSD "offer" "o") answer ["c0"; "c1"].
Proof.
  split; [reflexivity|]. split; [reflexivity|]. split; [reflexivity|].
  destruct (C5_dispatcher_publishes_before_local_description exampleEngine
              exampleSignal
              (exampleStart ["c0"] [FromSdpChan (mkSD "offer" "o")])
              _ (mkSD "offer" "o") [] [Some "c1"] [] [Some "c2"] [] [None]
              eq_refl eq_refl eq_refl) as (answer & Hev & _).
  exists answer. exact Hev.
Defined.

(** C5, as first stated, puts the local description before the
    publication; the code publishes first. *)
Lemma C5_counterexample_publish_precedes_local_description :
  let out := run exampleSignal (sdpEvent (E := exampleEngine) [] [] [] [] [])
               (exampleStart [] [FromSdpChan (mkSD "offer" "o")]) in
  isPanic out = false
  /\ eventsOf Dispatcher (trace (chan (reached out)))
     = codeOrder exampleEngine (mkSD "offer" "o") (mkSD "answer" "a") []
  /\ eventsOf Dispatcher (trace (chan (reached out)))
     <> specifiedOrder exampleEngine (mkSD "offer" "o") (mkSD "answer" "a") [].
Proof.
  cbv zeta. split; [reflexivity|]. split; [reflexivity|].
  intros H. discriminate H.
Qed.

End NegotiatorFacts.

(** ** The frame assembler *)
Module AssemblerFacts.
Import Assembler.

Lemma u8_range (b : byte) : 0 <= u8 b < 256.
Proof.
  unfold u8. pose proof (Byte.to_N_bounded b) as H.
  split; [apply N2Z.is_nonneg|]. lia.
Qed.

Lemma uint_small (z : Z) : 0 <= z < 2 ^ 64 -> uint z = z.
Proof. intros H. unfold uint. now apply Z.mod_small. Qed.

Lemma land_shiftl_low (a b n : Z) :
  0 <= n -> 0 <= a < 2 ^ n -> Z.land a (Z.shiftl b n) = 0.
Proof.
  intros Hn Ha. apply Z.bits_inj'. intros i Hi.
  rewrite Z.land_spec, Z.bits_0.
  destruct (Z.lt_ge_cases i n) as [Hlt|Hge].
  - rewrite Z.shiftl_spec_low by assumption. apply andb_false_r.
  - destruct (Z.eq_dec a 0) as [->|Hnz].
    + now rewrite Z.bits_0.
    + rewrite (Z.bits_above_log2 a i); [reflexivity|lia|].
      apply Z.log2_lt_pow2; [lia|].
      apply Z.lt_le_trans with (2 ^ n); [lia|].
      apply Z.pow_le_mono_r; lia.
Qed.

Lemma lor_shiftl_add (a b n : Z) :
  0 <= n -> 0 <= a < 2 ^ n -> Z.lor a (Z.shiftl b n) = a + b * 2 ^ n.
Proof.
  intros Hn Ha.
  rewrite <- Z.lxor_lor by now apply land_shiftl_low.
  rewrite <- Z.add_nocarry_lxor by now apply land_shiftl_low.
  now rewrite Z.shiftl_mul_pow2.
Qed.

(** The [raw] of [PushVP8] is the little-endian number of the four bytes;
    no intermediate value leaves the range of [uint]. *)
Lemma rawGeometry_le32 (b6 b7 b8 b9 : byte) :
  rawGeometry (u8 b6) (u8 b7) (u8 b8) (u8 b9) = le32 b6 b7 b8 b9.
Proof.
  pose proof (u8_range b6). pose proof (u8_range b7).
  pose proof (u8_range b8). pose proof (u8_range b9).
  assert (S : forall b n, 0 <= n <= 24 -> 0 <= u8 b < 256 ->
               uint (Z.shiftl (uint (u8 b)) n) = Z.shiftl (u8 b) n).
  { intros b n Hn Hb. rewrite (uint_small (u8 b)) by lia.
    apply uint_small. rewrite Z.shiftl_mul_pow2 by lia.
    assert (0 < 2 ^ n) by (apply Z.pow_pos_nonneg; lia).
    assert (2 ^ n <= 2 ^ 24) by (apply Z.pow_le_mono_r; lia).
    split; [nia|]. change (2 ^ 64) with (2 ^ 24 * 2 ^ 40). nia. }
  unfold rawGeometry, le32.
  rewrite !S, (uint_small (u8 b6)) by lia.
  rewrite (lor_shiftl_add (u8 b6)) by lia.
  rewrite (lor_shiftl_add (u8 b6 + _)) by lia.
  rewrite (lor_shiftl_add (u8 b6 + _ + _)) by lia.
  reflexivity.
Qed.

Lemma videoKeyframe_testbit (b0 : byte) :
  videoKeyframe (u8 b0) = negb (Z.testbit (u8 b0) 0).
Proof.
  unfold videoKeyframe.
  change 1 with (Z.ones 1). rewrite Z.land_ones by lia.
  change (2 ^ 1) with 2. rewrite <- Z.bit0_mod.
  destruct (Z.testbit (u8 b0) 0); reflexivity.
Qed.


Section Paths.
Variable B : SampleBuilder.
Variable D : Decoder.
Variable Unmarshal : list byte -> option VP8Packet.

Lemma decodes_app (a b : list (Event D)) :
  decodes (a ++ b) = decodes a ++ decodes b.
Proof. induction a as [|[] a IH]; simpl; congruence. Qed.

Lemma inits_app (a b : list (Event D)) : inits (a ++ b) = inits a ++ inits b.
Proof. induction a as [|[] a IH]; simpl; congruence. Qed.

Lemma sent_app (a b : list (Event D)) : sent (a ++ b) = sent a ++ sent b.
Proof. induction a as [|[] a IH]; simpl; congruence. Qed.

Lemma jpegNumbers_app (a b : list (Event D)) :
  jpegNumbers (a ++ b) = jpegNumbers a ++ jpegNumbers b.
Proof. induction a as [|[] a IH]; simpl; congruence. Qed.

Lemma saved_app (a b : list (Event D)) : saved (a ++ b) = saved a ++ saved b.
Proof. induction a as [|[] a IH]; simpl; congruence. Qed.

Lemma errors_app (a b : list (Event D)) :
  errors (a ++ b) = errors a ++ errors b.
Proof. induction a as [|[] a IH]; simpl; congruence. Qed.

(** *** The buffered path *)

(** [InitWriter] calls the decoder once, with the size it is given. *)
Lemma InitWriter_events (s : WebmSaver B D) (w h : Z) :
  exists rest,
    events (InitWriter s w h) = events s ++ InitDecoder w h :: rest
    /\ inits rest = [] /\ decodes rest = [] /\ sent rest = []
    /\ codecCreated (InitWriter s w h) = true
    /\ vp8Builder (InitWriter s w h) = vp8Builder s.
Proof.
  unfold InitWriter. destruct (init_decoder D (codecCtx s) w h) as [c rc].
  destruct (rc =? 0); simpl.
  - exists []. repeat split.
  - exists [LogError "failed to initialize decoder"].
    rewrite <- app_assoc. repeat split.
Qed.

(** [decodeSample] submits the sample, whatever the decoder then does. *)
Lemma decodeSample_events (s : WebmSaver B D) (data : list byte) :
  exists rest,
    events (decodeSample s data) = events s ++ DecodeFrame data :: rest
    /\ inits rest = [] /\ decodes rest = []
    /\ codecCreated (decodeSample s data) = codecCreated s
    /\ vp8Builder (decodeSample s data) = vp8Builder s.
Proof.
  unfold decodeSample.
  destruct (decode_frame D (codecCtx s) data) as [c rc].
  destruct (rc =? 0); simpl.
  - destruct (frames D c) as [|img imgs]; simpl.
    + eexists. rewrite <- app_assoc. repeat split.
    + destruct (Empty D _); simpl.
      * eexists. rewrite <- app_assoc. repeat split.
      * destruct (DataPtrUint8 D _); simpl;
          eexists; rewrite <- app_assoc; repeat split.
  - eexists. rewrite <- app_assoc. repeat split.
Qed.

Lemma readHeader_keyframe (s : WebmSaver B D) data b0 b6 b7 b8 b9 :
  nth_error data 0 = Some b0 ->
  nth_error data 6 = Some b6 -> nth_error data 7 = Some b7 ->
  nth_error data 8 = Some b8 -> nth_error data 9 = Some b9 ->
  Z.testbit (u8 b0) 0 = false ->
  readHeader s data =
    Ok (if codecCreated s then s
        else InitWriter s (Z.land (le32 b6 b7 b8 b9) 16383)
               (Z.land (Z.shiftr (le32 b6 b7 b8 b9) 16) 16383)).
Proof.
  intros H0 H6 H7 H8 H9 Hk. unfold readHeader, at_.
  rewrite H0, H6, H7, H8, H9. cbn [option_map].
  rewrite videoKeyframe_testbit, Hk. cbn [negb].
  rewrite rawGeometry_le32. unfold widthOf, heightOf.
  destruct (codecCreated s); reflexivity.
Qed.

Lemma readHeader_interframe (s : WebmSaver B D) data b0 :
  nth_error data 0 = Some b0 ->
  Z.testbit (u8 b0) 0 = true ->
  readHeader s data = Ok s.
Proof.
  intros H0 Hk. unfold readHeader, at_. rewrite H0. cbn [option_map].
  now rewrite videoKeyframe_testbit, Hk.
Qed.

(** C3. A popped sample counts as a keyframe exactly when the low bit of
    its first byte is clear.  On a keyframe, with [value] the little-endian
    number in bytes 6 to 9, the width is [value & 0x3FFF] and the height is
    [(value >> 16) & 0x3FFF]; when no decoder exists yet the loop body
    first initializes the decoder with exactly this width and height, so
    with (640, 480) when the bytes say so, and only then submits the sample.
    An interframe, or a keyframe when a decoder exists, initializes
    nothing. *)
Theorem C3_keyframe_geometry_initializes_decoder
  (s : WebmSaver B D) (data : list byte) (b0 b6 b7 b8 b9 : byte) :
  nth_error data 0 = Some b0 ->
  nth_error data 6 = Some b6 -> nth_error data 7 = Some b7 ->
  nth_error data 8 = Some b8 -> nth_error data 9 = Some b9 ->
  let value := le32 b6 b7 b8 b9 in
  let width := Z.land value 16383 in
  let height := Z.land (Z.shiftr value 16) 16383 in
  videoKeyframe (u8 b0) = negb (Z.testbit (u8 b0) 0)
  /\ rawGeometry (u8 b6) (u8 b7) (u8 b8) (u8 b9) = value
  /\ (Z.testbit (u8 b0) 0 = false -> codecCreated s = false ->
      exists s' rest,
        handleSample s data = Ok s'
        /\ codecCreated s' = true
        /\ events s' = events s ++ InitDecoder width height :: rest
        /\ inits rest = []
        /\ decodes rest = [data]
        /\ (width = 640 -> height = 480 ->
            inits (events s') = inits (events s) ++ [(640, 480)]))
  /\ (Z.testbit (u8 b0) 0 = true \/ codecCreated s = true ->
      exists s',
        handleSample s data = Ok s'
        /\ inits (events s') = inits (events s)).
Proof.
  intros H0 H6 H7 H8 H9 value width height.
  split; [apply videoKeyframe_testbit|].
  split; [apply rawGeometry_le32|]. split.
  - intros Hk Hc. unfold handleSample.
    rewrite (readHeader_keyframe s data b0 b6 b7 b8 b9) by assumption.
    rewrite Hc. fold value width height.
    destruct (InitWriter_events s width height)
      as (r1 & E1 & I1 & D1 & _ & C1 & _).
    destruct (decodeSample_events (InitWriter s width height) data)
      as (r2 & E2 & I2 & D2 & C2 & _).
    exists (decodeSample (InitWriter s width height) data),
           (r1 ++ DecodeFrame data :: r2).
    assert (Hev : events (decodeSample (InitWriter s width height) data)
                  = events s ++ InitDecoder width height
                      :: (r1 ++ DecodeFrame data :: r2))
      by (rewrite E2, E1, <- app_assoc; reflexivity).
    assert (Hin : inits (r1 ++ DecodeFrame data :: r2) = [])
      by (rewrite inits_app, I1; simpl; exact I2).
    split; [reflexivity|]. split; [congruence|]. split; [exact Hev|].
    split; [exact Hin|].
    split. { rewrite decodes_app, D1. simpl. now rewrite D2. }
    intros Hw Hh. rewrite Hev, inits_app. cbn [inits].
    now rewrite Hin, Hw, Hh.
  - intros Hcase. unfold handleSample.
    assert (Hr : readHeader s data = Ok s).
    { destruct (Z.testbit (u8 b0) 0) eqn:Hk.
      - now apply readHeader_interframe with b0.
      - destruct Hcase as [Hk'|Hc]; [discriminate|].
        rewrite (readHeader_keyframe s data b0 b6 b7 b8 b9) by assumption.
        now rewrite Hc. }
    rewrite Hr. exists (decodeSample s data). split; [reflexivity|].
    destruct (decodeSample_events s data) as (r & E & I & _).
    rewrite E, inits_app. simpl. now rewrite I, app_nil_r.
Qed.

(** The header read panics exactly on the samples that are too short. *)
Lemma readHeader_panics (s : WebmSaver B D) (data : list byte) :
  isPanic (readHeader s data) = negb (headerReadable data).
Proof.
  unfold readHeader, headerReadable, at_.
  destruct data as [|b0 data]; [reflexivity|].
  cbn [nth_error option_map]. rewrite videoKeyframe_testbit.
  destruct (Z.testbit (u8 b0) 0); cbn [negb]; [reflexivity|].
  do 9 (destruct data as [|? data]; [reflexivity|]).
  cbn [nth_error option_map]. destruct (codecCreated s); reflexivity.
Qed.

Lemma handleSample_panics (s : WebmSaver B D) (data : list byte) :
  isPanic (handleSample s data) = negb (headerReadable data).
Proof.
  unfold handleSample. rewrite <- (readHeader_panics s).
  destruct (readHeader s data); reflexivity.
Qed.

Lemma handleSamples_panics (samples : list (list byte)) :
  forall s : WebmSaver B D,
    isPanic (handleSamples s samples) = negb (forallb headerReadable samples).
Proof.
  induction samples as [|data samples IH]; intros s; [reflexivity|].
  cbn [handleSamples forallb].
  pose proof (handleSample_panics s data) as H.
  destruct (handleSample s data) as [s'|s']; simpl in H.
  - rewrite IH. apply (f_equal negb) in H. rewrite negb_involutive in H.
    now rewrite <- H.
  - apply (f_equal negb) in H. rewrite negb_involutive in H.
    now rewrite <- H.
Qed.

(** The loop body does not look at the builder. *)
Lemma handleSample_withBuilder (b : builder B) (s : WebmSaver B D) data :
  handleSample (withBuilder b s) data
  = mapOutcome (withBuilder b) (handleSample s data).
Proof.
  unfold handleSample, readHeader. destruct (at_ data 0) as [b0|]; [|reflexivity].
  destruct (videoKeyframe b0).
  - destruct (at_ data 6), (at_ data 7), (at_ data 8), (at_ data 9);
      try reflexivity.
    cbn [withBuilder codecCreated]. destruct (codecCreated s); cbn [mapOutcome].
    + unfold decodeSample. cbn [withBuilder codecCtx].
      destruct (decode_frame D (codecCtx s) data) as [c rc].
      destruct (rc =? 0); cbn [negb]; [|reflexivity].
      destruct (frames D c); [reflexivity|].
      destruct (Empty D _); [reflexivity|].
      destruct (DataPtrUint8 D _); reflexivity.
    + unfold decodeSample, InitWriter. cbn [withBuilder codecCtx].
      destruct (init_decoder D (codecCtx s) _ _) as [c0 rc0].
      cbn [codecCtx].
      destruct (decode_frame D c0 data) as [c rc].
      destruct (rc =? 0); cbn [negb]; [|reflexivity].
      destruct (frames D c); [reflexivity|].
      destruct (Empty D _); [reflexivity|].
      destruct (DataPtrUint8 D _); reflexivity.
  - cbn [mapOutcome]. unfold decodeSample. cbn [withBuilder codecCtx].
    destruct (decode_frame D (codecCtx s) data) as [c rc].
    destruct (rc =? 0); cbn [negb]; [|reflexivity].
    destruct (frames D c); [reflexivity|].
    destruct (Empty D _); [reflexivity|].
    destruct (DataPtrUint8 D _); reflexivity.
Qed.

Lemma handleSamples_withBuilder (b : builder B) samples :
  forall s : WebmSaver B D,
    handleSamples (withBuilder b s) samples
    = mapOutcome (withBuilder b) (handleSamples s samples).
Proof.
  induction samples as [|data samples IH]; intros s; [reflexivity|].
  cbn [handleSamples]. rewrite handleSample_withBuilder.
  destruct (handleSample s data) as [s'|s']; cbn [mapOutcome];
    [apply IH|reflexivity].
Qed.

Lemma mapOutcome_withBuilder (b b1 : builder B) (o : Outcome (WebmSaver B D)) :
  mapOutcome (withBuilder b) (mapOutcome (withBuilder b1) o)
  = mapOutcome (withBuilder b) o.
Proof. destruct o; reflexivity. Qed.

Lemma handleSamples_app (l1 l2 : list (list byte)) :
  forall s : WebmSaver B D,
    handleSamples s (l1 ++ l2)
    = match handleSamples s l1 with
      | Ok s' => handleSamples s' l2
      | Panic s' => Panic s'
      end.
Proof.
  induction l1 as [|data l1 IH]; intros s; [reflexivity|].
  cbn [handleSamples app].
  destruct (handleSample s data); [apply IH|reflexivity].
Qed.

(** With fuel for every sample the builder hands out, the [for] loop of
    [PushVP8] returns, and it has run the loop body on each sample in turn. *)
Lemma popLoop_Drains (samples : list (list byte)) :
  forall (fuel : nat) (s : WebmSaver B D) (b' : builder B),
    Drains (vp8Builder s) samples b' ->
    (List.length samples < fuel)%nat ->
    exists b,
      popLoop fuel s = Some (mapOutcome (withBuilder b) (handleSamples s samples))
      /\ (isPanic (handleSamples s samples) = false -> b = b').
Proof.
  induction samples as [|data samples IH]; intros fuel s b' HD Hf;
    (destruct fuel as [|fuel]; [simpl in Hf; lia|]); inversion HD; subst;
    cbn [popLoop].
  - rewrite H. exists b'. split; reflexivity || auto.
  - rewrite H2. rewrite handleSample_withBuilder. cbn [handleSamples].
    destruct (handleSample s data) as [s'|s']; cbn [mapOutcome].
    + destruct (IH fuel (withBuilder b1 s') b') as (b & Hp & Hb).
      { exact H4. } { simpl in Hf. lia. }
      exists b. rewrite Hp, handleSamples_withBuilder, mapOutcome_withBuilder.
      split; [reflexivity|].
      intros Hn. apply Hb. rewrite handleSamples_withBuilder.
      destruct (handleSamples s' samples); [reflexivity|discriminate Hn].
    + exists b1. split; [reflexivity|discriminate].
Qed.

Lemma PushVP8_Drains (fuel : nat) (s : WebmSaver B D) (p : Packet)
  (samples : list (list byte)) (b' : builder B) :
  Drains (Push B (vp8Builder s) p) samples b' ->
  (List.length samples < fuel)%nat ->
  exists b,
    PushVP8 fuel s p = Some (mapOutcome (withBuilder b) (handleSamples s samples))
    /\ (isPanic (handleSamples s samples) = false -> b = b').
Proof.
  intros HD Hf. unfold PushVP8.
  destruct (popLoop_Drains samples fuel
              (withBuilder (Push B (vp8Builder s) p) s) b' HD Hf)
    as (b & Hp & Hb).
  exists b. rewrite Hp, handleSamples_withBuilder, mapOutcome_withBuilder.
  split; [reflexivity|].
  intros Hn. apply Hb. rewrite handleSamples_withBuilder.
  destruct (handleSamples s samples); [reflexivity|discriminate Hn].
Qed.

Lemma pushAll_Feeds (fuel : nat) (packets : list Packet) :
  forall (s : WebmSaver B D) (samples : list (list byte)) (b' : builder B),
    Feeds (vp8Builder s) packets samples b' ->
    (List.length samples < fuel)%nat ->
    exists b,
      pushAll fuel s packets
      = Some (mapOutcome (withBuilder b) (handleSamples s samples)).
Proof.
  induction packets as [|p packets IH]; intros s samples b' HF Hf;
    inversion HF; subst; cbn [pushAll].
  - exists (vp8Builder s). cbn [handleSamples mapOutcome].
    destruct s; reflexivity.
  - rewrite length_app in Hf.
    destruct (PushVP8_Drains fuel s p l1 b1) as (b & Hp & Hb);
      [assumption|lia|].
    rewrite Hp, handleSamples_app.
    destruct (handleSamples s l1) as [s1|s1]; cbn [mapOutcome].
    + rewrite (Hb eq_refl).
      destruct (IH (withBuilder b1 s1) l2 b') as (b2 & Hq);
        [assumption|lia|].
      exists b2.
      now rewrite Hq, handleSamples_withBuilder, mapOutcome_withBuilder.
    + exists b. reflexivity.
Qed.

Lemma isPanic_mapOutcome {A : Type} (f : A -> A) (o : Outcome A) :
  isPanic (mapOutcome f o) = isPanic o.
Proof. destruct o; reflexivity. Qed.

(** Every readable sample is submitted to the decoder, in order, whether
    or not earlier submissions failed. *)
Lemma handleSamples_decodes (samples : list (list byte)) :
  forall s : WebmSaver B D,
    forallb headerReadable samples = true ->
    exists s',
      handleSamples s samples = Ok s'
      /\ decodes (events s') = decodes (events s) ++ samples.
Proof.
  induction samples as [|data samples IH]; intros s Hr.
  - exists s. split; [reflexivity|now rewrite app_nil_r].
  - cbn [forallb] in Hr. apply andb_true_iff in Hr as [Hd Hr].
    cbn [handleSamples]. unfold handleSample.
    pose proof (readHeader_panics s data) as Hp. rewrite Hd in Hp.
    destruct (readHeader s data) as [s1|s1] eqn:Hh; [|discriminate Hp].
    destruct (IH (decodeSample s1 data) Hr) as (s' & Hs & Hdec).
    exists s'. split; [exact Hs|].
    rewrite Hdec.
    destruct (decodeSample_events s1 data) as (r & E & _ & Dr & _).
    rewrite E, decodes_app. cbn [decodes]. rewrite Dr.
    assert (Hev : decodes (events s1) = decodes (events s)).
    { revert Hh. unfold readHeader.
      destruct (at_ data 0) as [b0|]; [|discriminate].
      destruct (videoKeyframe b0); [|now intros [= <-]].
      destruct (at_ data 6), (at_ data 7), (at_ data 8), (at_ data 9);
        try discriminate.
      destruct (codecCreated s); intros [= <-]; [reflexivity|].
      destruct (InitWriter_events s (widthOf (rawGeometry z z0 z1 z2))
                  (heightOf (rawGeometry z z0 z1 z2)))
        as (r1 & E1 & _ & D1 & _).
      rewrite E1, decodes_app. cbn [decodes]. now rewrite D1, app_nil_r. }
    rewrite Hev, <- app_assoc. reflexivity.
Qed.

(** A rejected submission in the buffered path: the error is logged, the
    builder and the decoder flag are as before, and the loop goes on. *)
Lemma decodeSample_failure_logged (s : WebmSaver B D) (data : list byte) :
  snd (decode_frame D (codecCtx s) data) <> 0 ->
  events (decodeSample s data)
  = events s ++ [DecodeFrame data; LogError "Decode error"]
  /\ codecCreated (decodeSample s data) = codecCreated s
  /\ vp8Builder (decodeSample s data) = vp8Builder s
  /\ codecCtx (decodeSample s data) = fst (decode_frame D (codecCtx s) data).
Proof.
  intros Hrc. unfold decodeSample.
  destruct (decode_frame D (codecCtx s) data) as [c rc]. cbn [fst snd] in *.
  apply Z.eqb_neq in Hrc. rewrite Hrc. cbn [negb record events].
  rewrite <- app_assoc. repeat split.
Qed.

(** *** The direct path *)

Lemma saveFrames_keeps (imgs : list (image D)) :
  forall (n : Z) (ev : list (Event D)),
    decodes (snd (saveFrames imgs n ev)) = decodes ev
    /\ inits (snd (saveFrames imgs n ev)) = inits ev
    /\ sent (snd (saveFrames imgs n ev)) = sent ev.
Proof.
  induction imgs as [|img imgs IH]; intros n ev; [repeat split|].
  cbn [saveFrames].
  destruct (Empty D _).
  - destruct (IH n (ev ++ [LogError "Failed to create Mat"])) as (-> & -> & ->).
    rewrite decodes_app, inits_app, sent_app. simpl.
    now rewrite !app_nil_r.
  - destruct (DataPtrUint8 D _).
    + destruct (IH n (ev ++ [LogError "Failed to get Mat data pointer"]))
        as (-> & -> & ->).
      rewrite decodes_app, inits_app, sent_app. simpl.
      now rewrite !app_nil_r.
    + destruct (IMWrite D n _).
      * destruct (IH (n + 1) (ev ++ [WriteJPEG n (copy_frame_to_mat D img
                     (NewMatWithSize D (d_h D img) (d_w D img))
                     (d_w D img) (d_h D img))])) as (-> & -> & ->).
        rewrite decodes_app, inits_app, sent_app. simpl.
        now rewrite !app_nil_r.
      * destruct (IH (n + 1) ((ev ++ [WriteJPEG n (copy_frame_to_mat D img
                     (NewMatWithSize D (d_h D img) (d_w D img))
                     (d_w D img) (d_h D img))])
                     ++ [LogError "Failed to write image"])) as (-> & -> & ->).
        rewrite !decodes_app, !inits_app, !sent_app. simpl.
        now rewrite !app_nil_r.
Qed.

(** What the walk over the ready images adds to the trace: the images for
    which a matrix can be had are converted and handed to [IMWrite] under
    consecutive numbers, the others are skipped; the frame count advances
    by one for every call of [IMWrite], whatever it returns. *)
Lemma saveFrames_effect (imgs : list (image D)) :
  forall (n : Z) (ev : list (Event D)),
    exists added,
      saveFrames imgs n ev
      = (n + Z.of_nat (List.length (filter matOk imgs)), ev ++ added)
      /\ saved added = map convert (filter matOk imgs)
      /\ jpegNumbers added = countFrom n (List.length (filter matOk imgs))
      /\ sent added = [] /\ decodes added = [] /\ inits added = []
      /\ (imgs = [] -> added = []).
Proof.
  induction imgs as [|img imgs IH]; intros n ev.
  - exists []. cbn. rewrite Z.add_0_r, app_nil_r. repeat split.
  - cbn [saveFrames filter].
    destruct (Empty D (NewMatWithSize D (d_h D img) (d_w D img))) eqn:HE.
    + assert (Hm : matOk img = false) by (unfold matOk; now rewrite HE).
      rewrite Hm.
      destruct (IH n (ev ++ [LogError "Failed to create Mat"]))
        as (added & -> & Hs & Hj & Hsent & Hd & Hi & _).
      exists (LogError "Failed to create Mat" :: added).
      rewrite <- app_assoc. cbn [app saved jpegNumbers sent decodes inits].
      repeat split; auto. discriminate.
    + destruct (DataPtrUint8 D (NewMatWithSize D (d_h D img) (d_w D img)))
        as [err|] eqn:HP.
      * assert (Hm : matOk img = false) by (unfold matOk; now rewrite HE, HP).
        rewrite Hm.
        destruct (IH n (ev ++ [LogError "Failed to get Mat data pointer"]))
          as (added & -> & Hs & Hj & Hsent & Hd & Hi & _).
        exists (LogError "Failed to get Mat data pointer" :: added).
        rewrite <- app_assoc. cbn [app saved jpegNumbers sent decodes inits].
        repeat split; auto. discriminate.
      * assert (Hm : matOk img = true) by (unfold matOk; now rewrite HE, HP).
        rewrite Hm. cbn [List.length map countFrom]. fold (convert img).
        destruct (IMWrite D n (convert img)).
        -- destruct (IH (n + 1) (ev ++ [WriteJPEG n (convert img)]))
             as (added & -> & Hs & Hj & Hsent & Hd & Hi & _).
           exists (WriteJPEG n (convert img) :: added).
           rewrite <- app_assoc. cbn [app saved jpegNumbers sent decodes inits].
           rewrite Hs, Hj. repeat split; auto; try discriminate.
           f_equal. lia.
        -- destruct (IH (n + 1) ((ev ++ [WriteJPEG n (convert img)])
                                   ++ [LogError "Failed to write image"]))
             as (added & -> & Hs & Hj & Hsent & Hd & Hi & _).
           exists (WriteJPEG n (convert img)
                     :: LogError "Failed to write image" :: added).
           rewrite <- !app_assoc. cbn [app saved jpegNumbers sent decodes inits].
           rewrite Hs, Hj. repeat split; auto; try discriminate.
           f_equal. lia.
Qed.

(** The direct path never sends an image to a channel. *)
Lemma readLoop_sends_nothing (packets : list Packet) :
  forall t : Track D,
    sent (tevents (reached (readLoop Unmarshal packets t))) = sent (tevents t).
Proof.
  induction packets as [|p packets IH]; intros t.
  - simpl. rewrite sent_app. simpl. now rewrite app_nil_r.
  - cbn [readLoop].
    destruct (Unmarshal (Payload p)) as [v|]; [|reflexivity].
    destruct (nth_error (vp8Payload v) 0) as [b0|]; [|reflexivity].
    destruct (negb (seenKeyFrame t) && (lowBit b0 =? 1)); [apply IH|].
    destruct (match currentFrame t with None => true | Some _ => false end
              && negb (S v =? 1)); [apply IH|].
    destruct (negb (Marker p)); [now rewrite IH|].
    destruct (len (appendFrame (currentFrame t) (vp8Payload v)) =? 0);
      [now rewrite IH|].
    cbn [codec tevents frameCount].
    destruct (decode_frame D (codec t) _) as [c rc].
    destruct (negb (rc =? 0)).
    + rewrite IH. cbn [tevents]. rewrite !sent_app. simpl.
      now rewrite !app_nil_r.
    + destruct (saveFrames (frames D c) (frameCount t) _) as [n ev] eqn:Hsf.
      rewrite IH. cbn [tevents].
      pose proof (saveFrames_keeps (frames D c) (frameCount t)
                    (tevents t ++ [DecodeFrame
                       match appendFrame (currentFrame t) (vp8Payload v) with
                       | Some l => l
                       | None => []
                       end])) as (_ & _ & Hs).
      rewrite Hsf in Hs. cbn [snd] in Hs. rewrite Hs, sent_app. simpl.
      now rewrite app_nil_r.
Qed.

Lemma drain_Drains (fuel : nat) :
  forall (b b' : builder B) l, drain fuel b = Some (l, b') -> Drains b l b'.
Proof.
  induction fuel as [|fuel IH]; intros b b' l H; [discriminate|].
  cbn [drain] in H. destruct (Pop B b) as [[data|] b1] eqn:HP.
  - destruct (drain fuel b1) as [[l1 b2]|] eqn:Hd; [|discriminate].
    injection H as <- <-. eapply Drains_cons; [exact HP|now apply IH].
  - injection H as <- <-. now apply Drains_nil.
Qed.

Lemma feed_Feeds (fuel : nat) (packets : list Packet) :
  forall (b b' : builder B) l,
    feed fuel b packets = Some (l, b') -> Feeds b packets l b'.
Proof.
  induction packets as [|p packets IH]; intros b b' l H; cbn [feed] in H.
  - injection H as <- <-. constructor.
  - destruct (drain fuel (Push B b p)) as [[l1 b1]|] eqn:Hd; [|discriminate].
    destruct (feed fuel b1 packets) as [[l2 b2]|] eqn:Hf; [|discriminate].
    injection H as <- <-.
    eapply Feeds_cons; [eapply drain_Drains; exact Hd|now apply IH].
Qed.






(** One turn of the read loop on a packet that closes a frame the decoder
    accepts. *)
Lemma readLoop_accepted (p : Packet) (rest : list Packet) (t : Track D)
  (v : VP8Packet) (b0 : byte) (pl : list byte) :
  Unmarshal (Payload p) = Some v ->
  vp8Payload v = b0 :: pl ->
  seenKeyFrame t = true \/ lowBit b0 <> 1 ->
  currentFrame t <> None \/ S v = 1 ->
  Marker p = true ->
  let data := match currentFrame t with Some l => l | None => [] end
              ++ b0 :: pl in
  let c := fst (decode_frame D (codec t) data) in
  let imgs := filter matOk (frames D c) in
  snd (decode_frame D (codec t) data) = 0 ->
  exists added,
    readLoop Unmarshal (p :: rest) t
    = readLoop Unmarshal rest
        {| codec := c; currentFrame := None; seenKeyFrame := true;
           frameCount := frameCount t + Z.of_nat (List.length imgs);
           tevents := tevents t ++ DecodeFrame data :: added |}
    /\ saved added = map convert imgs
    /\ jpegNumbers added = countFrom (frameCount t) (List.length imgs)
    /\ sent added = [] /\ decodes added = []
    /\ (frames D c = [] -> added = []).
Proof.
  intros Hu Hv Hkey Hcur Hm. cbv zeta. intros Hrc.
  cbn [readLoop]. rewrite Hu, Hv. cbn [nth_error].
  assert (H1 : (negb (seenKeyFrame t) && (lowBit b0 =? 1)) = false).
  { destruct Hkey as [->|Hk]; [reflexivity|].
    apply Z.eqb_neq in Hk. rewrite Hk. apply andb_false_r. }
  rewrite H1.
  assert (H2 : (match currentFrame t with None => true | Some _ => false end
                && negb (S v =? 1)) = false).
  { destruct Hcur as [Hc|Hs].
    - destruct (currentFrame t); [reflexivity|now elim Hc].
    - rewrite Hs. cbn. apply andb_false_r. }
  rewrite H2. rewrite Hm. cbn [negb].
  assert (H3 : appendFrame (currentFrame t) (b0 :: pl)
               = Some (match currentFrame t with Some l => l | None => [] end
                       ++ b0 :: pl)).
  { destruct (currentFrame t); reflexivity. }
  rewrite H3.
  set (data := match currentFrame t with Some l => l | None => [] end
               ++ b0 :: pl) in *.
  assert (H4 : (len (Some data) =? 0) = false).
  { apply Z.eqb_neq. unfold len, data. rewrite length_app. cbn. lia. }
  rewrite H4. cbn [codec tevents frameCount].
  destruct (decode_frame D (codec t) data) as [c rc]. cbn [fst snd] in *.
  subst rc. cbn [Z.eqb negb].
  destruct (saveFrames_effect (frames D c) (frameCount t)
              (tevents t ++ [DecodeFrame data]))
    as (added & -> & Hs & Hj & Hsent & Hd & _ & Hnil).
  exists added. rewrite <- app_assoc. cbn [app]. repeat split; auto.
Qed.

End Paths.

(** C10. In the buffered path the header read indexes the sample at 0 and,
    on a keyframe, at 6 to 9, with no check of the length: the loop body
    panics exactly when the sample is empty or is a keyframe shorter than
    ten bytes.  So [PushVP8] is free of the index panic exactly when every
    sample the builder hands out meets that precondition, and the builder
    interface does not promise it: a builder that hands out a one-byte
    keyframe sample makes [PushVP8] panic. *)
Theorem C10_header_read_is_unguarded :
  (forall B D (s : WebmSaver B D) (data : list byte),
      isPanic (handleSample s data) = negb (headerReadable data))
  /\ (forall B D (s : WebmSaver B D) (p : Packet) samples b' fuel,
        Drains (Push B (vp8Builder s) p) samples b' ->
        (List.length samples < fuel)%nat ->
        exists o,
          PushVP8 fuel s p = Some o
          /\ isPanic o = negb (forallb headerReadable samples))
  /\ (exists o,
        PushVP8 2
          (newWebmSaver exampleBuilder
             (exampleDecoder (fun _ => false) (fun _ => [])))
          (whole 1 [x10]) = Some o
        /\ isPanic o = true).
Proof.
  split; [|split].
  - intros. apply handleSample_panics.
  - intros B D s p samples b' fuel HD Hf.
    destruct (PushVP8_Drains B D fuel s p samples b' HD Hf) as (b & Hp & _).
    eexists. split; [exact Hp|].
    rewrite isPanic_mapOutcome. apply handleSamples_panics.
  - eexists. split; reflexivity.
Qed.

(** C8 (amended). After a successful submission the buffered path asks the
    decoder for one image: when none is ready it logs an error and goes on
    to the next sample; otherwise it converts that first image and sends it
    to the image channel (when a matrix can be had).  The direct path,
    whenever a packet closes a frame and the decoder accepts the frame,
    walks all images ready in the decoder, none being no error: each image
    for which a matrix can be had is converted and handed to [IMWrite] under
    the next frame number, the others are skipped, and the frame count
    advances by the number of [IMWrite] calls, whatever they return; it
    sends nothing to a channel. *)
Theorem C8_images_fetched_after_submission :
  (forall B D (s : WebmSaver B D) (data : list byte),
      snd (decode_frame D (codecCtx s) data) = 0 ->
      match frames D (fst (decode_frame D (codecCtx s) data)) with
      | [] =>
          events (decodeSample s data)
          = events s ++ [DecodeFrame data;
                         LogError "Failed to get decoded frame"]
      | img :: _ =>
          matOk img = true ->
          events (decodeSample s data)
          = events s ++ [DecodeFrame data; Send (convert img)]
      end)
  /\ (forall D Unmarshal (p : Packet) (rest : list Packet) (t : Track D)
             (v : VP8Packet) (b0 : byte) (pl : list byte),
        Unmarshal (Payload p) = Some v ->
        vp8Payload v = b0 :: pl ->
        seenKeyFrame t = true \/ lowBit b0 <> 1 ->
        currentFrame t <> None \/ S v = 1 ->
        Marker p = true ->
        let data := match currentFrame t with Some l => l | None => [] end
                    ++ b0 :: pl in
        let c := fst (decode_frame D (codec t) data) in
        let imgs := filter matOk (frames D c) in
        snd (decode_frame D (codec t) data) = 0 ->
        exists added,
          readLoop Unmarshal (p :: rest) t
          = readLoop Unmarshal rest
              {| codec := c; currentFrame := None; seenKeyFrame := true;
                 frameCount := frameCount t + Z.of_nat (List.length imgs);
                 tevents := tevents t ++ DecodeFrame data :: added |}
          /\ saved added = map convert imgs
          /\ jpegNumbers added = countFrom (frameCount t) (List.length imgs)
          /\ sent added = [] /\ decodes added = []
          /\ (frames D c = [] -> added = []))
  /\ (forall D Unmarshal (packets : list Packet) (t : Track D),
        sent (tevents (reached (readLoop Unmarshal packets t)))
        = sent (tevents t)).
Proof.
  split; [|split].
  - intros B D s data Hrc. unfold decodeSample.
    destruct (decode_frame D (codecCtx s) data) as [c rc].
    cbn [fst snd] in *. subst rc. cbn [Z.eqb negb].
    destruct (frames D c) as [|img imgs].
    + unfold record. cbn [events]. now rewrite <- app_assoc.
    + intros Hm. unfold matOk in Hm. apply andb_true_iff in Hm as [He Hp].
      apply negb_true_iff in He. rewrite He.
      destruct (DataPtrUint8 D _); [discriminate Hp|].
      unfold record, convert. cbn [events]. now rewrite <- app_assoc.
  - intros D Unmarshal p rest t v b0 pl. apply readLoop_accepted.
  - intros. apply readLoop_sends_nothing.
Qed.

(** C8, as first stated, fails in both paths: in the buffered path a
    successful submission after which no image is ready is logged as an
    error, and of two ready images only the first is fetched and sent; in
    the direct path the images fetched are handed to [IMWrite] and not
    sent. *)
Lemma C8_counterexample_no_image_is_logged_as_error :
  let buffering := exampleDecoder (fun _ => false) (fun _ => []) in
  let eager := exampleDecoder (fun _ => false) (fun _ => [1; 2]%nat) in
  errors (events (reached
    (handleSample (newWebmSaver exampleBuilder buffering) key640x480)))
  = ["Failed to get decoded frame"]
  /\ sent (events (reached
       (handleSample (newWebmSaver exampleBuilder eager) key640x480)))
     = [convert (D := eager) 1%nat]
  /\ sent (tevents (reached
       (OnTrack eager exampleUnmarshal [whole 1 key640x480]))) = []
  /\ saved (tevents (reached
       (OnTrack eager exampleUnmarshal [whole 1 key640x480])))
     = [convert (D := eager) 1%nat; convert (D := eager) 2%nat].
Proof. cbv zeta. repeat split. Qed.

(** C7. The failing input of the direct path: two one-packet frames, the
    decoder rejecting the first submission.  The failed frame stays in
    [currentFrame], so the second submission is the first frame followed by
    the second, not the second frame. *)
Theorem C7_direct_path_resubmits_failed_frame :
  let D := exampleDecoder (Nat.eqb 0) (fun _ => []) in
  let out := OnTrack D exampleUnmarshal
               [whole 1 key640x480; whole 2 interframe] in
  isPanic out = false
  /\ decodes (tevents (reached out))
     = [key640x480; key640x480 ++ interframe]
  /\ errors (tevents (reached out))
     = ["Failed to decode frame"; "Error reading RTP"]
  /\ decodes (events (reached
       (handleSamples (newWebmSaver exampleBuilder D)
          [key640x480; interframe])))
     = [key640x480; interframe].
Proof. cbv zeta. repeat split. Qed.




(** A keyframe in one packet, after which two images are ready. *)
Lemma C8_witness :
  let D := exampleDecoder (fun _ => false) (fun _ => [1; 2]%nat) in
  let t := mkTrack (D := D) 0%nat (Some []) false 0 [InitDecoder 640 480] in
  snd (decode_frame D (codec t) key640x480) = 0
  /\ exists added,
       readLoop exampleUnmarshal [wholeAt 1 0 key640x480] t
       = readLoop exampleUnmarshal []
           (mkTrack (D := D) 1%nat None true 2
              (tevents t ++ DecodeFrame key640x480 :: added))
       /\ saved added = [convert (D := D) 1%nat; convert (D := D) 2%nat]
       /\ jpegNumbers added = [0; 1].
Proof.
  cbv zeta. split; [reflexivity|].
  destruct (proj1 (proj2 C8_images_fetched_after_submission)
              (exampleDecoder (fun _ => false) (fun _ => [1; 2]%nat))
              exampleUnmarshal (wholeAt 1 0 key640x480) []
              (mkTrack (D := exampleDecoder (fun _ => false)
                                (fun _ => [1; 2]%nat))
                 0%nat (Some []) false 0 [InitDecoder 640 480])
              (mkVP8 1 key640x480) x10
              [x02; x00; x9d; x01; x2a; x80; x02; xe0; x01; x00]
              eq_refl eq_refl)
    as (added & Hrun & Hs & Hj & _).
  - right. discriminate.
  - left. discriminate.
  - reflexivity.
  - reflexivity.
  - exists added. split; [exact Hrun|]. split; [exact Hs|exact Hj].
Defined.

Example C3_640x480 :
  inits (events (reached
    (handleSample
       (newWebmSaver exampleBuilder
          (exampleDecoder (fun _ => false) (fun _ => [])))
       key640x480)))
  = [(640, 480)].
Proof. reflexivity. Qed.

(** The keyframe header for 640 x 480 on a fresh saver. *)
Lemma C3_witness :
  nth_error key640x480 0 = Some x10
  /\ nth_error key640x480 6 = Some x80 /\ nth_error key640x480 7 = Some x02
  /\ nth_error key640x480 8 = Some xe0 /\ nth_error key640x480 9 = Some x01
  /\ exists s',
       handleSample
         (newWebmSaver exampleBuilder
            (exampleDecoder (fun _ => false) (fun _ => [])))
         key640x480 = Ok s'
       /\ inits (events s') = [(640, 480)].
Proof.
  repeat (split; [reflexivity|]).
  destruct (C3_keyframe_geometry_initializes_decoder
              exampleBuilder
              (exampleDecoder (fun _ => false) (fun _ => []))
              (newWebmSaver exampleBuilder
                 (exampleDecoder (fun _ => false) (fun _ => [])))
              key640x480 x10 x80 x02 xe0 x01
              eq_refl eq_refl eq_refl eq_refl eq_refl)
    as (_ & _ & Hkey & _).
  destruct (Hkey eq_refl eq_refl) as (s' & rest & Hs & _ & _ & _ & _ & H640).
  exists s'. split; [exact Hs|exact (H640 eq_refl eq_refl)].
Defined.

End AssemblerFacts.

(** ** More on the signaling session *)
Module SignalingLaws.
Import Strings StringsFacts Signaling SignalingFacts.

Lemma forwarded_relay (J : Json) (recv : list string) :
  forwarded (relay J recv)
  = map (fun cj => Remote (toInit cj)) (decodable J recv).
Proof.
  induction recv as [|raw recv IH]; [reflexivity|].
  cbn [relay decodable]. destruct (unmarshalCandidate J raw); simpl; congruence.
Qed.

Lemma logged_app (a b : list Effect) : logged (a ++ b) = logged a ++ logged b.
Proof. induction a as [|[] a IH]; simpl; congruence. Qed.

Lemma logged_relay (J : Json) (recv : list string) :
  logged (relay J recv)
  = repeat "unmarshal error"
      (List.length recv - List.length (decodable J recv)).
Proof.
  induction recv as [|raw recv IH]; [reflexivity|].
  assert (Hle : (List.length (decodable J recv) <= List.length recv)%nat).
  { clear. induction recv as [|raw recv IH]; simpl; [lia|].
    destruct (unmarshalCandidate J raw); simpl; lia. }
  cbn [relay decodable]. destruct (unmarshalCandidate J raw); cbn [logged].
  - rewrite IH. reflexivity.
  - rewrite IH. cbn [List.length].
    replace (Datatypes.S (List.length recv) - List.length (decodable J recv))%nat
      with (Datatypes.S (List.length recv - List.length (decodable J recv)))
      by lia.
    reflexivity.
Qed.

(** Once the answer is out, [Spin] forwards to the negotiator the offer and
    then exactly the candidate records that decode, in arrival order and
    each once; every record that does not decode leaves one error line and
    nothing else. *)
Theorem Spin_relays_decodable_candidates_in_order
  (J : Json) (negotiate : SessionDescription -> option SessionDescription)
  (sid nameIn cfgMessage payload raw : string) (recv : list string)
  (sdp answer : SessionDescription) :
  marshalActions J (composeActions sid nameIn) = Some cfgMessage ->
  unmarshalSD J raw = Some sdp ->
  negotiate sdp = Some answer ->
  marshalSD J (patchAnswer answer) = Some payload ->
  forwarded (fst (Spin J negotiate true sid nameIn (raw :: recv)))
  = Offer sdp :: map (fun cj => Remote (toInit cj)) (decodable J recv)
  /\ logged (fst (Spin J negotiate true sid nameIn (raw :: recv)))
     = repeat "unmarshal error"
         (List.length recv - List.length (decodable J recv)).
Proof.
  intros Hcfg Hsdp Hneg Hpay. unfold Spin. cbn [negb].
  rewrite Hcfg, Hsdp, Hneg, Hpay. cbn [fst]. split.
  - rewrite !forwarded_app, forwarded_relay. reflexivity.
  - rewrite !logged_app, logged_relay. reflexivity.
Qed.

Lemma Spin_relays_witness :
  marshalActions exampleJson (composeActions "s" "cam") = Some "ros_image:/cam"
  /\ unmarshalSD exampleJson "o" = Some (mkSD "offer" "o")
  /\ forwarded (fst (Spin exampleJson exampleNegotiate true "s" "cam"
                       ["o"; "bad"; "c1"; "bad"; "c2"]))
     = [Offer (mkSD "offer" "o");
        Remote (toInit (mkICEJSON "c1" "0" 0 ""));
        Remote (toInit (mkICEJSON "c2" "0" 0 ""))].
Proof.
  split; [reflexivity|]. split; [reflexivity|].
  exact (proj1 (Spin_relays_decodable_candidates_in_order exampleJson
                  exampleNegotiate "s" "cam" "ros_image:/cam"
                  "v=0 m=video 9 UDP am=video 0" "o"
                  ["bad"; "c1"; "bad"; "c2"] (mkSD "offer" "o")
                  (mkSD "answer" "v=0 m=video 0 UDP am=video 0")
                  eq_refl eq_refl eq_refl eq_refl)).
Defined.

(** Whatever arrives, [Spin] writes at most two messages on the transport,
    none of them in the relay loop; and when it returns or panics nothing
    has been forwarded to the negotiator. *)
Theorem Spin_writes_at_most_twice
  (J : Json) (negotiate : SessionDescription -> option SessionDescription)
  (dialed : bool) (sid nameIn : string) (recv : list string) :
  (List.length (written (fst (Spin J negotiate dialed sid nameIn recv))) <= 2)%nat
  /\ (snd (Spin J negotiate dialed sid nameIn recv) <> Waiting ->
      forwarded (fst (Spin J negotiate dialed sid nameIn recv)) = []
      /\ (List.length (written (fst (Spin J negotiate dialed sid nameIn recv)))
          <= 1)%nat).
Proof.
  unfold Spin. destruct dialed; cbn [negb]; [|split; [simpl; lia|auto]].
  destruct (marshalActions J (composeActions sid nameIn)) as [cfgMessage|];
    [|split; [simpl; lia|auto]].
  destruct recv as [|raw recv]; [split; [simpl; lia|intros H; now elim H]|].
  destruct (unmarshalSD J raw) as [sdp|]; [|split; [simpl; lia|auto]].
  destruct (negotiate sdp) as [answer|];
    [|split; [simpl; lia|intros H; now elim H]].
  cbn [fst snd]. split; [|intros H; now elim H].
  change (written ([WriteMessage cfgMessage; SendSDP sdp] ++ ?x))
    with (cfgMessage :: written x).
  rewrite written_app, written_relay, app_nil_r.
  destruct (marshalSD J (patchAnswer answer)); simpl; lia.
Qed.

Lemma Replace_one (s old new : string) :
  old <> new ->
  0 <= Index s old ->
  exists pre post,
    s = (pre ++ old ++ post)%string
    /\ Replace s old new 1 = (pre ++ new ++ post)%string.
Proof.
  intros Hne Hj. destruct (Index_found s old Hj) as [(pre & post & Hs & Hl) _].
  exists pre, post. split; [exact Hs|].
  cbn [Replace]. destruct (String.eqb_spec old new) as [->|_]; [congruence|].
  destruct (Index s old <? 0) eqn:E; [apply Z.ltb_lt in E; lia|].
  rewrite <- Hl. rewrite Hs at 1 2.
  rewrite take_app.
  replace (pre ++ old ++ post)%string with ((pre ++ old) ++ post)%string
    by apply append_assoc.
  rewrite <- append_length, drop_app. reflexivity.
Qed.

Lemma get_app (a b : string) (i : nat) :
  String.get i (a ++ b)
  = if (i <? String.length a)%nat then String.get i a
    else String.get (i - String.length a) b.
Proof.
  revert i. induction a as [|c a IH]; intros i.
  - cbn. now rewrite Nat.sub_0_r.
  - destruct i as [|i]; [reflexivity|]. cbn [append String.get String.length].
    rewrite IH. reflexivity.
Qed.

(** The answer patch keeps the type of the description and the length of
    its body, and it changes at most one character of the body: every
    character but the one at some offset [j] is as before, and if the
    character at [j] differs it was the digit 0 and is now the digit 9. *)
Theorem patchAnswer_changes_at_most_one_character (answer : SessionDescription) :
  sdType (patchAnswer answer) = sdType answer
  /\ String.length (SDP (patchAnswer answer)) = String.length (SDP answer)
  /\ exists j : nat,
       (forall i : nat,
           i <> j ->
           String.get i (SDP (patchAnswer answer)) = String.get i (SDP answer))
       /\ (String.get j (SDP (patchAnswer answer)) = String.get j (SDP answer)
           \/ (String.get j (SDP answer) = Some "0"%char
               /\ String.get j (SDP (patchAnswer answer)) = Some "9"%char)).
Proof.
  split; [reflexivity|]. unfold patchAnswer. cbn [SDP].
  destruct (Z.lt_ge_cases (Index (SDP answer) "m=video 0") 0) as [Hneg|Hj].
  - rewrite Replace_absent by now apply Index_absent.
    split; [reflexivity|]. exists 0%nat. split; [reflexivity|now left].
  - destruct (Replace_one (SDP answer) "m=video 0" "m=video 9")
      as (pre & post & Hs & ->); [discriminate|exact Hj|].
    rewrite Hs. split; [now rewrite !append_length|].
    exists (String.length pre + 8)%nat. split.
    + intros i Hi. rewrite !get_app.
      destruct (i <? String.length pre)%nat eqn:L; [reflexivity|].
      apply Nat.ltb_ge in L.
      remember (i - String.length pre)%nat as k eqn:Hk.
      assert (Hk8 : k <> 8%nat) by lia. clear - Hk8.
      do 8 (destruct k as [|k]; [reflexivity|]).
      destruct k as [|k]; [now elim Hk8|reflexivity].
    + right. rewrite !get_app.
      replace (String.length pre + 8 <? String.length pre)%nat with false
        by (symmetry; apply Nat.ltb_ge; lia).
      replace (String.length pre + 8 - String.length pre)%nat with 8%nat by lia.
      split; reflexivity.
Qed.

Example patchAnswer_example :
  SDP (patchAnswer (mkSD "answer" "v=0 m=video 0 UDP am=video 0"))
  = "v=0 m=video 9 UDP am=video 0".
Proof. reflexivity. Qed.

Lemma append_inj_l (p a b : string) : (p ++ a = p ++ b)%string -> a = b.
Proof. induction p as [|c p IH]; simpl; intros H; [exact H|]. injection H; auto. Qed.

(** Distinct random numbers give distinct stream tokens. *)
Theorem newStreamId_injective (n m : Z) :
  newStreamId n = newStreamId m -> n = m.
Proof.
  unfold newStreamId, Itoa. intros H. apply append_inj_l in H.
  assert (Hi : Z.to_int n = Z.to_int m).
  { pose proof (DecimalString.NilEmpty.isi (Z.to_int n)) as Hn.
    pose proof (DecimalString.NilEmpty.isi (Z.to_int m)) as Hm.
    rewrite H in Hn. congruence. }
  rewrite <- (DecimalZ.of_to n), <- (DecimalZ.of_to m). now rewrite Hi.
Qed.

Example newStreamId_example :
  newStreamId 123456789 = "webrtc_ros-stream-123456789".
Proof. reflexivity. Qed.

Lemma newStreamId_witness :
  newStreamId 7 = newStreamId (3 + 4) /\ 7 = 3 + 4.
Proof.
  split; [reflexivity|].
  exact (newStreamId_injective 7 (3 + 4) eq_refl).
Defined.

(** On a dialed channel [SignalCandidate] writes one message for every
    candidate and returns no error; when the message does not marshal it
    logs the error and writes the empty payload. *)
Theorem SignalCandidate_writes_once_and_returns_nil
  (marshalMsg : CandidateMsg -> option string) (candidate : ICECandidateInit) :
  exists effects,
    SignalCandidate marshalMsg true candidate = Ok (effects, None)
    /\ List.length (written effects) = 1%nat
    /\ (marshalMsg (mkCandidateMsg "ice_candidate" (Candidate candidate)
                      (SDPMid candidate) (SDPMLineIndex candidate)) = None ->
        effects = [LogError "marshal error"; WriteMessage ""])
    /\ signalError marshalMsg candidate = None.
Proof.
  unfold signalError, SignalCandidate.
  destruct (marshalMsg _) as [p|]; eexists; repeat split.
  intros H. discriminate H.
Qed.

End SignalingLaws.

(** ** More on the session negotiator *)
Module NegotiatorLaws.
Import Signaling Negotiator NegotiatorFacts.

Section Channel.
Variable E : Engine.
Variable signalCandidate : ICECandidateInit -> error.

Lemma applied_app (a b : list (Thread * Event)) :
  applied (a ++ b) = applied a ++ applied b.
Proof.
  induction a as [|[w e] a IH]; simpl; [reflexivity|].
  destruct e; simpl; congruence.
Qed.

Lemma flushes_app (a b : list (Thread * Event)) :
  flushes (a ++ b) = (flushes a + flushes b)%nat.
Proof.
  induction a as [|[w e] a IH]; simpl; [reflexivity|].
  destruct w, e; simpl; congruence.
Qed.

Lemma signalledBy_app (who : Thread) (a b : list (Thread * Event)) :
  signalledBy who (a ++ b) = signalledBy who a ++ signalledBy who b.
Proof.
  induction a as [|[w e] a IH]; simpl; [reflexivity|].
  destruct w, e, who; simpl; congruence.
Qed.

Lemma applied_flushTrace (cs : list (ICECandidate E)) :
  applied (flushTrace cs) = [].
Proof. induction cs; simpl; auto. Qed.

Lemma flushes_flushTrace (cs : list (ICECandidate E)) :
  flushes (flushTrace cs) = 0%nat.
Proof. induction cs; simpl; auto. Qed.

Lemma signalledBy_flushTrace (cs : list (ICECandidate E)) :
  signalledBy Dispatcher (flushTrace cs) = map (ToJSON E) cs.
Proof. induction cs; simpl; congruence. Qed.

(** However a flush ends, it has signalled a prefix of the buffer and left
    the channel otherwise as it was. *)
Lemma signalAll_reached cs (pc : PeerConnectionChannel E) :
  exists k,
    reached (signalAll signalCandidate cs pc)
    = mkPC (peerConnection pc) (remoteDescription pc) (pendingCandidates pc)
        (trace pc ++ flushTrace (firstn k cs)).
Proof.
  revert pc. induction cs as [|c cs IH]; intros pc.
  - exists 0%nat. simpl. rewrite app_nil_r. destruct pc; reflexivity.
  - cbn [signalAll]. destruct (signalCandidate (ToJSON E c)).
    + exists 1%nat. reflexivity.
    + destruct (IH (emit Dispatcher (ESignal (ToJSON E c)) pc)) as (k & Hk).
      exists (Datatypes.S k). rewrite Hk. simpl. now rewrite <- app_assoc.
Qed.

(** The trace a callback adds holds no engine call and no dispatcher
    event, and the callback leaves the engine alone. *)
Lemma OnICECandidate_reached c (pc : PeerConnectionChannel E) :
  exists ext,
    trace (reached (OnICECandidate signalCandidate c pc)) = trace pc ++ ext
    /\ applied ext = [] /\ flushes ext = 0%nat
    /\ signalledBy Dispatcher ext = []
    /\ remoteDescription (reached (OnICECandidate signalCandidate c pc))
       = remoteDescription pc.
Proof.
  destruct c as [c|]; [|exists []; simpl; rewrite app_nil_r; auto].
  unfold OnICECandidate. cbn [emit remoteDescription].
  destruct (remoteDescription pc) eqn:R.
  - destruct (signalCandidate (ToJSON E c)); eexists; cbn;
      rewrite <- ?app_assoc; repeat split; auto.
  - eexists; cbn; rewrite <- ?app_assoc; repeat split; auto.
Qed.

Lemma run_invariant (P : Config E -> Prop) :
  (forall t cfg, P cfg -> P (reached (tick signalCandidate t cfg))) ->
  forall sched cfg, P cfg -> P (reached (run signalCandidate sched cfg)).
Proof.
  intros Hstep. induction sched as [|t sched IH]; intros cfg HP; [exact HP|].
  cbn [run]. pose proof (Hstep t cfg HP) as H1.
  destruct (tick signalCandidate t cfg) as [c1|c1]; [apply IH, H1|exact H1].
Qed.

Lemma run_Ok_invariant (P : Config E -> Prop) :
  (forall t cfg cfg', P cfg -> tick signalCandidate t cfg = Ok cfg' -> P cfg') ->
  forall sched cfg cfg',
    P cfg -> run signalCandidate sched cfg = Ok cfg' -> P cfg'.
Proof.
  intros Hstep. induction sched as [|t sched IH]; intros cfg cfg' HP Hr.
  - injection Hr as <-. exact HP.
  - cbn [run] in Hr.
    destruct (tick signalCandidate t cfg) as [c1|c1] eqn:Ht; [|discriminate].
    exact (IH _ _ (Hstep _ _ _ HP Ht) Hr).
Qed.

(** The dispatcher hands the messages of its inbox to the engine in the
    order it received them, each once: at any moment, also after a panic,
    the messages applied, the one in hand and those still in the inbox make
    up the inbox it started with. *)
Theorem dispatcher_applies_messages_in_order
  (e : engine E) (p0 : list (ICECandidate E)) (msgs : list Msg)
  (sched : list (Tick E)) :
  let cfg := reached (run signalCandidate sched (start e p0 msgs)) in
  applied (trace (chan cfg)) ++ inHand (point cfg) ++ inbox cfg = msgs.
Proof.
  cbv zeta.
  apply (run_invariant
           (fun cfg => applied (trace (chan cfg)) ++ inHand (point cfg)
                        ++ inbox cfg = msgs)); [|reflexivity].
  clear. intros t cfg H. destruct t as [|c]; cbn [tick].
  - unfold handleSignalingMessage.
    destruct (point cfg) eqn:Pt; cbn [inHand] in H.
    + destruct (inbox cfg) as [|[sdp|cand] rest] eqn:I; cbn; rewrite ?Pt, ?I;
        exact H.
    + destruct (SetRemoteDescription E _ sdp) as [e1 [err|]]; cbn;
        rewrite applied_app; cbn; rewrite <- app_assoc; exact H.
    + destruct (CreateAnswer E _) as [[e1 answer] [err|]]; cbn;
        rewrite applied_app; cbn; rewrite app_nil_r; exact H.
    + cbn. rewrite applied_app. cbn. rewrite app_nil_r. exact H.
    + destruct (SetLocalDescription E _ answer) as [e1 [err|]]; cbn;
        rewrite applied_app; cbn; rewrite app_nil_r; exact H.
    + destruct (signalAll_reached (pendingCandidates (emit Dispatcher ELock (chan cfg)))
                  (emit Dispatcher ELock (chan cfg))) as (k & Hk).
      destruct (signalAll signalCandidate _ _) as [pc|pc]; cbn [reached] in *;
        subst pc; cbn; rewrite !applied_app, applied_flushTrace; cbn;
        rewrite ?app_nil_r; exact H.
    + destruct (AddICECandidate E _ candidate) as [e1 [err|]]; cbn;
        rewrite applied_app; cbn; rewrite <- app_assoc; exact H.
  - destruct (OnICECandidate_reached c (chan cfg)) as (ext & Ht & Ha & _).
    destruct (OnICECandidate signalCandidate c (chan cfg)) as [pc|pc];
      cbn [reached] in *; cbn; rewrite Ht, applied_app, Ha, app_nil_r;
      exact H.
Qed.

Lemma concat_repeat_snoc {A : Type} (x : list A) (k : nat) :
  List.concat (repeat x (Datatypes.S k)) = List.concat (repeat x k) ++ x.
Proof.
  change (repeat x (Datatypes.S k)) with (x :: repeat x k).
  rewrite repeat_cons, concat_app. simpl. now rewrite app_nil_r.
Qed.

(** What one step that does not panic does to the buffer, the remote
    description and the signals. *)
Ltac effect_side :=
  repeat split; auto; try discriminate; try congruence;
  try (apply incl_appl, incl_refl); try apply incl_refl.

Lemma tick_Ok_effect (t : Tick E) (cfg cfg' : Config E) :
  tick signalCandidate t cfg = Ok cfg' ->
  (remoteDescription (chan cfg) <> None ->
   remoteDescription (chan cfg') <> None
   /\ pendingCandidates (chan cfg') = pendingCandidates (chan cfg))
  /\ (remoteDescription (chan cfg) = None ->
      pendingCandidates (chan cfg')
      = pendingCandidates (chan cfg) ++ discovered [t])
  /\ incl (signalled (trace (chan cfg')))
       (signalled (trace (chan cfg))
          ++ map (ToJSON E) (pendingCandidates (chan cfg) ++ discovered [t])).
Proof.
  destruct t as [|[c|]]; cbn [tick discovered].
  - intros H. unfold handleSignalingMessage in H.
    destruct (point cfg) eqn:Pt.
    + assert (Hc : chan cfg' = chan cfg)
        by (destruct (inbox cfg) as [|[sdp|cand] rest]; injection H as <-;
            reflexivity).
      rewrite Hc, ?app_nil_r. effect_side.
    + destruct (SetRemoteDescription E _ sdp) as [e1 [err|]]; [discriminate|].
      injection H as <-. cbn. rewrite ?signalled_app, ?app_nil_r. cbn.
      rewrite ?app_nil_r.
      effect_side.
    + destruct (CreateAnswer E _) as [[e1 answer] [err|]]; [discriminate|].
      injection H as <-. cbn. rewrite ?signalled_app, ?app_nil_r. cbn.
      rewrite ?app_nil_r. effect_side.
    + injection H as <-. cbn. rewrite ?signalled_app, ?app_nil_r. cbn.
      rewrite ?app_nil_r. effect_side.
    + destruct (SetLocalDescription E _ answer) as [e1 [err|]]; [discriminate|].
      injection H as <-. cbn. rewrite ?signalled_app, ?app_nil_r. cbn.
      rewrite ?app_nil_r. effect_side.
    + destruct (signalAll signalCandidate _ _) as [pc|pc] eqn:F; [|discriminate].
      injection H as <-. apply signalAll_Ok in F. subst pc.
      cbn [chan goto emit trace pendingCandidates remoteDescription
           peerConnection].
      rewrite !signalled_app, signalled_flushTrace. cbn [signalled].
      rewrite ?app_nil_r. effect_side.
    + destruct (AddICECandidate E _ candidate) as [e1 [err|]]; [discriminate|].
      injection H as <-. cbn. rewrite ?signalled_app, ?app_nil_r. cbn.
      rewrite ?app_nil_r. effect_side.
  - destruct (OnICECandidate signalCandidate (Some c) (chan cfg)) as [pc|pc] eqn:Cb;
      [|discriminate].
    intros [= <-]. cbn [chan goto].
    destruct (remoteDescription (chan cfg)) eqn:R.
    + assert (R' : remoteDescription (chan cfg) <> None) by congruence.
      destruct (OnICECandidate_signals E signalCandidate _ _ c R' Cb)
        as (Hp & Hr & _ & Htr).
      rewrite Hp, Hr, Htr, R, signalled_app. cbn.
      repeat split; auto; try congruence.
      apply incl_app; [apply incl_appl, incl_refl|].
      apply incl_appr. rewrite map_app. apply incl_appr. apply incl_refl.
    + destruct (OnICECandidate_queues E signalCandidate (chan cfg) c R)
        as (pc' & Hq & Hp & Hr & _ & Htr).
      rewrite Hq in Cb. injection Cb as <-.
      rewrite Hp, Htr, signalled_app. cbn. rewrite ?app_nil_r.
      effect_side.
  - intros [= <-]. cbn. rewrite ?app_nil_r. effect_side.
Qed.

(** The dispatcher is between its second and its last step of an SDP event
    only with a remote description applied; while none is applied a step
    signals nothing. *)
Lemma tick_Ok_quiet (t : Tick E) (cfg cfg' : Config E) :
  (betweenPoint (point cfg) = true -> remoteDescription (chan cfg) <> None) ->
  tick signalCandidate t cfg = Ok cfg' ->
  (betweenPoint (point cfg') = true -> remoteDescription (chan cfg') <> None)
  /\ (remoteDescription (chan cfg') = None ->
      remoteDescription (chan cfg) = None
      /\ signalled (trace (chan cfg')) = signalled (trace (chan cfg))).
Proof.
  intros W. destruct t as [|[c|]]; cbn [tick].
  - intros H. unfold handleSignalingMessage in H.
    destruct (point cfg) eqn:Pt; cbn [betweenPoint] in W.
    + destruct (inbox cfg) as [|[sdp|cand] rest]; injection H as <-; cbn;
        rewrite ?Pt; split; auto; discriminate.
    + destruct (SetRemoteDescription E _ sdp) as [e1 [err|]]; [discriminate|].
      injection H as <-. cbn. split; [discriminate|discriminate].
    + destruct (CreateAnswer E _) as [[e1 answer] [err|]]; [discriminate|].
      injection H as <-. cbn. rewrite signalled_app, app_nil_r. auto.
    + injection H as <-. cbn. rewrite signalled_app, app_nil_r. auto.
    + destruct (SetLocalDescription E _ answer) as [e1 [err|]]; [discriminate|].
      injection H as <-. cbn. rewrite signalled_app, app_nil_r. auto.
    + destruct (signalAll signalCandidate _ _) as [pc|pc] eqn:F; [|discriminate].
      injection H as <-. apply signalAll_Ok in F. subst pc. cbn.
      split; [discriminate|]. intros R. now elim (W eq_refl).
    + destruct (AddICECandidate E _ candidate) as [e1 [err|]]; [discriminate|].
      injection H as <-. cbn. rewrite signalled_app, app_nil_r.
      split; [discriminate|auto].
  - destruct (OnICECandidate signalCandidate (Some c) (chan cfg)) as [pc|pc] eqn:Cb;
      [|discriminate].
    intros [= <-]. cbn [chan goto point].
    destruct (remoteDescription (chan cfg)) eqn:R.
    + assert (R' : remoteDescription (chan cfg) <> None) by congruence.
      destruct (OnICECandidate_signals E signalCandidate _ _ c R' Cb)
        as (_ & Hr & _ & _).
      rewrite Hr, R. split; [discriminate|discriminate].
    + destruct (OnICECandidate_queues E signalCandidate (chan cfg) c R)
        as (pc' & Hq & _ & Hr & _ & Htr).
      rewrite Hq in Cb. injection Cb as <-.
      rewrite Hr, Htr, signalled_app, app_nil_r. auto.
  - intros [= <-]. cbn. auto.
Qed.

(** Whatever the inbox holds, no candidate is signalled before a remote
    description is applied: as long as none is, every candidate discovered
    so far sits in the buffer, in discovery order, behind the candidates
    the channel was created with. *)
Theorem nothing_signalled_before_remote_description
  (e : engine E) (p0 : list (ICECandidate E)) (msgs : list Msg)
  (sched : list (Tick E)) (cfg : Config E) :
  run signalCandidate sched (start e p0 msgs) = Ok cfg ->
  remoteDescription (chan cfg) = None ->
  signalled (trace (chan cfg)) = []
  /\ pendingCandidates (chan cfg) = p0 ++ discovered sched.
Proof.
  intros Hrun Hnone.
  assert (G : forall sched (c0 c1 : Config E),
             (betweenPoint (point c0) = true ->
              remoteDescription (chan c0) <> None) ->
             run signalCandidate sched c0 = Ok c1 ->
             remoteDescription (chan c1) = None ->
             signalled (trace (chan c1)) = signalled (trace (chan c0))
             /\ pendingCandidates (chan c1)
                = pendingCandidates (chan c0) ++ discovered sched
             /\ remoteDescription (chan c0) = None).
  { clear. induction sched as [|t sched IH]; intros c0 c1 W Hr Hn.
    - injection Hr as <-. cbn. rewrite app_nil_r. auto.
    - cbn [run] in Hr.
      destruct (tick signalCandidate t c0) as [cm|cm] eqn:Ht; [|discriminate].
      destruct (tick_Ok_quiet _ _ _ W Ht) as (Wm & Hq).
      destruct (IH _ _ Wm Hr Hn) as (Hs & Hp & Hm).
      destruct (Hq Hm) as (H0 & Hs0).
      destruct (tick_Ok_effect _ _ _ Ht) as (_ & Hgrow & _).
      split; [congruence|]. split; [|exact H0].
      rewrite Hp, (Hgrow H0), <- app_assoc.
      change (t :: sched) with ([t] ++ sched). now rewrite discovered_app. }
  destruct (G sched (start e p0 msgs) cfg ltac:(cbn; discriminate) Hrun Hnone)
    as (Hs & Hp & _).
  split; [exact Hs|exact Hp].
Qed.

(** The buffer only grows, by candidates discovered and in their order, and
    once a remote description is applied neither the buffer nor the fact
    that one is applied changes any more. *)
Theorem pending_buffer_grows_then_freezes
  (sched : list (Tick E)) (cfg cfg' : Config E) :
  run signalCandidate sched cfg = Ok cfg' ->
  (exists n,
      pendingCandidates (chan cfg')
      = pendingCandidates (chan cfg) ++ firstn n (discovered sched))
  /\ (remoteDescription (chan cfg) <> None ->
      remoteDescription (chan cfg') <> None
      /\ pendingCandidates (chan cfg') = pendingCandidates (chan cfg)).
Proof.
  intros Hrun.
  assert (Hfrozen : remoteDescription (chan cfg) <> None ->
                    remoteDescription (chan cfg') <> None
                    /\ pendingCandidates (chan cfg')
                       = pendingCandidates (chan cfg)).
  { intros R.
    apply (run_Ok_invariant
             (fun c => remoteDescription (chan c) <> None
                       /\ pendingCandidates (chan c)
                          = pendingCandidates (chan cfg)))
      with (sched := sched) (cfg := cfg); [|auto|exact Hrun].
    intros t c c' [Rc Pc] Ht.
    destruct (tick_Ok_effect _ _ _ Ht) as (Hf & _).
    destruct (Hf Rc) as (R' & P'). split; [exact R'|congruence]. }
  split; [|exact Hfrozen].
  clear Hfrozen. revert cfg cfg' Hrun.
  induction sched as [|t sched IH]; intros cfg cfg' Hrun.
  - injection Hrun as <-. exists 0%nat. cbn. now rewrite app_nil_r.
  - cbn [run] in Hrun.
    destruct (tick signalCandidate t cfg) as [cm|cm] eqn:Ht; [|discriminate].
    destruct (tick_Ok_effect _ _ _ Ht) as (Hf & Hgrow & _).
    destruct (remoteDescription (chan cfg)) eqn:R.
    + exists 0%nat. cbn. rewrite app_nil_r.
      destruct (Hf ltac:(discriminate)) as (Rm & Pm).
      assert (Hfz : remoteDescription (chan cfg') <> None
                    /\ pendingCandidates (chan cfg') = pendingCandidates (chan cm)).
      { apply (run_Ok_invariant
                 (fun c => remoteDescription (chan c) <> None
                           /\ pendingCandidates (chan c)
                              = pendingCandidates (chan cm)))
          with (sched := sched) (cfg := cm); [|auto|exact Hrun].
        intros t' c c' [Rc Pc] Ht'.
        destruct (tick_Ok_effect _ _ _ Ht') as (Hf' & _).
        destruct (Hf' Rc) as (R'' & P''). split; [exact R''|congruence]. }
      destruct Hfz as (_ & ->). exact Pm.
    + destruct (IH _ _ Hrun) as (n & Hn).
      exists (List.length (discovered [t]) + n)%nat.
      rewrite Hn, (Hgrow eq_refl), <- app_assoc. f_equal.
      change (t :: sched) with ([t] ++ sched). rewrite discovered_app.
      rewrite firstn_app_2. reflexivity.
Qed.

(** Only candidates the channel was created with or that were discovered
    are ever signalled. *)
Theorem only_known_candidates_are_signalled
  (e : engine E) (p0 : list (ICECandidate E)) (msgs : list Msg)
  (sched : list (Tick E)) (cfg : Config E) :
  run signalCandidate sched (start e p0 msgs) = Ok cfg ->
  incl (signalled (trace (chan cfg)))
    (map (ToJSON E) (p0 ++ discovered sched)).
Proof.
  intros Hrun.
  assert (G : forall sched (c0 c1 : Config E),
             run signalCandidate sched c0 = Ok c1 ->
             incl (signalled (trace (chan c1)))
               (signalled (trace (chan c0))
                  ++ map (ToJSON E)
                       (pendingCandidates (chan c0) ++ discovered sched))
             /\ incl (pendingCandidates (chan c1))
                  (pendingCandidates (chan c0) ++ discovered sched)).
  { clear. induction sched as [|t sched IH]; intros c0 c1 Hr.
    - injection Hr as <-. cbn. rewrite app_nil_r.
      split; [apply incl_appl|]; apply incl_refl.
    - cbn [run] in Hr.
      destruct (tick signalCandidate t c0) as [cm|cm] eqn:Ht; [|discriminate].
      destruct (IH _ _ Hr) as (Hs & Hp).
      destruct (tick_Ok_effect _ _ _ Ht) as (Hf & Hgrow & Hi).
      assert (Hpm : incl (pendingCandidates (chan cm))
                      (pendingCandidates (chan c0) ++ discovered [t])).
      { destruct (remoteDescription (chan c0)) eqn:R.
        - destruct (Hf ltac:(discriminate)) as (_ & ->).
          apply incl_appl, incl_refl.
        - rewrite (Hgrow eq_refl). apply incl_refl. }
      change (t :: sched) with ([t] ++ sched). rewrite discovered_app.
      assert (Hall : incl (pendingCandidates (chan cm) ++ discovered sched)
                       (pendingCandidates (chan c0)
                          ++ discovered [t] ++ discovered sched)).
      { rewrite app_assoc. apply incl_app.
        - apply incl_appl. exact Hpm.
        - apply incl_appr, incl_refl. }
      split.
      + intros x Hx. apply Hs in Hx. apply in_app_or in Hx as [Hx|Hx].
        * apply Hi in Hx. apply in_app_or in Hx as [Hx|Hx];
            [apply in_or_app; now left|].
          apply in_or_app. right. rewrite app_assoc, map_app.
          apply in_or_app. now left.
        * apply in_or_app. right.
          apply in_map_iff in Hx as (y & <- & Hy).
          apply in_map, Hall, Hy.
      + intros x Hx. apply Hp in Hx. apply Hall. exact Hx. }
  destruct (G sched _ _ Hrun) as (Hs & _). exact Hs.
Qed.

(** Every remote-description event that is handled to its end signals the
    whole buffer once more: the dispatcher's signals are the buffer, over
    and over, once per completed flush, and the flushes completed and the
    offers still open add up to the offers received. *)
Theorem every_offer_flushes_the_whole_buffer
  (e : engine E) (p0 : list (ICECandidate E)) (msgs : list Msg)
  (sched : list (Tick E)) (cfg : Config E) :
  run signalCandidate sched (start e p0 msgs) = Ok cfg ->
  signalledBy Dispatcher (trace (chan cfg))
  = List.concat (repeat (map (ToJSON E) (pendingCandidates (chan cfg)))
                   (flushes (trace (chan cfg))))
  /\ (flushes (trace (chan cfg)) + offersOpen cfg = offers msgs)%nat.
Proof.
  intros Hrun.
  enough (H : (signalledBy Dispatcher (trace (chan cfg))
               = List.concat (repeat (map (ToJSON E) (pendingCandidates (chan cfg)))
                                (flushes (trace (chan cfg))))
               /\ (flushes (trace (chan cfg)) + offersOpen cfg = offers msgs)%nat)
              /\ (remoteDescription (chan cfg) = None ->
                  flushes (trace (chan cfg)) = 0%nat)
              /\ (betweenPoint (point cfg) = true ->
                  remoteDescription (chan cfg) <> None))
    by (destruct H as (H & _); exact H).
  apply (run_Ok_invariant
           (fun c => (signalledBy Dispatcher (trace (chan c))
                      = List.concat (repeat (map (ToJSON E) (pendingCandidates (chan c)))
                                       (flushes (trace (chan c))))
                      /\ (flushes (trace (chan c)) + offersOpen c = offers msgs)%nat)
                     /\ (remoteDescription (chan c) = None ->
                         flushes (trace (chan c)) = 0%nat)
                     /\ (betweenPoint (point c) = true ->
                         remoteDescription (chan c) <> None)))
    with (sched := sched) (cfg := start e p0 msgs); [| |exact Hrun].
  2:{ cbn. unfold offersOpen. cbn. repeat split; auto; try lia; discriminate. }
  clear. intros t c c' ((Hs & Hk) & Hz & W) Ht.
  destruct t as [|[cand|]]; cbn [tick] in Ht.
  - unfold handleSignalingMessage in Ht. unfold offersOpen in *.
    destruct (point c) eqn:Pt; cbn [betweenPoint] in W.
    + destruct (inbox c) as [|[sdp|cd] rest] eqn:I; injection Ht as <-; cbn;
        rewrite ?Pt, ?I; cbn in *; repeat split; auto; try lia;
        discriminate.
    + destruct (SetRemoteDescription E _ sdp) as [e1 [err|]]; [discriminate|].
      injection Ht as <-. cbn.
      rewrite signalledBy_app, flushes_app. cbn. rewrite app_nil_r, Nat.add_0_r.
      repeat split; auto; try lia; discriminate.
    + destruct (CreateAnswer E _) as [[e1 answer] [err|]]; [discriminate|].
      injection Ht as <-. cbn.
      rewrite signalledBy_app, flushes_app. cbn. rewrite app_nil_r, Nat.add_0_r.
      repeat split; auto; lia.
    + injection Ht as <-. cbn.
      rewrite signalledBy_app, flushes_app. cbn. rewrite app_nil_r, Nat.add_0_r.
      repeat split; auto; lia.
    + destruct (SetLocalDescription E _ answer) as [e1 [err|]]; [discriminate|].
      injection Ht as <-. cbn.
      rewrite signalledBy_app, flushes_app. cbn. rewrite app_nil_r, Nat.add_0_r.
      repeat split; auto; lia.
    + destruct (signalAll signalCandidate _ _) as [pc|pc] eqn:F; [|discriminate].
      injection Ht as <-. apply signalAll_Ok in F. subst pc.
      cbn [chan goto emit trace pendingCandidates remoteDescription
           peerConnection point inbox betweenPoint].
      rewrite !signalledBy_app, !flushes_app, signalledBy_flushTrace,
        flushes_flushTrace.
      cbn [signalledBy flushes]. rewrite !app_nil_r, !Nat.add_0_r.
      replace (flushes (trace (chan c)) + 1)%nat
        with (Datatypes.S (flushes (trace (chan c)))) by lia.
      rewrite concat_repeat_snoc, <- Hs.
      repeat split; auto; try lia; try discriminate.
      intros R. now elim (W eq_refl).
    + destruct (AddICECandidate E _ candidate) as [e1 [err|]]; [discriminate|].
      injection Ht as <-. cbn.
      rewrite signalledBy_app, flushes_app. cbn. rewrite app_nil_r, Nat.add_0_r.
      repeat split; auto; try lia; discriminate.
  - destruct (OnICECandidate signalCandidate (Some cand) (chan c)) as [pc|pc] eqn:Cb;
      [|discriminate].
    injection Ht as <-. unfold offersOpen in *.
    cbn [chan goto point inbox].
    destruct (remoteDescription (chan c)) eqn:R.
    + assert (R' : remoteDescription (chan c) <> None) by congruence.
      destruct (OnICECandidate_signals E signalCandidate _ _ cand R' Cb)
        as (Hp & Hr & _ & Htr).
      rewrite Hp, Hr, Htr, signalledBy_app, flushes_app. cbn.
      rewrite app_nil_r, Nat.add_0_r.
      repeat split; auto; congruence.
    + destruct (OnICECandidate_queues E signalCandidate (chan c) cand R)
        as (pc' & Hq & Hp & Hr & _ & Htr).
      rewrite Hq in Cb. injection Cb as <-.
      rewrite Hr, Htr, signalledBy_app, flushes_app. cbn.
      rewrite app_nil_r, Nat.add_0_r.
      rewrite (Hz eq_refl) in *. cbn.
      repeat split; auto; try (intros B; now elim (W B)).
  - injection Ht as <-. unfold offersOpen in *. cbn. repeat split; auto.
Qed.

(** With an engine that accepts everything and a signalling function that
    returns no error, no schedule makes the dispatcher or the callback
    panic. *)
Lemma run_never_panics :
  accepting E ->
  (forall c, signalCandidate c = None) ->
  forall (sched : list (Tick E)) (cfg : Config E),
    isPanic (run signalCandidate sched cfg) = false.
Proof.
  intros (A1 & A2 & A3 & A4) Hsig.
  assert (Hall : forall cs (pc : PeerConnectionChannel E),
             isPanic (signalAll signalCandidate cs pc) = false).
  { induction cs as [|c cs IH]; intros pc; [reflexivity|].
    cbn [signalAll]. rewrite Hsig. apply IH. }
  induction sched as [|t sched IH]; intros cfg; [reflexivity|].
  cbn [run].
  assert (Ht : isPanic (tick signalCandidate t cfg) = false).
  { destruct t as [|[c|]]; cbn [tick].
    - unfold handleSignalingMessage. destruct (point cfg).
      + destruct (inbox cfg) as [|[sdp|cd] rest]; reflexivity.
      + pose proof (A1 (peerConnection (emit Dispatcher
                      (ESetRemoteDescription sdp) (chan cfg))) sdp) as H.
        destruct (SetRemoteDescription E _ sdp) as [e1 err]. cbn in H.
        now subst err.
      + pose proof (A2 (peerConnection (emit Dispatcher ECreateAnswer
                                          (chan cfg)))) as H.
        destruct (CreateAnswer E _) as [[e1 answer] err]. cbn in H.
        now subst err.
      + reflexivity.
      + pose proof (A3 (peerConnection (emit Dispatcher
                      (ESetLocalDescription answer) (chan cfg))) answer) as H.
        destruct (SetLocalDescription E _ answer) as [e1 err]. cbn in H.
        now subst err.
      + pose proof (Hall (pendingCandidates (emit Dispatcher ELock (chan cfg)))
                      (emit Dispatcher ELock (chan cfg))) as H.
        destruct (signalAll signalCandidate _ _); [reflexivity|discriminate H].
      + pose proof (A4 (peerConnection (emit Dispatcher
                      (EAddICECandidate candidate) (chan cfg))) candidate) as H.
        destruct (AddICECandidate E _ candidate) as [e1 err]. cbn in H.
        now subst err.
    - unfold OnICECandidate. cbn [emit remoteDescription].
      destruct (remoteDescription (chan cfg)); [|reflexivity].
      now rewrite Hsig.
    - reflexivity. }
  destruct (tick signalCandidate t cfg) as [c1|c1]; [apply IH|discriminate Ht].
Qed.

(** The negotiator panics only on an error of a collaborator.  The
    candidate callback panics exactly when a remote description is applied
    and [signalCandidate] returns an error for the candidate; the flush
    panics exactly when [signalCandidate] returns an error for one of the
    buffered candidates; and with an engine whose calls all succeed and a
    [signalCandidate] that returns no error, no interleaving of the
    dispatcher and the callback panics, from any configuration. *)
Theorem negotiator_panics_only_on_collaborator_error :
  (forall (c : option (ICECandidate E)) (pc : PeerConnectionChannel E),
      isPanic (OnICECandidate signalCandidate c pc)
      = match c, remoteDescription pc with
        | Some cand, Some _ =>
            match signalCandidate (ToJSON E cand) with
            | Some _ => true
            | None => false
            end
        | _, _ => false
        end)
  /\ (forall (cs : list (ICECandidate E)) (pc : PeerConnectionChannel E),
        isPanic (signalAll signalCandidate cs pc)
        = existsb (fun c => match signalCandidate (ToJSON E c) with
                            | Some _ => true
                            | None => false
                            end) cs)
  /\ (accepting E ->
      (forall c, signalCandidate c = None) ->
      forall (sched : list (Tick E)) (cfg : Config E),
        isPanic (run signalCandidate sched cfg) = false).
Proof.
  split; [|split].
  - intros [cand|] pc; [|reflexivity]. unfold OnICECandidate.
    cbn [emit remoteDescription].
    destruct (remoteDescription pc); [|reflexivity].
    destruct (signalCandidate (ToJSON E cand)); reflexivity.
  - induction cs as [|c cs IH]; intros pc; [reflexivity|].
    cbn [signalAll existsb].
    destruct (signalCandidate (ToJSON E c)); [reflexivity|apply IH].
  - apply run_never_panics.
Qed.

End Channel.

Lemma negotiator_never_panics_witness :
  accepting exampleEngine
  /\ isPanic (run exampleSignal
                [found "c1"; step; step; step; step; step; step; found "c2"]
                (exampleStart [] [FromSdpChan (mkSD "offer" "o")])) = false.
Proof.
  assert (HA : accepting exampleEngine) by (repeat split).
  split; [exact HA|].
  exact (proj2 (proj2 (negotiator_panics_only_on_collaborator_error
                         exampleEngine exampleSignal))
           HA (fun _ => eq_refl)
           [found "c1"; step; step; step; step; step; step; found "c2"]
           (exampleStart [] [FromSdpChan (mkSD "offer" "o")])).
Defined.

Lemma offers_inboxOf_relay (J : Json) (recv : list string) :
  offers (inboxOf (forwarded (relay J recv))) = 0%nat.
Proof.
  induction recv as [|raw recv IH]; [reflexivity|].
  cbn [relay]. destruct (unmarshalCandidate J raw); cbn; exact IH.
Qed.

(** [Spin] sends on [sdpChan] once at most, whatever the transport
    delivers, and ahead of every candidate: if it sends anything to the
    negotiator, the first thing is the offer and nothing after it is a
    session description.  The dispatcher's inbox therefore holds exactly
    one remote-description event in every session that gets as far as the
    negotiator. *)
Theorem Spin_sends_one_offer
  (J : Json) (negotiate : SessionDescription -> option SessionDescription)
  (dialed : bool) (sid nameIn : string) (recv : list string) :
  let msgs := inboxOf (forwarded (fst (Spin J negotiate dialed sid nameIn recv))) in
  (offers msgs <= 1)%nat
  /\ (msgs <> [] ->
      exists raw sdp rest,
        hd_error recv = Some raw
        /\ unmarshalSD J raw = Some sdp
        /\ msgs = FromSdpChan sdp :: rest
        /\ offers rest = 0%nat).
Proof.
  cbv zeta. unfold Spin.
  destruct dialed; cbn [negb]; [|split; [cbn; lia|intros H; now elim H]].
  destruct (marshalActions J (composeActions sid nameIn)) as [cfgMessage|];
    [|split; [cbn; lia|intros H; now elim H]].
  destruct recv as [|raw recv]; [split; [cbn; lia|intros H; now elim H]|].
  destruct (unmarshalSD J raw) as [sdp|] eqn:Hsdp;
    [|split; [cbn; lia|intros H; now elim H]].
  destruct (negotiate sdp) as [answer|].
  - cbn [fst].
    assert (Hf : inboxOf (forwarded
                   ([WriteMessage cfgMessage; SendSDP sdp]
                      ++ match marshalSD J (patchAnswer answer) with
                         | Some payload => [WriteMessage payload]
                         | None => [LogError "marshal error"; WriteMessage ""]
                         end ++ relay J recv))
                 = FromSdpChan sdp :: inboxOf (forwarded (relay J recv))).
    { destruct (marshalSD J (patchAnswer answer)); reflexivity. }
    rewrite Hf. cbn [offers]. rewrite offers_inboxOf_relay.
    split; [lia|]. intros _. exists raw, sdp, (inboxOf (forwarded (relay J recv))).
    repeat split; auto. apply offers_inboxOf_relay.
  - cbn. split; [lia|]. intros _. exists raw, sdp, []. repeat split; auto.
Qed.

Lemma Spin_sends_one_offer_witness :
  inboxOf (forwarded (fst (Spin exampleJson exampleNegotiate true "s" "cam"
                             ["o"; "c1"; "bad"])))
  = [FromSdpChan (mkSD "offer" "o");
     FromCandidateChan (toInit (mkICEJSON "c1" "0" 0 ""))]
  /\ offers (inboxOf (forwarded (fst (Spin exampleJson exampleNegotiate true
                                        "s" "cam" ["o"; "c1"; "bad"])))) = 1%nat.
Proof.
  split; [reflexivity|].
  destruct (proj2 (Spin_sends_one_offer exampleJson exampleNegotiate true
                     "s" "cam" ["o"; "c1"; "bad"]))
    as (raw & sdp & rest & _ & _ & Hm & Hr); [discriminate|].
  rewrite Hm. cbn [offers]. now rewrite Hr.
Defined.

Lemma nothing_signalled_witness :
  run exampleSignal [found "c1"; step; found "c2"; gathered]
    (exampleStart ["c0"] [FromSdpChan (mkSD "offer" "o")])
  = Ok (mkConfig
          (mkPC (E := exampleEngine) tt None ["c0"; "c1"; "c2"]
             [(Callback, ELock); (Callback, EUnlock);
              (Callback, ELock); (Callback, EUnlock)])
          (AtSetRemoteDescription (mkSD "offer" "o")) [])
  /\ pendingCandidates
       (mkPC (E := exampleEngine) tt None ["c0"; "c1"; "c2"]
          [(Callback, ELock); (Callback, EUnlock);
           (Callback, ELock); (Callback, EUnlock)])
     = ["c0"] ++ discovered [found "c1"; step; found "c2"; gathered].
Proof.
  split; [reflexivity|].
  exact (proj2 (nothing_signalled_before_remote_description exampleEngine
                  exampleSignal tt ["c0"] [FromSdpChan (mkSD "offer" "o")]
                  [found "c1"; step; found "c2"; gathered] _
                  eq_refl eq_refl)).
Defined.

Lemma pending_buffer_witness :
  let sched := [found "c1"; step; step; found "c2"; step; found "c3"] in
  let cfg := exampleStart ["c0"] [FromSdpChan (mkSD "offer" "o")] in
  isPanic (run exampleSignal sched cfg) = false
  /\ exists n,
       pendingCandidates (chan (reached (run exampleSignal sched cfg)))
       = pendingCandidates (chan cfg) ++ firstn n (discovered sched).
Proof.
  cbv zeta. split; [vm_compute; reflexivity|].
  eassert (H : run exampleSignal
                 [found "c1"; step; step; found "c2"; step; found "c3"]
                 (exampleStart ["c0"] [FromSdpChan (mkSD "offer" "o")])
               = Ok _) by (vm_compute; reflexivity).
  destruct (pending_buffer_grows_then_freezes exampleEngine exampleSignal
              _ _ _ H) as ((n & Hn) & _).
  exists n. rewrite H. exact Hn.
Defined.

Lemma only_known_candidates_witness :
  let sched := [found "c1"; step; step; found "c2"; step; step; step; step] in
  let cfg := exampleStart ["c0"] [FromSdpChan (mkSD "offer" "o")] in
  isPanic (run exampleSignal sched cfg) = false
  /\ incl (signalled (trace (chan (reached (run exampleSignal sched cfg)))))
       (map (ToJSON exampleEngine) (["c0"] ++ discovered sched)).
Proof.
  cbv zeta. split; [vm_compute; reflexivity|].
  eassert (H : run exampleSignal
                 [found "c1"; step; step; found "c2"; step; step; step; step]
                 (exampleStart ["c0"] [FromSdpChan (mkSD "offer" "o")])
               = Ok _) by (vm_compute; reflexivity).
  rewrite H.
  exact (only_known_candidates_are_signalled exampleEngine exampleSignal tt
           ["c0"] _ _ _ H).
Defined.

Lemma every_offer_flushes_witness :
  let sched := found "c1" :: repeat step 12 in
  let msgs := [FromSdpChan (mkSD "offer" "o1");
               FromSdpChan (mkSD "offer" "o2")] in
  isPanic (run exampleSignal sched (exampleStart ["c0"] msgs)) = false
  /\ signalledBy Dispatcher
       (trace (chan (reached (run exampleSignal sched
                                (exampleStart ["c0"] msgs)))))
     = List.concat (repeat [mkICEInit "c0" None None; mkICEInit "c1" None None]
                      2).
Proof.
  cbv zeta. split; [vm_compute; reflexivity|].
  eassert (H : run exampleSignal (found "c1" :: repeat step 12)
                 (exampleStart ["c0"]
                    [FromSdpChan (mkSD "offer" "o1");
                     FromSdpChan (mkSD "offer" "o2")])
               = Ok _) by (vm_compute; reflexivity).
  rewrite H.
  exact (proj1 (every_offer_flushes_the_whole_buffer exampleEngine
                  exampleSignal tt ["c0"] _ _ _ H)).
Defined.

End NegotiatorLaws.

(** ** More on the frame assembler *)
Module AssemblerLaws.
Import Assembler AssemblerFacts.

Section Paths.
Variable B : SampleBuilder.
Variable D : Decoder.
Variable Unmarshal : list byte -> option VP8Packet.

(** What the loop body adds to the trace, however it ends. *)
Lemma handleSample_effect (s : WebmSaver B D) (data : list byte) :
  exists ini rest,
    events (reached (handleSample s data)) = events s ++ ini ++ rest
    /\ inits rest = [] /\ sent ini = [] /\ decodes ini = []
    /\ (List.length (inits ini) <= 1)%nat
    /\ (codecCreated s = true -> ini = [])
    /\ (codecCreated s = true ->
        codecCreated (reached (handleSample s data)) = true)
    /\ (List.length (sent rest) <= 1)%nat
    /\ (decodes rest = [] \/ (decodes rest = [data] /\ data <> [])).
Proof.
  unfold handleSample, readHeader, at_.
  destruct data as [|b0 data].
  { exists [], []. cbn. rewrite app_nil_r. repeat split; auto. }
  change (nth_error (b0 :: data) 0) with (Some b0). cbn [option_map].
  assert (Hdec : forall s1 : WebmSaver B D,
             exists rest,
               events (decodeSample s1 (b0 :: data)) = events s1 ++ rest
               /\ inits rest = [] /\ (List.length (sent rest) <= 1)%nat
               /\ decodes rest = [b0 :: data]
               /\ codecCreated (decodeSample s1 (b0 :: data)) = codecCreated s1).
  { intros s1. unfold decodeSample.
    destruct (decode_frame D (codecCtx s1) (b0 :: data)) as [c rc].
    destruct (rc =? 0); cbn [negb].
    - destruct (frames D c) as [|img imgs].
      + eexists. cbn. rewrite <- app_assoc. repeat split; auto.
      + destruct (Empty D _).
        * eexists. cbn. rewrite <- app_assoc. repeat split; auto.
        * destruct (DataPtrUint8 D _); eexists; cbn; rewrite <- app_assoc;
            repeat split; auto.
    - eexists. cbn. rewrite <- app_assoc. repeat split; auto. }
  destruct (videoKeyframe (u8 b0)).
  - destruct (nth_error (b0 :: data) 6) as [b6|];
      [|exists [], []; cbn; rewrite app_nil_r; repeat split; auto].
    destruct (nth_error (b0 :: data) 7) as [b7|];
      [|exists [], []; cbn; rewrite app_nil_r; repeat split; auto].
    destruct (nth_error (b0 :: data) 8) as [b8|];
      [|exists [], []; cbn; rewrite app_nil_r; repeat split; auto].
    destruct (nth_error (b0 :: data) 9) as [b9|];
      [|exists [], []; cbn; rewrite app_nil_r; repeat split; auto].
    cbn [option_map]. destruct (codecCreated s) eqn:C.
    + destruct (Hdec s) as (rest & E & I & S1 & D1 & C1).
      exists [], rest. cbn [reached app]. rewrite E.
      repeat split; auto; try congruence.
      right. split; [exact D1|discriminate].
    + set (w := widthOf _). set (h := heightOf _).
      destruct (InitWriter_events B D s w h) as (r1 & E1 & I1 & D1 & S1 & C1 & _).
      destruct (Hdec (InitWriter s w h)) as (rest & E & I & S2 & D2 & C2).
      exists (InitDecoder w h :: r1), rest. cbn [reached].
      rewrite E, E1, <- app_assoc. cbn [inits sent decodes List.length].
      rewrite I1, S1, D1.
      repeat split; auto; try discriminate.
      right. split; [exact D2|discriminate].
  - destruct (Hdec s) as (rest & E & I & S1 & D1 & C1).
    exists [], rest. cbn [reached app]. rewrite E.
    repeat split; auto; try congruence.
    right. split; [exact D1|discriminate].
Qed.

(** Over any run of samples the buffered path initializes the decoder at
    most once, and never when a decoder already counts as created; this
    holds also when the initialization failed, which is never retried. *)
Theorem decoder_initialized_at_most_once (samples : list (list byte)) :
  forall s : WebmSaver B D,
    (List.length (inits (events (reached (handleSamples s samples))))
     <= List.length (inits (events s)) + 1)%nat
    /\ (codecCreated s = true ->
        inits (events (reached (handleSamples s samples))) = inits (events s)).
Proof.
  assert (Hcreated : forall samples (s : WebmSaver B D),
             codecCreated s = true ->
             inits (events (reached (handleSamples s samples)))
             = inits (events s)).
  { clear samples. induction samples as [|data samples IH]; intros s C;
      [reflexivity|].
    cbn [handleSamples].
    destruct (handleSample_effect s data)
      as (ini & rest & E & I & _ & _ & _ & Hini & Hc & _).
    rewrite (Hini C) in E. cbn [app] in E. specialize (Hc C).
    destruct (handleSample s data) as [s1|s1]; cbn [reached] in *.
    - rewrite (IH s1 Hc), E, inits_app, I. apply app_nil_r.
    - rewrite E, inits_app, I. apply app_nil_r. }
  induction samples as [|data samples IH]; intros s.
  { cbn. split; [lia|reflexivity]. }
  split; [|apply Hcreated].
  cbn [handleSamples].
  destruct (handleSample_effect s data)
    as (ini & rest & E & I & _ & _ & L & Hini & Hc & _).
  destruct (codecCreated s) eqn:C.
  - pose proof (Hcreated (data :: samples) s C) as H.
    cbn [handleSamples] in H. rewrite H. lia.
  - destruct (handleSample s data) as [s1|s1] eqn:Hs; cbn [reached] in *.
    + destruct (inits ini) as [|g gs] eqn:Hg.
      * destruct (IH s1) as (Hle & _).
        rewrite E, !inits_app, Hg, I in Hle. cbn in Hle.
        rewrite app_nil_r in Hle. exact Hle.
      * assert (C1 : codecCreated s1 = true).
        { revert Hs. unfold handleSample, readHeader.
          destruct (at_ data 0) as [b0|]; [|discriminate].
          destruct (videoKeyframe b0).
          - destruct (at_ data 6), (at_ data 7), (at_ data 8), (at_ data 9);
              try discriminate.
            rewrite C. intros [= <-].
            destruct (decodeSample_events B D
                        (InitWriter s (widthOf (rawGeometry z z0 z1 z2))
                           (heightOf (rawGeometry z z0 z1 z2))) data)
              as (r & _ & _ & _ & -> & _).
            destruct (InitWriter_events B D s
                        (widthOf (rawGeometry z z0 z1 z2))
                        (heightOf (rawGeometry z z0 z1 z2)))
              as (r1 & _ & _ & _ & _ & -> & _).
            reflexivity.
          - intros [= <-].
            destruct (decodeSample_events B D s data) as (r & Er & Ir & _).
            rewrite Er in E. apply app_inv_head in E.
            assert (Hx : inits (DecodeFrame data :: r) = inits (ini ++ rest))
              by now rewrite E.
            rewrite inits_app, Hg, I in Hx. cbn in Hx. rewrite Ir in Hx.
            discriminate Hx. }
        rewrite (Hcreated samples s1 C1), E, !inits_app, I, Hg.
        rewrite app_nil_r, length_app. cbn in L |- *. lia.
    + rewrite E, !inits_app, I, app_nil_r, length_app. lia.
Qed.

(** Every sample the builder hands out is submitted to the decoder, once
    and in pop order, as long as the header reads succeed; a rejected
    submission holds up none of the later ones.  With fuel for every sample
    [PushVP8] returns for every packet. *)
Theorem every_sample_is_submitted_once_in_order
  (fuel : nat) (s : WebmSaver B D) (packets : list Packet)
  (samples : list (list byte)) (b' : builder B) :
  Feeds (vp8Builder s) packets samples b' ->
  forallb headerReadable samples = true ->
  (List.length samples < fuel)%nat ->
  exists s',
    pushAll fuel s packets = Some (Ok s')
    /\ decodes (events s') = decodes (events s) ++ samples.
Proof.
  intros HF Hr Hf.
  destruct (pushAll_Feeds B D fuel packets s samples b' HF Hf) as (b & Hp).
  destruct (handleSamples_decodes B D samples s Hr) as (s1 & Hs & Hd).
  rewrite Hs in Hp. exists (withBuilder b s1). split; [exact Hp|exact Hd].
Qed.

(** Samples ahead of any keyframe are submitted all the same: interframes
    never initialize the decoder and never panic, so a stream that opens
    with interframes has them decoded by a decoder that was never
    initialized. *)
Theorem interframes_are_submitted_without_decoder
  (samples : list (list byte)) :
  forall s : WebmSaver B D,
    forallb isInterframe samples = true ->
    exists s',
      handleSamples s samples = Ok s'
      /\ inits (events s') = inits (events s)
      /\ codecCreated s' = codecCreated s
      /\ decodes (events s') = decodes (events s) ++ samples.
Proof.
  induction samples as [|data samples IH]; intros s Hi.
  - exists s. rewrite app_nil_r. auto.
  - cbn [forallb] in Hi. apply andb_true_iff in Hi as [Hd Hi].
    destruct data as [|b0 data]; [discriminate Hd|]. cbn [isInterframe] in Hd.
    cbn [handleSamples]. unfold handleSample.
    rewrite (readHeader_interframe B D s (b0 :: data) b0 eq_refl Hd).
    destruct (decodeSample_events B D s (b0 :: data))
      as (r & E & I & Dr & C & _).
    destruct (IH (decodeSample s (b0 :: data)) Hi) as (s' & Hs & Hin & Hc & Hdec).
    exists s'. split; [exact Hs|]. split; [|split; [congruence|]].
    + rewrite Hin, E, inits_app. cbn. now rewrite I, app_nil_r.
    + rewrite Hdec, E, decodes_app. cbn. rewrite Dr, <- app_assoc.
      reflexivity.
Qed.

(** The buffered path sends at most one image for each sample. *)
Theorem at_most_one_image_per_sample (samples : list (list byte)) :
  forall s : WebmSaver B D,
    (List.length (sent (events (reached (handleSamples s samples))))
     <= List.length (sent (events s)) + List.length samples)%nat.
Proof.
  induction samples as [|data samples IH]; intros s; [cbn; lia|].
  cbn [handleSamples].
  destruct (handleSample_effect s data)
    as (ini & rest & E & _ & Si & _ & _ & _ & _ & Sr & _).
  assert (Hone : (List.length (sent (events (reached (handleSample s data))))
                  <= List.length (sent (events s)) + 1)%nat).
  { rewrite E, !sent_app, Si, !length_app. cbn. lia. }
  destruct (handleSample s data) as [s1|s1]; cbn [reached List.length] in *.
  - specialize (IH s1). lia.
  - lia.
Qed.

(** The buffered path never submits an empty buffer to the decoder. *)
Lemma handleSamples_submits_nonempty (samples : list (list byte)) :
  forall s : WebmSaver B D,
    Forall (fun d => d <> []) (decodes (events s)) ->
    Forall (fun d => d <> [])
      (decodes (events (reached (handleSamples s samples)))).
Proof.
  induction samples as [|data samples IH]; intros s Hs; [exact Hs|].
  cbn [handleSamples].
  destruct (handleSample_effect s data)
    as (ini & rest & E & _ & _ & Di & _ & _ & _ & _ & Dr).
  assert (H1 : Forall (fun d => d <> [])
                 (decodes (events (reached (handleSample s data))))).
  { rewrite E, !decodes_app, Di. cbn [app]. apply Forall_app. split; [exact Hs|].
    destruct Dr as [->|[-> Hne]]; [constructor|].
    constructor; [exact Hne|constructor]. }
  destruct (handleSample s data) as [s1|s1]; cbn [reached] in *.
  - apply IH, H1.
  - exact H1.
Qed.

(** *** The direct path *)

Lemma countFrom_app (a b : nat) : forall n : Z,
  countFrom n (a + b) = countFrom n a ++ countFrom (n + Z.of_nat a) b.
Proof.
  induction a as [|a IH]; intros n.
  - cbn. now rewrite Z.add_0_r.
  - cbn [countFrom Nat.add app]. rewrite IH.
    replace (n + 1 + Z.of_nat a) with (n + Z.of_nat (Datatypes.S a)) by lia.
    reflexivity.
Qed.

(** The calls of [IMWrite] of one walk over the ready images are numbered
    from the current frame count on, without a gap. *)
Lemma saveFrames_numbers (imgs : list (image D)) :
  forall (n : Z) (ev : list (Event D)),
    exists k : nat,
      fst (saveFrames imgs n ev) = n + Z.of_nat k
      /\ jpegNumbers (snd (saveFrames imgs n ev))
         = jpegNumbers ev ++ countFrom n k.
Proof.
  induction imgs as [|img imgs IH]; intros n ev.
  - exists 0%nat. cbn. rewrite app_nil_r. split; [lia|reflexivity].
  - cbn [saveFrames]. destruct (Empty D _).
    + destruct (IH n (ev ++ [LogError "Failed to create Mat"])) as (k & Hn & Hj).
      exists k. rewrite Hn, Hj, jpegNumbers_app. cbn. now rewrite app_nil_r.
    + destruct (DataPtrUint8 D _).
      * destruct (IH n (ev ++ [LogError "Failed to get Mat data pointer"]))
          as (k & Hn & Hj).
        exists k. rewrite Hn, Hj, jpegNumbers_app. cbn. now rewrite app_nil_r.
      * destruct (IMWrite D n _).
        -- destruct (IH (n + 1) (ev ++ [WriteJPEG n (copy_frame_to_mat D img
                       (NewMatWithSize D (d_h D img) (d_w D img))
                       (d_w D img) (d_h D img))])) as (k & Hn & Hj).
           exists (Datatypes.S k). rewrite Hn, Hj, jpegNumbers_app. cbn.
           rewrite <- app_assoc. split; [lia|reflexivity].
        -- destruct (IH (n + 1) ((ev ++ [WriteJPEG n (copy_frame_to_mat D img
                       (NewMatWithSize D (d_h D img) (d_w D img))
                       (d_w D img) (d_h D img))])
                       ++ [LogError "Failed to write image"])) as (k & Hn & Hj).
           exists (Datatypes.S k). rewrite Hn, Hj, !jpegNumbers_app. cbn.
           rewrite app_nil_r, <- app_assoc. split; [lia|reflexivity].
Qed.

(** The read loop keeps a well-numbered trace well numbered, adds no
    decoder initialization and submits no empty buffer. *)
Lemma readLoop_keeps (packets : list Packet) :
  forall t : Track D,
    0 <= frameCount t ->
    jpegNumbers (tevents t) = countFrom 0 (Z.to_nat (frameCount t)) ->
    Forall (fun d => d <> []) (decodes (tevents t)) ->
    let t' := reached (readLoop Unmarshal packets t) in
    0 <= frameCount t'
    /\ jpegNumbers (tevents t') = countFrom 0 (Z.to_nat (frameCount t'))
    /\ Forall (fun d => d <> []) (decodes (tevents t'))
    /\ inits (tevents t') = inits (tevents t).
Proof.
  cbv zeta. induction packets as [|p packets IH]; intros t Hn Hj Hd.
  - cbn. rewrite jpegNumbers_app, decodes_app, inits_app. cbn.
    rewrite !app_nil_r. auto.
  - cbn [readLoop].
    destruct (Unmarshal (Payload p)) as [v|]; [|cbn; auto].
    destruct (nth_error (vp8Payload v) 0) as [b0|]; [|cbn; auto].
    destruct (negb (seenKeyFrame t) && (lowBit b0 =? 1)); [now apply IH|].
    destruct (match currentFrame t with None => true | Some _ => false end
              && negb (S v =? 1)); [now apply IH|].
    destruct (negb (Marker p)); [now apply (IH (mkTrack _ _ _ _ _))|].
    destruct (len (appendFrame (currentFrame t) (vp8Payload v)) =? 0) eqn:L;
      [now apply (IH (mkTrack _ _ _ _ _))|].
    cbn [codec tevents frameCount].
    assert (Hne : match appendFrame (currentFrame t) (vp8Payload v) with
                  | Some l => l
                  | None => []
                  end <> []).
    { apply Z.eqb_neq in L. unfold len in L.
      destruct (appendFrame (currentFrame t) (vp8Payload v)) as [l|];
        [|now elim L].
      intros ->. now elim L. }
    set (data := match appendFrame (currentFrame t) (vp8Payload v) with
                 | Some l => l
                 | None => []
                 end) in *.
    destruct (decode_frame D (codec t) data) as [c rc].
    destruct (negb (rc =? 0)).
    + destruct (IH (mkTrack c (appendFrame (currentFrame t) (vp8Payload v)) true
                      (frameCount t)
                      ((tevents t ++ [DecodeFrame data])
                         ++ [LogError "Failed to decode frame"])))
        as (H1 & H2 & H3 & H4); cbn [frameCount tevents].
      * exact Hn.
      * rewrite !jpegNumbers_app. cbn. now rewrite !app_nil_r.
      * rewrite !decodes_app. cbn. rewrite app_nil_r.
        apply Forall_app. split; [exact Hd|]. constructor; [exact Hne|constructor].
      * cbn [tevents] in H4. rewrite H4, !inits_app. cbn.
        rewrite !app_nil_r. auto.
    + destruct (saveFrames_numbers (frames D c) (frameCount t)
                  (tevents t ++ [DecodeFrame data])) as (k & Hk & Hjk).
      pose proof (saveFrames_keeps D (frames D c) (frameCount t)
                    (tevents t ++ [DecodeFrame data])) as (Hsd & Hsi & _).
      destruct (saveFrames (frames D c) (frameCount t)
                  (tevents t ++ [DecodeFrame data])) as [n ev].
      cbn [fst snd] in *.
      destruct (IH (mkTrack c None true n ev)) as (H1 & H2 & H3 & H4);
        cbn [frameCount tevents].
      * lia.
      * rewrite Hjk, jpegNumbers_app, Hj. cbn [jpegNumbers]. rewrite app_nil_r.
        subst n. replace (Z.to_nat (frameCount t + Z.of_nat k))
          with (Z.to_nat (frameCount t) + k)%nat by lia.
        rewrite countFrom_app.
        replace (0 + Z.of_nat (Z.to_nat (frameCount t))) with (frameCount t)
          by lia.
        reflexivity.
      * rewrite Hsd, decodes_app. cbn.
        apply Forall_app. split; [exact Hd|]. constructor; [exact Hne|constructor].
      * cbn [tevents] in H4. rewrite H4, Hsi, inits_app. cbn.
        rewrite app_nil_r. auto.
Qed.





(** The direct path initializes the decoder once, with 640 x 480, before
    it reads a packet, and never again: the geometry of the keyframes it
    receives plays no part. *)
Theorem direct_path_initializes_once_with_640x480 (packets : list Packet) :
  inits (tevents (reached (OnTrack D Unmarshal packets))) = [(640, 480)].
Proof.
  unfold OnTrack.
  destruct (init_decoder D (zeroCtx D) 640 480) as [c rc].
  destruct (negb (rc =? 0)); [reflexivity|].
  destruct (readLoop_keeps packets
              (mkTrack c (Some []) false 0 [InitDecoder 640 480]))
    as (_ & _ & _ & H); cbn; auto; lia.
Qed.

(** Neither path ever hands the decoder an empty buffer. *)
Theorem no_empty_submission :
  (forall samples : list (list byte),
      Forall (fun d => d <> [])
        (decodes (events (reached (handleSamples (newWebmSaver B D) samples)))))
  /\ (forall packets : list Packet,
        Forall (fun d => d <> [])
          (decodes (tevents (reached (OnTrack D Unmarshal packets))))).
Proof.
  split.
  - intros samples. apply handleSamples_submits_nonempty. constructor.
  - intros packets. unfold OnTrack.
    destruct (init_decoder D (zeroCtx D) 640 480) as [c rc].
    destruct (negb (rc =? 0)); [constructor|].
    destruct (readLoop_keeps packets
                (mkTrack c (Some []) false 0 [InitDecoder 640 480]))
      as (_ & _ & H & _); cbn; auto; try lia.
Qed.

(** Until the first packet whose first payload byte has the low bit clear,
    the direct path drops every packet and keeps its state as it is. *)
Theorem direct_path_drops_packets_before_first_keyframe
  (pre rest : list Packet) (t : Track D) :
  seenKeyFrame t = false ->
  forallb (notKey Unmarshal) pre = true ->
  readLoop Unmarshal (pre ++ rest) t = readLoop Unmarshal rest t.
Proof.
  intros Hs. induction pre as [|p pre IH]; intros Hk; [reflexivity|].
  cbn [forallb] in Hk. apply andb_true_iff in Hk as [Hp Hk].
  unfold notKey in Hp. cbn [app readLoop].
  destruct (Unmarshal (Payload p)) as [v|]; [|discriminate].
  destruct (vp8Payload v) as [|b0 pl]; [discriminate|]. cbn [nth_error].
  rewrite Hs, Hp. cbn [negb andb]. exact (IH Hk).
Qed.

(** The direct path panics exactly when some packet does not depacketize
    or depacketizes to an empty payload. *)
Theorem direct_path_panics_on_malformed_packet (packets : list Packet) :
  forall t : Track D,
    isPanic (readLoop Unmarshal packets t)
    = negb (forallb (packetOk Unmarshal) packets).
Proof.
  induction packets as [|p packets IH]; intros t; [reflexivity|].
  cbn [readLoop forallb]. unfold packetOk at 1.
  destruct (Unmarshal (Payload p)) as [v|]; [|reflexivity].
  destruct (vp8Payload v) as [|b0 pl]; [reflexivity|]. cbn [nth_error andb].
  destruct (negb (seenKeyFrame t) && (lowBit b0 =? 1)); [apply IH|].
  destruct (match currentFrame t with None => true | Some _ => false end
            && negb (S v =? 1)); [apply IH|].
  destruct (negb (Marker p)); [apply IH|].
  destruct (len (appendFrame (currentFrame t) (b0 :: pl)) =? 0); [apply IH|].
  cbn [codec tevents frameCount].
  destruct (decode_frame D (codec t) _) as [c rc].
  destruct (negb (rc =? 0)); [apply IH|].
  destruct (saveFrames (frames D c) (frameCount t) _) as [n ev]. apply IH.
Qed.

(** The direct path submits to the decoder only on a packet that carries
    the marker bit: there are no more submissions than such packets. *)
Theorem direct_path_submits_only_on_marker (packets : list Packet) :
  forall t : Track D,
    (List.length (decodes (tevents (reached (readLoop Unmarshal packets t))))
     <= List.length (decodes (tevents t)) + List.length (marked packets))%nat.
Proof.
  induction packets as [|p packets IH]; intros t.
  - cbn. rewrite decodes_app. cbn. rewrite app_nil_r. lia.
  - cbn [readLoop]. unfold marked in *. cbn [filter].
    assert (Hskip : forall t' : Track D,
               tevents t' = tevents t ->
               (List.length (decodes (tevents (reached
                   (readLoop Unmarshal packets t'))))
                <= List.length (decodes (tevents t))
                   + List.length (if Marker p then p :: filter Marker packets
                                  else filter Marker packets))%nat).
    { intros t' Ht. specialize (IH t'). rewrite Ht in IH.
      destruct (Marker p); cbn [List.length]; lia. }
    destruct (Unmarshal (Payload p)) as [v|];
      [|cbn [reached]; destruct (Marker p); cbn [List.length]; lia].
    destruct (nth_error (vp8Payload v) 0) as [b0|];
      [|cbn [reached]; destruct (Marker p); cbn [List.length]; lia].
    destruct (negb (seenKeyFrame t) && (lowBit b0 =? 1));
      [now apply Hskip|].
    destruct (match currentFrame t with None => true | Some _ => false end
              && negb (S v =? 1)); [now apply Hskip|].
    destruct (Marker p) eqn:M; cbn [negb]; [|now apply Hskip].
    destruct (len (appendFrame (currentFrame t) (vp8Payload v)) =? 0);
      [now apply Hskip|].
    cbn [codec tevents frameCount].
    destruct (decode_frame D (codec t) _) as [c rc].
    destruct (negb (rc =? 0)).
    + match goal with
      | |- context [readLoop Unmarshal packets ?t1] => specialize (IH t1)
      end.
      cbn [tevents] in IH. rewrite !decodes_app in IH. cbn in IH.
      rewrite app_nil_r, length_app in IH. cbn in IH. cbn [List.length]. lia.
    + match goal with
      | |- context [saveFrames ?a ?b ?c] =>
          pose proof (saveFrames_keeps D a b c) as (Hsd & _);
          destruct (saveFrames a b c) as [n ev]
      end.
      cbn [snd] in Hsd. specialize (IH (mkTrack c None true n ev)).
      cbn [tevents] in IH. rewrite Hsd, decodes_app, length_app in IH.
      cbn in IH. cbn [List.length]. lia.
Qed.

End Paths.

(** Three frames with one image each, the second write failing: the calls
    are numbered 0, 1, 2 and the files written are those numbered 0 and
    2. *)
Example direct_path_failed_write_leaves_a_gap :
  let D := lossyDecoder (fun _ => [1%nat]) (Z.eqb 1) in
  let t := reached (OnTrack D exampleUnmarshal
                      [wholeAt 1 0 key640x480; wholeAt 2 3000 interframe;
                       wholeAt 3 6000 interframe]) in
  frameCount t = 3
  /\ jpegNumbers (tevents t) = [0; 1; 2]
  /\ jpegFiles (tevents t) = [0; 2].
Proof. cbv zeta. repeat split. Qed.

Lemma every_sample_submitted_witness :
  let D := exampleDecoder (fun _ => true) (fun _ => []) in
  let packets := [whole 1 interframe; whole 2 key640x480; whole 3 interframe] in
  feed 4 (vp8Builder (newWebmSaver exampleBuilder D)) packets
  = Some ([interframe; key640x480; interframe], ([], []))
  /\ forallb headerReadable [interframe; key640x480; interframe] = true
  /\ exists s',
       pushAll 4 (newWebmSaver exampleBuilder D) packets = Some (Ok s')
       /\ decodes (events s') = [interframe; key640x480; interframe].
Proof.
  cbv zeta. split; [reflexivity|]. split; [reflexivity|].
  destruct (every_sample_is_submitted_once_in_order exampleBuilder
              (exampleDecoder (fun _ => true) (fun _ => [])) 4%nat
              (newWebmSaver exampleBuilder
                 (exampleDecoder (fun _ => true) (fun _ => [])))
              [whole 1 interframe; whole 2 key640x480; whole 3 interframe]
              [interframe; key640x480; interframe] ([], []))
    as (s' & Hp & Hd).
  - apply (feed_Feeds exampleBuilder 4). reflexivity.
  - reflexivity.
  - cbn. lia.
  - exists s'. split; [exact Hp|exact Hd].
Defined.

Lemma interframes_submitted_witness :
  let D := exampleDecoder (fun _ => false) (fun _ => []) in
  forallb isInterframe [interframe; interframe] = true
  /\ exists s',
       handleSamples (newWebmSaver exampleBuilder D) [interframe; interframe]
       = Ok s'
       /\ inits (events s') = []
       /\ codecCreated s' = false
       /\ decodes (events s') = [interframe; interframe].
Proof.
  cbv zeta. split; [reflexivity|].
  exact (interframes_are_submitted_without_decoder exampleBuilder
           (exampleDecoder (fun _ => false) (fun _ => []))
           [interframe; interframe]
           (newWebmSaver exampleBuilder
              (exampleDecoder (fun _ => false) (fun _ => [])))
           eq_refl).
Defined.

Lemma direct_path_drops_witness :
  let D := exampleDecoder (fun _ => false) (fun _ => []) in
  let t := mkTrack (D := D) 0%nat (Some []) false 0 [] in
  seenKeyFrame t = false
  /\ forallb (notKey exampleUnmarshal) [whole 1 interframe; part 2 interframe]
     = true
  /\ readLoop exampleUnmarshal
       ([whole 1 interframe; part 2 interframe] ++ [whole 3 key640x480]) t
     = readLoop exampleUnmarshal [whole 3 key640x480] t.
Proof.
  cbv zeta. split; [reflexivity|]. split; [reflexivity|].
  exact (direct_path_drops_packets_before_first_keyframe
           (exampleDecoder (fun _ => false) (fun _ => [])) exampleUnmarshal
           [whole 1 interframe; part 2 interframe] [whole 3 key640x480]
           (mkTrack (D := exampleDecoder (fun _ => false) (fun _ => []))
              0%nat (Some []) false 0 [])
           eq_refl eq_refl).
Defined.

End AssemblerLaws.

(** ** Setting up the media engine *)
Module SetupLaws.
Import Setup.

Section Engine.
Variable M : Media.

Lemma failsAt_head (m : media M) (c : Call) (cs : list Call) :
  failsAt m (c :: cs) 0
  = match snd (perform m c) with Some _ => true | None => false end.
Proof. reflexivity. Qed.

Lemma failsAt_tail (m : media M) (c : Call) (cs : list Call) (i : nat) :
  failsAt m (c :: cs) (Datatypes.S i) = failsAt (fst (perform m c)) cs i.
Proof. reflexivity. Qed.

(** [firstFailure] finds the least index that fails. *)
Lemma firstFailure_None (cs : list Call) : forall m : media M,
  (forall i, failsAt m cs i = false) -> firstFailure m cs = None.
Proof.
  induction cs as [|c cs IH]; intros m H; [reflexivity|].
  cbn [firstFailure]. pose proof (H 0%nat) as H0. rewrite failsAt_head in H0.
  destruct (perform m c) as [m' [e|]] eqn:Hp; [discriminate H0|].
  rewrite IH; [reflexivity|].
  intros i. specialize (H (Datatypes.S i)). rewrite failsAt_tail, Hp in H.
  exact H.
Qed.

Lemma firstFailure_Some (cs : list Call) : forall (m : media M) (k : nat),
  failsAt m cs k = true ->
  (forall i, (i < k)%nat -> failsAt m cs i = false) ->
  firstFailure m cs = Some k.
Proof.
  induction cs as [|c cs IH]; intros m k Hk Hlt.
  - destruct k; discriminate Hk.
  - cbn [firstFailure]. destruct k as [|k].
    + rewrite failsAt_head in Hk.
      destruct (perform m c) as [m' [e|]]; [reflexivity|discriminate Hk].
    + pose proof (Hlt 0%nat ltac:(lia)) as H0. rewrite failsAt_head in H0.
      destruct (perform m c) as [m' [e|]] eqn:Hp; [discriminate H0|].
      rewrite (IH m' k); [reflexivity| |].
      * rewrite failsAt_tail, Hp in Hk. exact Hk.
      * intros i Hi. specialize (Hlt (Datatypes.S i) ltac:(lia)).
        rewrite failsAt_tail, Hp in Hlt. exact Hlt.
Qed.

Lemma firstFailure_lt (cs : list Call) : forall (m : media M) (k : nat),
  firstFailure m cs = Some k -> (k < List.length cs)%nat.
Proof.
  induction cs as [|c cs IH]; intros m k H; [discriminate H|].
  cbn [firstFailure] in H. cbn [List.length].
  destruct (perform m c) as [m' [e|]].
  - injection H as <-. lia.
  - destruct (firstFailure m' cs) as [j|] eqn:Hj; [|discriminate H].
    injection H as <-. specialize (IH m' j Hj). lia.
Qed.

Lemma firstFailure_app (a b : list Call) : forall m : media M,
  firstFailure m (a ++ b)
  = match firstFailure m a with
    | Some k => Some k
    | None => option_map (Nat.add (List.length a)) (firstFailure (stateAfter m a) b)
    end.
Proof.
  induction a as [|c a IH]; intros m.
  - cbn. destruct (firstFailure m b); reflexivity.
  - cbn [app firstFailure].
    destruct (perform m c) as [m' [e|]] eqn:Hp; [reflexivity|].
    rewrite IH. unfold stateAfter. cbn [fold_left]. rewrite Hp. cbn [fst].
    destruct (firstFailure m' a); [reflexivity|].
    destruct (firstFailure _ b); reflexivity.
Qed.

(** [registerHeaderExtensionURI] against [firstFailure]. *)
Lemma registerHeaderExtensionURI_run (uris : list string) :
  forall (m : media M) (calls : list Call),
    match registerHeaderExtensionURI m uris calls with
    | Ok st =>
        firstFailure m (map CRegisterHeaderExtension uris) = None
        /\ st = (stateAfter m (map CRegisterHeaderExtension uris),
                 calls ++ map CRegisterHeaderExtension uris)
    | Panic st =>
        exists k,
          firstFailure m (map CRegisterHeaderExtension uris) = Some k
          /\ snd st
             = calls ++ firstn (Datatypes.S k) (map CRegisterHeaderExtension uris)
    end.
Proof.
  induction uris as [|uri uris IH]; intros m calls.
  - cbn. now rewrite app_nil_r.
  - cbn [registerHeaderExtensionURI map firstFailure perform].
    destruct (RegisterHeaderExtension M m uri) as [m' [e|]] eqn:Hp.
    + exists 0%nat. split; reflexivity.
    + specialize (IH m' (calls ++ [CRegisterHeaderExtension uri])).
      destruct (registerHeaderExtensionURI m' uris _) as [st|st].
      * destruct IH as [-> ->]. split; [reflexivity|].
        unfold stateAfter. cbn [fold_left perform]. rewrite Hp. cbn [fst].
        now rewrite <- app_assoc.
      * destruct IH as (k & -> & ->). exists (Datatypes.S k).
        split; [reflexivity|]. cbn [firstn]. now rewrite <- app_assoc.
Qed.

(** [registerHeaderExtensionURI] registers the URIs in the order given, each
    in the engine the registrations ahead of it have left.  When none of the
    registrations returns an error it returns, having made them all; when
    one does, it panics at the first such registration, and the
    registrations made are those up to and including that one. *)
Theorem registerHeaderExtensionURI_stops_at_first_failure
  (uris : list string) (m : media M) (calls : list Call) :
  let cs := map CRegisterHeaderExtension uris in
  ((forall i, failsAt m cs i = false) ->
   registerHeaderExtensionURI m uris calls = Ok (stateAfter m cs, calls ++ cs))
  /\ (forall k,
        failsAt m cs k = true ->
        (forall i, (i < k)%nat -> failsAt m cs i = false) ->
        isPanic (registerHeaderExtensionURI m uris calls) = true
        /\ snd (reached (registerHeaderExtensionURI m uris calls))
           = calls ++ firstn (Datatypes.S k) cs).
Proof.
  cbv zeta. pose proof (registerHeaderExtensionURI_run uris m calls) as R.
  split.
  - intros Hno. apply firstFailure_None in Hno.
    destruct (registerHeaderExtensionURI m uris calls) as [st|st].
    + destruct R as [_ ->]. reflexivity.
    + destruct R as (k & Hk & _). congruence.
  - intros k Hk Hlt. pose proof (firstFailure_Some _ m k Hk Hlt) as Hf.
    destruct (registerHeaderExtensionURI m uris calls) as [st|st].
    + destruct R as [Hn _]. congruence.
    + destruct R as (k' & Hk' & Hs). cbn [isPanic reached].
      split; [reflexivity|]. congruence.
Qed.

Lemma InitPeerConnectionChannel_run (m : media M) :
  InitPeerConnectionChannel M m
  = match firstFailure m setupCalls with
    | None =>
        Ok (Some (fst (NewPeerConnection M
                         (stateAfter m (firstn 12 setupCalls)) iceServers)),
            setupCalls)
    | Some k => Panic (None, firstn (Datatypes.S k) setupCalls)
    end.
Proof.
  remember (stateAfter m (firstn 12 setupCalls)) as mm eqn:Hmm.
  unfold InitPeerConnectionChannel, registerCodec, setupCalls.
  cbn [fst snd app firstFailure perform].
  destruct (RegisterCodec M m VP8) as [m1 [e|]] eqn:H1; [reflexivity|].
  cbn [fst snd app].
  destruct (RegisterCodec M m1 VP9) as [m2 [e|]] eqn:H2; [reflexivity|].
  cbn [fst snd app].
  destruct (RegisterCodec M m2 H264) as [m3 [e|]] eqn:H3; [reflexivity|].
  cbn [fst snd app].
  destruct (RegisterDefaultCodecs M m3) as [m4 [e|]] eqn:H4; [reflexivity|].
  rewrite firstFailure_app.
  pose proof (registerHeaderExtensionURI_run headerExtensions m4
                [CRegisterCodec VP8; CRegisterCodec VP9; CRegisterCodec H264;
                 CRegisterDefaultCodecs]) as R.
  assert (Hst : mm = stateAfter m4 (map CRegisterHeaderExtension headerExtensions)).
  { subst mm. unfold stateAfter, setupCalls.
    cbn [app firstn fold_left map headerExtensions perform].
    rewrite H1. cbn [fst]. rewrite H2. cbn [fst]. rewrite H3. cbn [fst].
    rewrite H4. reflexivity. }
  clear Hmm.
  destruct (registerHeaderExtensionURI m4 headerExtensions _) as [st|st].
  - destruct R as [-> ->]. cbn [fst snd option_map firstFailure perform].
    rewrite <- Hst.
    destruct (NewPeerConnection M mm iceServers) as [pc [e|]].
    + reflexivity.
    + reflexivity.
  - destruct R as (k & Hk & ->). rewrite Hk. cbn [option_map snd Nat.add List.length].
    apply firstFailure_lt in Hk. rewrite !firstn_cons. cbn [app].
    do 6 f_equal.
    rewrite firstn_app.
    replace (Datatypes.S k - List.length (map CRegisterHeaderExtension headerExtensions))%nat
      with 0%nat by lia.
    cbn [firstn]. now rewrite app_nil_r.
Qed.

(** [InitPeerConnectionChannel] makes thirteen calls in one fixed order, each
    in the engine the calls ahead of it have left.  When none of them
    returns an error it returns the peer connection, having made them all;
    when one does, it panics at the first such call without making a later
    one, and no connection is returned. *)
Theorem InitPeerConnectionChannel_stops_at_first_failure (m : media M) :
  List.length setupCalls = 13%nat
  /\ ((forall i, failsAt m setupCalls i = false) ->
      InitPeerConnectionChannel M m
      = Ok (Some (fst (NewPeerConnection M
                         (stateAfter m (firstn 12 setupCalls)) iceServers)),
            setupCalls))
  /\ (forall k,
        failsAt m setupCalls k = true ->
        (forall i, (i < k)%nat -> failsAt m setupCalls i = false) ->
        InitPeerConnectionChannel M m
        = Panic (None, firstn (Datatypes.S k) setupCalls)).
Proof.
  split; [reflexivity|]. rewrite InitPeerConnectionChannel_run. split.
  - intros Hno. now rewrite (firstFailure_None _ m Hno).
  - intros k Hk Hlt. now rewrite (firstFailure_Some _ m k Hk Hlt).
Qed.

End Engine.

(** The third header extension is rejected: the setup panics at its
    seventh call. *)
Lemma InitPeerConnectionChannel_witness :
  let M := exampleMedia "urn:3gpp:video-orientation" in
  failsAt (M := M) 0%nat setupCalls 6 = true
  /\ InitPeerConnectionChannel M 0%nat
     = Panic (None,
              [CRegisterCodec VP8; CRegisterCodec VP9; CRegisterCodec H264;
               CRegisterDefaultCodecs;
               CRegisterHeaderExtension "urn:ietf:params:rtp-hdrext:toffset";
               CRegisterHeaderExtension
                 "http://www.webrtc.org/experiments/rtp-hdrext/abs-send-time";
               CRegisterHeaderExtension "urn:3gpp:video-orientation"]).
Proof.
  cbv zeta. split; [reflexivity|].
  refine (proj2 (proj2 (InitPeerConnectionChannel_stops_at_first_failure
                          (exampleMedia "urn:3gpp:video-orientation") 0%nat))
            6%nat eq_refl _).
  intros i Hi. do 6 (destruct i as [|i]; [reflexivity|]). lia.
Defined.

(** The second of three URIs is rejected. *)
Lemma registerHeaderExtensionURI_witness :
  let M := exampleMedia "b" in
  failsAt (M := M) 0%nat (map CRegisterHeaderExtension ["a"; "b"; "c"]) 1 = true
  /\ isPanic (registerHeaderExtensionURI (M := M) 0%nat ["a"; "b"; "c"] []) = true
  /\ snd (reached (registerHeaderExtensionURI (M := M) 0%nat ["a"; "b"; "c"] []))
     = [CRegisterHeaderExtension "a"; CRegisterHeaderExtension "b"].
Proof.
  cbv zeta. split; [reflexivity|].
  refine (proj2 (registerHeaderExtensionURI_stops_at_first_failure
                   (exampleMedia "b") ["a"; "b"; "c"] 0%nat [])
            1%nat eq_refl _).
  intros i Hi. destruct i as [|i]; [reflexivity|lia].
Defined.

End SetupLaws.
